(* ===== verification/_CoqProject ===== *)
-Q . S2P
Prelude.v
Tensor.v
Autograd.v
AddOp.v
LinearOp.v
EmbeddingOp.v
Attention.v
Calculus.v
GradCheck.v
ModuleInit.v
GeluOp.v
CrossEntropyOp.v
LayerNormOp.v
References.v
Harness.v
HarnessGradcheck.v
GeluGradcheck.v
CrossEntropyGradcheck.v
HarnessOutcome.v
