(* ===== verification/Prelude.v ===== *)
(** * A verification development for genshin-gpt's hand-written autograd operators

    The repository has one source file, [src/src/modules.py].  It defines six
    differentiable operators as [torch.autograd.Function] subclasses, each with
    a [forward(ctx, ...)] that computes the output and stores intermediate
    tensors with [ctx.save_for_backward], and a [backward(ctx, y_grad)] that
    returns one gradient per positional input ([None] for index inputs):
      - [CrossEntropyFn]  (lines 9-23)    softmax + mean negative log-likelihood
      - [LayerNormFn]     (lines 34-61)   row normalisation with gain and bias
      - [LinearFn]        (lines 76-89)   [x @ W.T + b]
      - [GELUFn]          (lines 106-118) tanh approximation of GELU
      - [AddFn]           (lines 129-137) elementwise sum with a shape assert
      - [EmbeddingFn]     (lines 148-158) row gather, scatter-add backward
    A seventh class, [MHAttentionFn] (lines 171-183), is an unfinished stub
    with a [forward] that returns [None] and no [backward].
    Each is wrapped by an [nn.Module] that owns the parameters and passes them
    to [Fn.apply].  Autograd calls [forward], keeps the context, and later
    calls [backward] on it with the gradient of the output; the operators
    never call one another.  The [__main__] block (lines 186-244) is a test
    harness that compares each forward with a [torch.nn.functional]
    reference and runs [torch.autograd.gradcheck] on each backward.

    ** Library layout (files in dependency order)
      - [Prelude]  this file: the scalar interface ([Class Scalar] with its
        ring laws [ScalarLaws], instances at [Z] for computation and at [R]
        for analysis), the errors the code raises ([error], [result], its
        bind notation [x <- r ;; k], [check] and the loop [rforall] of a
        Python [for] whose body may raise, with [verdict]), list
        tabulation, finite sums [sumn] and their algebra, the hint
        databases [tensor], [tensor_simpl] and [verdict] and the tactic
        [inv_result].
      - [Tensor]   2-D and 1-D tensors as a record [mat] (shape and rows),
        the torch calls the operators make: broadcasting of binary
        elementwise operations ([bdim], [bidx], [bmap2]), [unsqueeze],
        [expand_as] ([expand]), [@] ([matmul]), [.T], [.sum(0)], [.sum(1)],
        elementwise maps, Python's index wrap-around ([py_index],
        [resolve_index]); the well-formedness invariant [wf], the Frobenius
        inner product [dotm] used to state gradients, and [perturb]; the
        shape rules of these calls and the round trip of index resolution.
      - [Autograd]: the interface every operator class implements, as the
        record of operations [autograd_fn] (input, context, output, upstream
        and gradient types with [fn_forward] and [fn_backward]), and [run],
        which is [Fn.apply] followed by [backward] on the saved context.
      - [AddOp], [LinearOp], [EmbeddingOp]: the three operators that only add
        and multiply, over any commutative ring.
      - [Attention]: the [MHAttentionFn] stub, with rank-3 tensors, reshape,
        batched [@] and [.transpose(1, 2)], over any commutative ring.
      - [Calculus]: derivative rules over [R] ([derivable_pt_lim] of sums,
        products, quotients, [exp], [ln], [sqrt], [tanh]), derivatives
        through [perturb] and [vperturb], the tactic [deriv_rules], and
        the mean value bounds [central_mvt] and [deriv_bound_diff] that
        measure a central difference.
      - [GradCheck]: the derivative form of the gradient contract for
        [AddFn], [LinearFn] and [EmbeddingFn], at [R].
      - [ModuleInit]: [Linear.__init__] and [Embedding.__init__] with the
        torch initialisers they call, at [R]; the unspecified contents of
        [torch.empty] and the random draws are explicit arguments (one per
        entry) that the theorems quantify over.
      - [GeluOp], [CrossEntropyOp], [LayerNormOp]: the operators that use
        [tanh], [exp], [log] and [rsqrt], over [R].
      - [References]: the [torch.nn.functional] references the harness
        compares with ([Module Ref]) and [torch.allclose], and the proof
        that each operator's [forward] computes its reference.
      - [Harness]: the [__main__] block's table of tests, the values its
        parameter draws can take, the forward [assert],
        [torch.autograd.gradcheck] ([gradcheck]: central differences of
        [forward], the Jacobian [backward] gives for one-hot upstream
        gradients, [allclose] on each pair, the zero-upstream check), and
        the loop as the trace of the lines it prints and how it ends.
      - [HarnessGradcheck]: what [gradcheck] finds on the harness's draws:
        exact central differences for the linear operators, and the
        zero-upstream check for all six.
      - [GeluGradcheck]: the mean value theorem, twice, bounds the error of
        [gradcheck]'s central difference for [GELUFn] on [torch.rand]'s
        range ([|gelu''| <= 100] there).
      - [CrossEntropyGradcheck]: the same argument for [CrossEntropyFn],
        for every logit tensor: along one logit the loss's derivative is
        the gradient entry at the shifted logits, whose slope
        [s (1 - s) / T] is at most [1 / 4].
      - [HarnessOutcome]: the composition of the above on [torch.rand]
        draws: the whole block's output is decided by [layer_norm]'s
        [gradcheck] alone.
    Each operator file has a [Module <Name>Fn] with the saved context as a
    [Record ctx], [forward] and [backward] as the source writes them, one
    step of the [result] monad per tensor operation, and a
    [Module <Name>Module] for the [nn.Module] wrapper, and the operator's
    instance [<Name>Fn.function] of [autograd_fn].  Each then proves a
    closed form of [forward] and [backward] (lemmas [*_code]) and states its
    properties against it.

    ** What is modelled, and how
    Add, Linear and Embedding are modelled over an abstract commutative
    ring, so their definitions run and their witnesses are evaluated at [Z].
    GELU, CrossEntropy and LayerNorm are modelled over Stdlib's reals [R].
    Rounding and NaN are not modelled: a theorem about a value is about the
    exact real computation that the float code approximates (a mean over an
    empty axis is [0] here and NaN in torch).  Shape errors, failed asserts
    and index errors are values of [result], each named after the Python
    exception the code raises.  Every definition is structurally recursive,
    so no fuel or bound is needed: every loop of the code runs over a
    finite range ([range], a list of indices, the table of tests) and is a
    structural recursion on it.  Random draws are inputs: the harness's
    parameters range over every value of the drawn shape (indices over the
    range of [randint]), and the initialisers take one sample per entry.
    The contents [torch.empty] returns are unspecified, so they are an
    input too, and a theorem about a fresh module holds for all of them.
    The harness's loop returns the lines it printed together with its
    outcome, since a line is printed before the next test runs.

    ** Properties
    The gradient contract that [gradcheck] tests is stated exactly.  Take
    [backward] applied to an upstream gradient [dy]:
      - for the linear operators (Add, Linear, Embedding) it is the adjoint
        of the forward map, [<dy, f x'> = <backward dy, x'>], over any ring,
        and, at [R] in [GradCheck], entry [(i, j)] of each gradient is the
        derivative at [0] of [h |-> <dy, f (x + h e_ij)>], for every
        differentiable input (the indices of Embedding excepted);
      - for the non-linear operators (GELU, CrossEntropy, LayerNorm) entry
        [(i, j)] is the derivative at [0] of [h |-> <dy, f (x + h e_ij)>]
        ([derivable_pt_lim]), for the input and for the LayerNorm gain and
        bias.
    Each operator also has:
      - the closed form of [forward] against the mathematical definition
        (log-sum-exp cross entropy, [(x - m) / sqrt(v + eps)] layer norm);
      - the error behaviour of each check;
      - invariants: softmax rows are distributions; the loss lies between
        two bounds set by the smallest and largest margin of the target
        logits; LayerNorm's normalised rows have mean 0, and a constant row
        keeps a finite inverse deviation [sqrt(1e5)] thanks to [eps]; the
        rows of LayerNorm's input gradient and of the cross-entropy
        gradient sum to 0; identical rows stay identical.
    For [Linear.__init__]: whatever [torch.empty] returned, every parameter
    lies within [1 / sqrt in_c] (the Kaiming bound with [a = sqrt 5] is
    the code's bias bound).
    For the attention stub: exactly which shapes let it run (one head), and
    that no gradient ever comes out of it (lemma [mha_no_backward]).
    For the harness, on every draw its table allows:
      - every operator's [forward] equals its [torch.nn.functional]
        reference, so the [allclose] assert holds;
      - every [forward] and [backward] call [gradcheck] makes succeeds, so
        the block prints ["<test> passed"] for the tests up to the first
        whose [gradcheck] raises [GradcheckError], and prints its closing
        line exactly when none does;
      - [gradcheck] passes for [linear], [add] and [embedding] with any
        [eps > 0]: their central differences are exact and equal the
        Jacobian [backward] computes;
      - [gradcheck] passes for [gelu] on every [torch.rand] draw: its
        central differences lie within [1e-4] of the derivatives
        [backward] computes, inside [atol = 1e-2];
      - [gradcheck] passes for [cross_entropy] on every draw: its central
        differences lie within [eps / 4] of the gradient [backward]
        computes;
      - on [torch.rand] draws, therefore, the block prints all six lines
        and its closing line if [layer_norm]'s [gradcheck] passes, and
        otherwise prints ["cross_entropy passed"] and raises
        [GradcheckError];
      - every [backward] returns zero gradients of its inputs' sizes for a
        zero upstream gradient.

    ** Findings
      - CrossEntropy broadcasts [s[arange(T), y]].  A target list of length
        1 is used for every row instead of being refused.  With one row of
        logits and several targets, [backward] returns a gradient with one
        row per target for a one-row input, scaled by [1/T] rather than
        [1/L].
      - Embedding: [forward] accepts negative indices, but [index_add] in
        [backward] then raises [IndexError].
      - LayerNorm: the normalised rows have variance [v / (v + eps) < 1],
        and exactly [0] for a constant row, not the variance of about 1
        that the spec asserts.
      - LayerNorm saves eight tensors, where the spec asks for the minimal
        set; its [backward] reads only [gamma], [mu], [sigma] and the width
        of [x].
      - MHAttention: the reshape of [x] to [(H, T, Ca)] followed by
        [x @ w_q] with [w_q] of shape [(H, C, Ca)] needs [C = H * Ca] and
        [Ca = C] at once, so the stub raises for every multi-head
        configuration.
      - Harness: [torch.randint(C - 1)] and [torch.randint(T - 1)] exclude
        their bound, so the tests never use class [C - 1] or table row
        [T - 1], and never reach the broadcasting and wrap-around paths
        behind the findings above.

    ** Not modelled
    The generator behind the random draws ([torch.manual_seed(42)] and
    which sample lands on which entry); the intended semantics of the
    attention stub, which the spec excludes; float64 rounding (the
    theorems are about the exact real computation); whether [gradcheck]
    passes for [layer_norm], whose central differences are off by [eps]
    times a second derivative that this development does not bound (the
    bound depends on a lower bound of each drawn row's variance, which
    [torch.rand] does not give: a constant row has variance 0);
    [LayerNormOp] proves that [backward] computes the derivatives exactly.
    Also not modelled: the [ZeroDivisionError] that [1 / C] in
    [LayerNormFn.backward] raises on an input of width 0 (the model divides
    by [INR 0 = 0] and returns; torch's [forward] has already produced NaN
    means there); [gradcheck]'s reentrancy and dtype checks; the
    ANSI colour codes of the closing [print]; and [torch.autograd] itself
    (graph building and gradient accumulation).
*)

From Stdlib Require Import List Arith Lia ZArith Reals Ring.
Import ListNotations.

(** ** The scalar interface *)

Class Scalar (K : Type) := {
  szero : K;
  sone : K;
  sadd : K -> K -> K;
  smul : K -> K -> K;
  sopp : K -> K
}.

Definition ssub {K} `{Scalar K} (a b : K) : K := sadd a (sopp b).

Class ScalarLaws (K : Type) `{Scalar K} := {
  scalar_ring : ring_theory szero sone sadd smul ssub sopp (@eq K)
}.

Declare Scope scalar_scope.
Delimit Scope scalar_scope with sc.
Infix "+" := sadd : scalar_scope.
Infix "*" := smul : scalar_scope.
Infix "-" := ssub : scalar_scope.
Notation "- x" := (sopp x) : scalar_scope.

#[export] Instance Z_scalar : Scalar Z :=
  { szero := 0%Z; sone := 1%Z; sadd := Z.add; smul := Z.mul; sopp := Z.opp }.
#[export] Instance Z_laws : ScalarLaws Z := { scalar_ring := Zth }.

#[export] Instance R_scalar : Scalar R :=
  { szero := 0%R; sone := 1%R; sadd := Rplus; smul := Rmult; sopp := Ropp }.
#[export] Instance R_laws : ScalarLaws R := { scalar_ring := RTheory }.

(** ** Errors raised by the code *)

(** [AssertionError] is Python's [assert]; [ShapeError] is the
    [RuntimeError] torch raises on incompatible shapes; [IndexError] is the
    error of indexing a tensor out of range; [ValueError] is Python's error
    of unpacking a sequence into the wrong number of names;
    [NotImplementedError] is what autograd raises when [backward] is called
    on a [Function] that does not define it; [GradcheckError] is what
    [torch.autograd.gradcheck] raises when a check fails. *)
Inductive error :=
  AssertionError | ShapeError | IndexError | ValueError | NotImplementedError | GradcheckError.

Inductive result (A : Type) : Type :=
| Ok : A -> result A
| Err : error -> result A.
Arguments Ok {A} _.
Arguments Err {A} _.

Definition rbind {A B} (r : result A) (k : A -> result B) : result B :=
  match r with Ok a => k a | Err e => Err e end.

Definition check (b : bool) (e : error) : result unit :=
  if b then Ok tt else Err e.

Declare Scope result_scope.
Delimit Scope result_scope with res.
Notation "x <- r ;; k" := (rbind r (fun x => k))
  (at level 61, r at next level, right associativity) : result_scope.
Notation "r ;; k" := (rbind r (fun _ => k))
  (at level 61, right associativity) : result_scope.

Lemma rbind_Ok {A B} (r : result A) (k : A -> result B) b :
  rbind r k = Ok b -> exists a, r = Ok a /\ k a = Ok b.
Proof. destruct r; simpl; [eauto | discriminate]. Qed.

Lemma check_Ok b e : check b e = Ok tt <-> b = true.
Proof. destruct b; simpl; split; congruence. Qed.

(** A Python [for] loop over [l] whose body may raise: the first raise
    ends the loop. *)
Fixpoint rforall {A} (l : list A) (f : A -> result unit) : result unit :=
  match l with
  | [] => Ok tt
  | a :: l' => rbind (f a) (fun _ => rforall l' f)
  end.

Lemma rforall_Ok {A} (l : list A) (f : A -> result unit) :
  (forall a, In a l -> f a = Ok tt) -> rforall l f = Ok tt.
Proof.
  induction l as [|a l IH]; intros H; [reflexivity |]. cbn [rforall].
  rewrite (H a (or_introl eq_refl)). apply IH. intros b Hb. apply H. now right.
Qed.

(** A check's verdict: it passes, or it raises the one error [e] it
    raises on failure. *)
Definition verdict (e : error) (r : result unit) : Prop := r = Ok tt \/ r = Err e.

Lemma check_verdict b e : verdict e (check b e).
Proof. destruct b; [left | right]; reflexivity. Qed.

Lemma rbind_verdict {A} e (r : result A) (k : A -> result unit) a :
  r = Ok a -> verdict e (k a) -> verdict e (rbind r k).
Proof. intros ->. exact (fun H => H). Qed.

Lemma rbind_verdict2 e (r : result unit) (k : unit -> result unit) :
  verdict e r -> verdict e (k tt) -> verdict e (rbind r k).
Proof. intros [-> | ->] Hk; [exact Hk | right; reflexivity]. Qed.

Lemma rforall_verdict {A} e (l : list A) (f : A -> result unit) :
  (forall a, In a l -> verdict e (f a)) -> verdict e (rforall l f).
Proof.
  induction l as [|a l IH]; intros H; [left; reflexivity |]. cbn [rforall].
  apply rbind_verdict2; [apply H; now left | apply IH; intros b Hb; apply H; now right].
Qed.

Create HintDb verdict discriminated.
#[export] Hint Resolve check_verdict rforall_verdict : verdict.

(** ** Tabulation: [tabulate n f = [f 0; ...; f (n-1)]] *)

Definition tabulate {A} (n : nat) (f : nat -> A) : list A := map f (seq 0 n).

Lemma length_tabulate {A} n (f : nat -> A) : length (tabulate n f) = n.
Proof. unfold tabulate. now rewrite length_map, length_seq. Qed.

Lemma nth_tabulate {A} n (f : nat -> A) i d :
  i < n -> nth i (tabulate n f) d = f i.
Proof.
  intros Hi. unfold tabulate.
  rewrite nth_indep with (d' := f 0) by (rewrite length_map, length_seq; lia).
  now rewrite map_nth, seq_nth.
Qed.

Lemma map_tabulate {A B} (g : A -> B) n (f : nat -> A) :
  map g (tabulate n f) = tabulate n (fun i => g (f i)).
Proof. unfold tabulate. now rewrite map_map. Qed.

Lemma nth_repeat_lt {A} (a d : A) n l : (l < n)%nat -> nth l (repeat a n) d = a.
Proof.
  revert l; induction n as [|n IH]; intros l Hl; [lia |].
  destruct l as [|l]; simpl; [reflexivity | apply IH; lia].
Qed.

Lemma tabulate_ext {A} n (f g : nat -> A) :
  (forall i, i < n -> f i = g i) -> tabulate n f = tabulate n g.
Proof.
  intros H. unfold tabulate. apply map_ext_in.
  intros i Hi. apply in_seq in Hi. apply H. lia.
Qed.

Lemma list_eq_nth {A} (l1 l2 : list A) d :
  length l1 = length l2 ->
  (forall i, i < length l1 -> nth i l1 d = nth i l2 d) -> l1 = l2.
Proof.
  revert l2; induction l1 as [|a l1 IH]; intros [|b l2] Hl H; simpl in *;
    try discriminate; auto.
  f_equal; [apply (H 0); lia |].
  apply IH; [lia |]. intros i Hi. apply (H (S i)). lia.
Qed.

Lemma tabulate_nth {A} (l : list A) d : tabulate (length l) (fun i => nth i l d) = l.
Proof.
  apply list_eq_nth with (d := d); rewrite length_tabulate; [reflexivity |].
  intros i Hi. now rewrite nth_tabulate.
Qed.

Lemma Forall_tabulate {A} (P : A -> Prop) n f :
  (forall i, i < n -> P (f i)) -> Forall P (tabulate n f).
Proof.
  intros H. unfold tabulate. apply Forall_map, Forall_forall.
  intros i Hi. apply in_seq in Hi. apply H. lia.
Qed.

(** ** Finite sums over an index range *)

Section Sums.
Context {K : Type} `{ScalarLaws K}.
Add Ring KRing : scalar_ring.
Local Open Scope scalar_scope.

(** [sumn n f = f 0 + ... + f (n-1)]: the reductions of the code
    ([.sum], [.mean], [einsum], [@]) over an axis of length [n]. *)
Fixpoint sumn (n : nat) (f : nat -> K) : K :=
  match n with
  | O => szero
  | S n' => sumn n' f + f n'
  end.

Lemma sumn_ext n f g :
  (forall i, i < n -> f i = g i) -> sumn n f = sumn n g.
Proof.
  induction n as [|n IH]; intros Hfg; simpl; [reflexivity |].
  rewrite IH, Hfg by (try intros; try apply Hfg; lia). reflexivity.
Qed.

Lemma sumn_zero n : sumn n (fun _ => szero) = szero.
Proof. induction n as [|n IH]; simpl; [reflexivity | rewrite IH; ring]. Qed.

Lemma sumn_add n f g :
  sumn n (fun i => f i + g i) = sumn n f + sumn n g.
Proof. induction n as [|n IH]; simpl; [ring | rewrite IH; ring]. Qed.

Lemma sumn_opp n f : sumn n (fun i => - f i) = - sumn n f.
Proof. induction n as [|n IH]; simpl; [ring | rewrite IH; ring]. Qed.

Lemma sumn_sub n f g :
  sumn n (fun i => f i - g i) = sumn n f - sumn n g.
Proof. induction n as [|n IH]; simpl; [ring | rewrite IH; ring]. Qed.

Lemma sumn_mul_l n a f : sumn n (fun i => a * f i) = a * sumn n f.
Proof. induction n as [|n IH]; simpl; [ring | rewrite IH; ring]. Qed.

Lemma sumn_mul_r n a f : sumn n (fun i => f i * a) = sumn n f * a.
Proof. induction n as [|n IH]; simpl; [ring | rewrite IH; ring]. Qed.

(** Exchanging the order of a double sum. *)
Lemma sumn_swap n m (f : nat -> nat -> K) :
  sumn n (fun i => sumn m (fun j => f i j)) =
  sumn m (fun j => sumn n (fun i => f i j)).
Proof.
  induction n as [|n IH]; simpl.
  - symmetry. apply sumn_zero.
  - rewrite IH, <- sumn_add. reflexivity.
Qed.

(** A sum whose terms vanish outside one index [k < n]. *)
Lemma sumn_single n k f :
  k < n -> (forall i, i < n -> i <> k -> f i = szero) -> sumn n f = f k.
Proof.
  induction n as [|n IH]; intros Hk Hz; simpl; [lia |].
  destruct (Nat.eq_dec k n) as [->|Hne].
  - rewrite (sumn_ext n f (fun _ => szero)), sumn_zero by (intros; apply Hz; lia).
    ring.
  - rewrite IH by (try intros; try apply Hz; lia).
    rewrite (Hz n) by lia. ring.
Qed.

(** The sum of the terms of [f] at the positions where [p] holds. *)
Lemma sumn_if_false n (p : nat -> bool) f :
  (forall i, i < n -> p i = false) ->
  sumn n (fun i => if p i then f i else szero) = szero.
Proof.
  intros Hp. rewrite (sumn_ext n _ (fun _ => szero)); [apply sumn_zero |].
  intros i Hi. now rewrite Hp.
Qed.

(** Distributing a factor over an inner sum and exchanging the sums. *)
Lemma sumn_mul_sumn n m (a : nat -> K) (f : nat -> nat -> K) :
  sumn n (fun o => a o * sumn m (fun k => f o k)) =
  sumn m (fun k => sumn n (fun o => a o * f o k)).
Proof.
  rewrite <- sumn_swap. apply sumn_ext. intros o Ho. symmetry. apply sumn_mul_l.
Qed.

Lemma sumn_succ_l n f : sumn (S n) f = f 0 + sumn n (fun i => f (S i)).
Proof.
  induction n as [|n IH]; [simpl; ring |].
  change (sumn (S (S n)) f) with (sumn (S n) f + f (S n)).
  rewrite IH. simpl. ring.
Qed.
End Sums.

(** ** Automation shared by the development *)

Create HintDb tensor discriminated.
Create Rewrite HintDb tensor_simpl.
#[export] Hint Rewrite @length_tabulate @length_map @sumn_zero : tensor_simpl.
#[export] Hint Resolve Forall_tabulate : tensor.

(** [inv_result] simplifies equations between [result] values. *)
Ltac inv_result :=
  repeat match goal with
  | H : Ok _ = Ok _ |- _ => injection H as H; subst
  | H : Ok _ = Err _ |- _ => discriminate H
  | H : Err _ = Ok _ |- _ => discriminate H
  end.
