(* ===== verification/Tensor.v ===== *)
(** * Tensors of rank 1 and 2, with torch's shape discipline

    A 2-D tensor is a record [mat] holding its shape ([nrows], [ncols]) and
    its rows; a 1-D tensor is a [list].  The operations are the torch calls
    of [src/src/modules.py]: broadcasting elementwise arithmetic ([bmap2],
    with [unsqueeze0]/[unsqueeze1] for [.unsqueeze(0)]/[.unsqueeze(1)]),
    [expand_as], [@] ([matmul]), [.T] ([transpose]), [.sum(0)] ([sum0]),
    [.sum(1)] ([sum1]) and Python's index wrap-around ([py_index]).  Each
    fallible call returns a [result], with [ShapeError] where torch raises.
    The invariant [wf] (the rows agree with the recorded shape) is preserved
    by every operation. *)

From Stdlib Require Import List Arith Lia ZArith Bool.
From S2P Require Import Prelude.
Import ListNotations.

Record mat (K : Type) := Mat { nrows : nat; ncols : nat; rows : list (list K) }.
Arguments Mat {K}.
Arguments nrows {K}.
Arguments ncols {K}.
Arguments rows {K}.

(** [A[i, j]], with [0] outside the shape (never read by the code). *)
Definition mget {K : Type} `{Scalar K} (m : mat K) (i j : nat) : K := nth j (nth i (rows m) []) szero.

Definition vget {K : Type} `{Scalar K} (v : list K) (i : nat) : K := nth i v szero.

(** The tensor of shape [(r, c)] whose entry [(i, j)] is [f i j]. *)
Definition tab {K : Type} (r c : nat) (f : nat -> nat -> K) : mat K :=
  Mat r c (tabulate r (fun i => tabulate c (f i))).

(** Well-formedness: the rows agree with the recorded shape. *)
Definition wf {K : Type} (m : mat K) : Prop :=
  length (rows m) = nrows m /\ Forall (fun row => length row = ncols m) (rows m).

Definition wfb {K : Type} (m : mat K) : bool :=
  (length (rows m) =? nrows m) && forallb (fun row => length row =? ncols m) (rows m).

Definition has_shape {K : Type} (r c : nat) (m : mat K) : Prop :=
  wf m /\ nrows m = r /\ ncols m = c.

(** [v.unsqueeze(0)], shape [(1, n)], and [v.unsqueeze(1)], shape [(n, 1)]. *)
Definition unsqueeze0 {K : Type} (v : list K) : mat K := Mat 1 (length v) [v].
Definition unsqueeze1 {K : Type} (v : list K) : mat K := Mat (length v) 1 (map (fun a => [a]) v).

(** Broadcasting of one dimension: equal sizes, or one of them is 1. *)
Definition bdim (a b : nat) : option nat :=
  if a =? b then Some a
  else if a =? 1 then Some b
  else if b =? 1 then Some a
  else None.

(** The index read in an operand of size [n] for output index [i]. *)
Definition bidx (n i : nat) : nat := if n =? 1 then 0 else i.

(** A binary elementwise torch operation ([+], [-], [*]) with broadcasting. *)
Definition bmap2 {K : Type} `{Scalar K} (f : K -> K -> K) (A B : mat K) : result (mat K) :=
  match bdim (nrows A) (nrows B), bdim (ncols A) (ncols B) with
  | Some r, Some c =>
      Ok (tab r c (fun i j => f (mget A (bidx (nrows A) i) (bidx (ncols A) j))
                                (mget B (bidx (nrows B) i) (bidx (ncols B) j))))
  | _, _ => Err ShapeError
  end.

(** [A.expand_as(T)] for a target of shape [(r, c)]: each dimension of
    [A] is either already the target size or 1. *)
Definition expand {K : Type} `{Scalar K} (A : mat K) (r c : nat) : result (mat K) :=
  if ((nrows A =? r) || (nrows A =? 1)) && ((ncols A =? c) || (ncols A =? 1))
  then Ok (tab r c (fun i j => mget A (bidx (nrows A) i) (bidx (ncols A) j)))
  else Err ShapeError.

(** An elementwise unary operation ([.exp()], [** 2], [.tanh()], ...). *)
Definition mmap {K : Type} `{Scalar K} (f : K -> K) (A : mat K) : mat K :=
  tab (nrows A) (ncols A) (fun i j => f (mget A i j)).

Definition zeros_like {K : Type} `{Scalar K} (A : mat K) : mat K := tab (nrows A) (ncols A) (fun _ _ => szero).

(** [A @ B]. *)
Definition matmul {K : Type} `{Scalar K} (A B : mat K) : result (mat K) :=
  if ncols A =? nrows B then
    Ok (tab (nrows A) (ncols B)
            (fun i j => sumn (ncols A) (fun k => smul (mget A i k) (mget B k j))))
  else Err ShapeError.

(** [A.T]. *)
Definition transpose {K : Type} `{Scalar K} (A : mat K) : mat K := tab (ncols A) (nrows A) (fun i j => mget A j i).

(** [A.sum(0)] and [A.sum(1)]. *)
Definition sum0 {K : Type} `{Scalar K} (A : mat K) : list K :=
  tabulate (ncols A) (fun j => sumn (nrows A) (fun i => mget A i j)).
Definition sum1 {K : Type} `{Scalar K} (A : mat K) : list K :=
  tabulate (nrows A) (fun i => sumn (ncols A) (fun j => mget A i j)).

(** The Frobenius inner product [<A, B> = sum_ij A[i,j] B[i,j]] over the
    shape of [A]; a vector-Jacobian product is stated with it. *)
Definition dotm {K : Type} `{Scalar K} (A B : mat K) : K :=
  sumn (nrows A) (fun i => sumn (ncols A) (fun j => smul (mget A i j) (mget B i j))).

Definition dotv {K : Type} `{Scalar K} (u v : list K) : K :=
  sumn (length u) (fun i => smul (vget u i) (vget v i)).

(** [A] with the entry [(i, j)] replaced by [A[i,j] + h]. *)
Definition perturb {K : Type} `{Scalar K} (A : mat K) (i j : nat) (h : K) : mat K :=
  tab (nrows A) (ncols A)
      (fun a b => if (a =? i) && (b =? j) then sadd (mget A a b) h else mget A a b).

(** [u] with the entry [i] replaced by [u[i] + h]. *)
Definition vperturb {K : Type} `{Scalar K} (u : list K) (i : nat) (h : K) : list K :=
  tabulate (length u) (fun a => if a =? i then sadd (vget u a) h else vget u a).

(** The tensor a computation returns, and the output of a [forward] that
    also returns a context; an error gives the empty tensor.  Gradient
    statements take the derivative of [<dy, out_of (forward ...)>]. *)
Definition mat_of {K : Type} (r : result (mat K)) : mat K := match r with Ok y => y | Err _ => Mat 0 0 [] end.
Definition out_of {K : Type} {C : Type} (r : result (mat K * C)) : mat K :=
  match r with Ok (y, _) => y | Err _ => Mat 0 0 [] end.

(** Python's indexing of a sequence of length [n] by an integer [i]:
    [-n <= i < 0] counts from the end, anything outside [-n, n) raises. *)
Definition py_index (n : nat) (i : Z) : option nat :=
  if (0 <=? i)%Z && (i <? Z.of_nat n)%Z then Some (Z.to_nat i)
  else if (- Z.of_nat n <=? i)%Z && (i <? 0)%Z then Some (Z.to_nat (Z.of_nat n + i))
  else None.

(** The position [py_index] resolves an in-range index to. *)
Definition py_wrap (n : nat) (i : Z) : nat :=
  Z.to_nat (if (i <? 0)%Z then (Z.of_nat n + i)%Z else i).

Lemma py_index_some n i :
  (- Z.of_nat n <= i < Z.of_nat n)%Z -> py_index n i = Some (py_wrap n i).
Proof.
  intros Hi. unfold py_index, py_wrap.
  destruct (Z.leb_spec 0 i), (Z.ltb_spec i (Z.of_nat n)), (Z.ltb_spec i 0);
    simpl; try lia; try reflexivity.
  destruct (Z.leb_spec (- Z.of_nat n) i); simpl; [reflexivity | lia].
Qed.

Lemma py_index_none n i :
  ~ (- Z.of_nat n <= i < Z.of_nat n)%Z -> py_index n i = None.
Proof.
  intros Hi. unfold py_index.
  destruct (Z.leb_spec 0 i), (Z.ltb_spec i (Z.of_nat n)),
    (Z.leb_spec (- Z.of_nat n) i), (Z.ltb_spec i 0); simpl; try reflexivity; lia.
Qed.

Lemma py_wrap_lt n i : (- Z.of_nat n <= i < Z.of_nat n)%Z -> py_wrap n i < n.
Proof. intros Hi. unfold py_wrap. destruct (Z.ltb_spec i 0); lia. Qed.

Lemma py_wrap_nonneg n i : (0 <= i)%Z -> py_wrap n i = Z.to_nat i.
Proof. intros Hi. unfold py_wrap. destruct (Z.ltb_spec i 0); [lia | reflexivity]. Qed.

Lemma nth_map_py_wrap C y l :
  nth l (map (py_wrap C) y) 0%nat = py_wrap C (nth l y 0%Z).
Proof. change 0%nat with (py_wrap C 0%Z). apply map_nth. Qed.

(** Resolving a list of Python indices into a dimension of size [n]
    ([emb[x]], [s[:, y]], [eye[y]]): wrap-around, [IndexError] outside
    [[-n, n)]. *)
Fixpoint resolve_index (n : nat) (xs : list Z) : result (list nat) :=
  match xs with
  | [] => Ok []
  | i :: xs' =>
      match py_index n i with
      | Some k => rbind (resolve_index n xs') (fun ks => Ok (k :: ks))
      | None => Err IndexError
      end
  end.

Lemma resolve_index_ok n xs :
  (forall i, In i xs -> (- Z.of_nat n <= i < Z.of_nat n)%Z) ->
  resolve_index n xs = Ok (map (py_wrap n) xs).
Proof.
  induction xs as [|i xs IH]; intros Hin; simpl; [reflexivity |].
  rewrite py_index_some by (apply Hin; left; reflexivity).
  rewrite IH by (intros; apply Hin; right; assumption). reflexivity.
Qed.

Lemma resolve_index_err n xs :
  (exists i, In i xs /\ ~ (- Z.of_nat n <= i < Z.of_nat n)%Z) ->
  resolve_index n xs = Err IndexError.
Proof.
  induction xs as [|i xs IH]; intros (i0 & Hin & Hout); [destruct Hin |].
  simpl. destruct (py_index n i) eqn:E; [| reflexivity].
  destruct Hin as [<- | Hin]; [rewrite py_index_none in E by exact Hout; discriminate |].
  rewrite IH by eauto. reflexivity.
Qed.

(** ** Lemmas *)

Section TensorLemmas.
Context {K : Type} `{ScalarLaws K}.
Add Ring KRing : scalar_ring.
Local Open Scope scalar_scope.
Implicit Types (A B m : mat K) (f g : nat -> nat -> K) (v : list K) (h : K).

Lemma mget_tab r c f i j : i < r -> j < c -> mget (tab r c f) i j = f i j.
Proof.
  intros Hi Hj. unfold mget, tab; simpl.
  rewrite nth_tabulate by exact Hi. now rewrite nth_tabulate.
Qed.

Lemma nrows_tab r c f : nrows (tab r c f) = r.
Proof. reflexivity. Qed.

Lemma ncols_tab r c f : ncols (tab r c f) = c.
Proof. reflexivity. Qed.

Lemma tab_wf r c f : wf (tab r c f).
Proof.
  split; simpl; [apply length_tabulate |].
  apply Forall_tabulate. intros. apply length_tabulate.
Qed.

Lemma tab_shape r c f : has_shape r c (tab r c f).
Proof. repeat split; try apply tab_wf. Qed.

Lemma wfb_wf m : wfb m = true -> wf m.
Proof.
  unfold wfb, wf. rewrite andb_true_iff, Nat.eqb_eq, forallb_forall.
  intros [Hl Hr]. split; [exact Hl |].
  apply Forall_forall. intros row Hrow. apply Nat.eqb_eq, Hr, Hrow.
Qed.

Lemma wf_wfb m : wf m -> wfb m = true.
Proof.
  unfold wfb, wf. intros [Hl Hf]. rewrite andb_true_iff, Nat.eqb_eq, forallb_forall.
  split; [exact Hl |]. intros row Hin. apply Nat.eqb_eq. rewrite Forall_forall in Hf. auto.
Qed.

Lemma shape_wfb r c m : has_shape r c m -> wfb m && (nrows m =? r) && (ncols m =? c) = true.
Proof. intros (Hw & -> & ->). now rewrite wf_wfb, !Nat.eqb_refl. Qed.

Lemma has_shape_wfb r c m :
  wfb m && (nrows m =? r) && (ncols m =? c) = true -> has_shape r c m.
Proof.
  rewrite !andb_true_iff, !Nat.eqb_eq. intros [[Hw Hr] Hc].
  split; [now apply wfb_wf | auto].
Qed.

(** A well-formed tensor is the tabulation of its entries. *)
Lemma wf_tab m : wf m -> m = tab (nrows m) (ncols m) (mget m).
Proof.
  destruct m as [r c rs]; unfold wf, tab, mget; simpl. intros [Hl Hf].
  f_equal. subst r.
  rewrite <- (tabulate_nth rs []) at 1. apply tabulate_ext.
  intros i Hi. rewrite Forall_forall in Hf.
  assert (Hrow : length (nth i rs []) = c) by (apply Hf, nth_In, Hi).
  rewrite <- Hrow at 1. symmetry. apply tabulate_nth.
Qed.

(** Two well-formed tensors of the same shape with the same entries are
    equal. *)
Lemma mat_ext A B :
  wf A -> wf B -> nrows A = nrows B -> ncols A = ncols B ->
  (forall i j, i < nrows A -> j < ncols A -> mget A i j = mget B i j) -> A = B.
Proof.
  intros HA HB Hr Hc He.
  rewrite (wf_tab A HA), (wf_tab B HB), <- Hr, <- Hc.
  unfold tab. f_equal. apply tabulate_ext. intros i Hi.
  apply tabulate_ext. intros j Hj. now apply He.
Qed.

Lemma tab_ext r c f g :
  (forall i j, i < r -> j < c -> f i j = g i j) -> tab r c f = tab r c g.
Proof.
  intros Hfg. unfold tab. f_equal. apply tabulate_ext. intros i Hi.
  apply tabulate_ext. intros j Hj. now apply Hfg.
Qed.

Lemma bidx_lt n i : i < n -> bidx n i = i.
Proof. unfold bidx. destruct (Nat.eqb_spec n 1); lia. Qed.

Lemma bdim_same n : bdim n n = Some n.
Proof. unfold bdim. now rewrite Nat.eqb_refl. Qed.

Lemma bdim_1_l n : bdim 1 n = Some n.
Proof. unfold bdim. destruct (Nat.eqb_spec 1 n); subst; reflexivity. Qed.

Lemma bdim_1_r n : bdim n 1 = Some n.
Proof.
  unfold bdim. destruct (Nat.eqb_spec n 1); [subst; reflexivity |].
  destruct (Nat.eqb_spec n 1); [lia |]. reflexivity.
Qed.

(** [bdim] fails exactly when both sizes differ and neither is 1. *)
Lemma bdim_None a b : bdim a b = None <-> a <> b /\ a <> 1 /\ b <> 1.
Proof.
  unfold bdim.
  destruct (Nat.eqb_spec a b), (Nat.eqb_spec a 1), (Nat.eqb_spec b 1);
    split; intros; try discriminate; try lia; reflexivity.
Qed.

(** An output index of a broadcast dimension reads an index in range. *)
Lemma bdim_bidx_lt a b L l : bdim a b = Some L -> l < L -> bidx a l < a.
Proof.
  unfold bdim, bidx.
  destruct (Nat.eqb_spec a b), (Nat.eqb_spec a 1), (Nat.eqb_spec b 1);
    intros HL Hl; injection HL as <- || discriminate HL; lia.
Qed.

Lemma py_index_lt n i k : py_index n i = Some k -> k < n.
Proof.
  unfold py_index.
  destruct (Z.leb_spec 0 i), (Z.ltb_spec i (Z.of_nat n)),
    (Z.leb_spec (- Z.of_nat n) i), (Z.ltb_spec i 0); simpl;
    intros Hk; try discriminate Hk; injection Hk as <-; lia.
Qed.

Lemma resolve_index_length n xs cs : resolve_index n xs = Ok cs -> length cs = length xs.
Proof.
  revert cs; induction xs as [|i xs IH]; intros cs Hr; simpl in Hr.
  - now injection Hr as <-.
  - destruct (py_index n i); [| discriminate].
    destruct (resolve_index n xs) as [ks|e]; simpl in Hr; [| discriminate].
    injection Hr as <-. simpl. f_equal. now apply IH.
Qed.

(** Every index [resolve_index] returns is in range. *)
Lemma resolve_index_lt n xs cs :
  resolve_index n xs = Ok cs -> forall k, In k cs -> k < n.
Proof.
  revert cs; induction xs as [|i xs IH]; intros cs Hr k Hk; simpl in Hr.
  - injection Hr as <-. destruct Hk.
  - destruct (py_index n i) as [k'|] eqn:E; [| discriminate].
    destruct (resolve_index n xs) as [ks|e]; simpl in Hr; [| discriminate].
    injection Hr as <-. destruct Hk as [<- | Hk]; [exact (py_index_lt _ _ _ E) | exact (IH _ eq_refl k Hk)].
Qed.

(** Broadcasting between operands of one shape is entrywise. *)
Lemma bmap2_same (op : K -> K -> K) A B :
  nrows A = nrows B -> ncols A = ncols B ->
  bmap2 op A B = Ok (tab (nrows A) (ncols A) (fun i j => op (mget A i j) (mget B i j))).
Proof.
  intros Hr Hc. unfold bmap2. rewrite Hr, Hc, !bdim_same, <- Hr, <- Hc.
  f_equal. apply tab_ext. intros i j Hi Hj. now rewrite !bidx_lt.
Qed.

(** A tensor of shape [(r, c)] against a column [(r, 1)]. *)
Lemma bmap2_col (op : K -> K -> K) A v :
  nrows A = length v ->
  bmap2 op A (unsqueeze1 v) =
  Ok (tab (nrows A) (ncols A) (fun i j => op (mget A i j) (vget v i))).
Proof.
  intros Hr. unfold bmap2, unsqueeze1; simpl. rewrite Hr, bdim_same, bdim_1_r, <- Hr.
  f_equal. apply tab_ext. intros i j Hi Hj. rewrite !bidx_lt by lia.
  unfold bidx; simpl. f_equal. unfold mget, vget; simpl.
  rewrite (nth_indep (map (fun a => [a]) v) [] [szero]) by (rewrite length_map; lia).
  change [szero] with ((fun a : K => [a]) szero). now rewrite map_nth.
Qed.

(** A tensor of shape [(r, c)] against a row [(1, c)]. *)
Lemma bmap2_row (op : K -> K -> K) A v :
  ncols A = length v ->
  bmap2 op A (unsqueeze0 v) =
  Ok (tab (nrows A) (ncols A) (fun i j => op (mget A i j) (vget v j))).
Proof.
  intros Hc. unfold bmap2, unsqueeze0; simpl. rewrite Hc, bdim_same, bdim_1_r, <- Hc.
  f_equal. apply tab_ext. intros i j Hi Hj. rewrite !bidx_lt by lia.
  unfold bidx; simpl. f_equal.
Qed.

(** A tensor of shape [(r, c)] against any tensor of shape [(1, c)],
    on the right and on the left. *)
Lemma bmap2_bcast_r (op : K -> K -> K) A B :
  nrows B = 1 -> ncols B = ncols A ->
  bmap2 op A B = Ok (tab (nrows A) (ncols A) (fun i j => op (mget A i j) (mget B 0 j))).
Proof.
  intros Hr Hc. unfold bmap2. rewrite Hr, Hc, bdim_1_r, bdim_same. f_equal.
  apply tab_ext. intros i j Hi Hj. now rewrite (bidx_lt (nrows A) i Hi), !(bidx_lt (ncols A) j Hj).
Qed.

Lemma bmap2_bcast_l (op : K -> K -> K) A B :
  nrows A = 1 -> ncols A = ncols B ->
  bmap2 op A B = Ok (tab (nrows B) (ncols B) (fun i j => op (mget A 0 j) (mget B i j))).
Proof.
  intros Hr Hc. unfold bmap2. rewrite Hr, Hc, bdim_1_l, bdim_same. f_equal.
  apply tab_ext. intros i j Hi Hj. now rewrite (bidx_lt (nrows B) i Hi), !(bidx_lt (ncols B) j Hj).
Qed.

Lemma length_sum0 A : length (sum0 A) = ncols A.
Proof. apply length_tabulate. Qed.

Lemma vget_sum0 A j : j < ncols A -> vget (sum0 A) j = sumn (nrows A) (fun i => mget A i j).
Proof. intros Hj. unfold vget, sum0. now rewrite nth_tabulate. Qed.

Lemma vget_sum1 A i : i < nrows A -> vget (sum1 A) i = sumn (ncols A) (fun j => mget A i j).
Proof. intros Hi. unfold vget, sum1. now rewrite nth_tabulate. Qed.

Lemma vget_tabulate n (f : nat -> K) i : i < n -> vget (tabulate n f) i = f i.
Proof. intros Hi. unfold vget. now rewrite nth_tabulate. Qed.

Lemma mget_perturb A i j h a b :
  a < nrows A -> b < ncols A ->
  mget (perturb A i j h) a b =
  if (a =? i) && (b =? j) then mget A a b + h else mget A a b.
Proof. intros Ha Hb. unfold perturb. now rewrite mget_tab. Qed.

Lemma mmap_tab (f : K -> K) r c g : mmap f (tab r c g) = tab r c (fun i j => f (g i j)).
Proof.
  unfold mmap. rewrite nrows_tab, ncols_tab. apply tab_ext. intros i j Hi Hj.
  now rewrite mget_tab.
Qed.

Lemma vget_map (f : K -> K) v i : i < length v -> vget (map f v) i = f (vget v i).
Proof.
  intros Hi. unfold vget. rewrite (nth_indep _ szero (f szero)) by (now rewrite length_map).
  apply map_nth.
Qed.

Lemma bmap2_col_tab (op : K -> K -> K) r c f v :
  length v = r ->
  bmap2 op (tab r c f) (unsqueeze1 v) = Ok (tab r c (fun i j => op (f i j) (vget v i))).
Proof.
  intros Hr. rewrite bmap2_col by (now rewrite nrows_tab). rewrite nrows_tab, ncols_tab.
  f_equal. apply tab_ext. intros i j Hi Hj. now rewrite mget_tab.
Qed.

Lemma bmap2_row_tab (op : K -> K -> K) r c f v :
  length v = c ->
  bmap2 op (tab r c f) (unsqueeze0 v) = Ok (tab r c (fun i j => op (f i j) (vget v j))).
Proof.
  intros Hc. rewrite bmap2_row by (now rewrite ncols_tab). rewrite nrows_tab, ncols_tab.
  f_equal. apply tab_ext. intros i j Hi Hj. now rewrite mget_tab.
Qed.

Lemma bmap2_tab_tab (op : K -> K -> K) r c f g :
  bmap2 op (tab r c f) (tab r c g) = Ok (tab r c (fun i j => op (f i j) (g i j))).
Proof.
  rewrite bmap2_same by reflexivity. rewrite nrows_tab, ncols_tab. f_equal.
  apply tab_ext. intros i j Hi Hj. now rewrite !mget_tab.
Qed.

(** An operand of shape [(r, 1)] broadcasts along the columns. *)
Lemma bmap2_tab_col (op : K -> K -> K) r c f g :
  bmap2 op (tab r c f) (tab r 1 g) = Ok (tab r c (fun i j => op (f i j) (g i 0))).
Proof.
  unfold bmap2. rewrite !nrows_tab, !ncols_tab, bdim_same, bdim_1_r. f_equal.
  apply tab_ext. intros i j Hi Hj. rewrite (bidx_lt r i Hi), (bidx_lt c j Hj).
  rewrite !mget_tab by (unfold bidx; simpl; lia). reflexivity.
Qed.

Lemma mmap_unsqueeze1 (f : K -> K) v :
  mmap f (unsqueeze1 v) = tab (length v) 1 (fun i _ => f (vget v i)).
Proof.
  unfold mmap, unsqueeze1; simpl. apply tab_ext. intros i j Hi Hj.
  replace j with 0 by lia. unfold mget, vget; simpl.
  rewrite (nth_indep _ [] [szero]) by (now rewrite length_map).
  now rewrite (map_nth (fun a : K => [a]) v szero i).
Qed.

(** An operand [v.unsqueeze(0)] whose length does not broadcast against
    the width raises. *)
Lemma bmap2_row_err (op : K -> K -> K) A v :
  bdim (ncols A) (length v) = None -> bmap2 op A (unsqueeze0 v) = Err ShapeError.
Proof.
  intros Hb. unfold bmap2, unsqueeze0; cbn [nrows ncols length]. rewrite Hb.
  destruct (bdim (nrows A) 1); reflexivity.
Qed.

(** The inner product only reads the entries inside the shape. *)
Lemma dotm_tab_r A r c f :
  nrows A = r -> ncols A = c ->
  dotm A (tab r c f) = sumn r (fun i => sumn c (fun j => mget A i j * f i j)).
Proof.
  intros <- <-. unfold dotm. apply sumn_ext. intros i Hi.
  apply sumn_ext. intros j Hj. now rewrite mget_tab.
Qed.

Lemma dotm_tab_l r c f B :
  dotm (tab r c f) B = sumn r (fun i => sumn c (fun j => f i j * mget B i j)).
Proof.
  unfold dotm; simpl. apply sumn_ext. intros i Hi.
  apply sumn_ext. intros j Hj. now rewrite mget_tab.
Qed.
End TensorLemmas.

#[export] Hint Resolve tab_wf tab_shape : tensor.
#[export] Hint Rewrite @length_sum0 @nrows_tab @ncols_tab @mmap_tab : tensor_simpl.
#[export] Hint Rewrite @mget_tab @vget_tabulate using lia : tensor_simpl.

(** Closes [has_shape r c m] for a concrete tensor by evaluation. *)
Ltac solve_shape := apply has_shape_wfb; vm_compute; reflexivity.

(** Reads the entries of tabulated tensors inside their bounds. *)
Ltac tensor_simpl := autorewrite with tensor_simpl.

(** ** The shape discipline and Python index resolution *)

Section TensorShapes.
Context {K : Type} `{Scalar K}.
Implicit Types (A B C : mat K).

Lemma bmap2_Ok_shape (f : K -> K -> K) A B C :
  bmap2 f A B = Ok C ->
  bdim (nrows A) (nrows B) = Some (nrows C) /\ bdim (ncols A) (ncols B) = Some (ncols C) /\ wf C.
Proof.
  unfold bmap2. destruct (bdim (nrows A) (nrows B)), (bdim (ncols A) (ncols B));
    intros E; try discriminate E. injection E as <-. auto using tab_wf.
Qed.

Lemma bmap2_Err_shape (f : K -> K -> K) A B e :
  bmap2 f A B = Err e -> e = ShapeError /\ (bdim (nrows A) (nrows B) = None \/ bdim (ncols A) (ncols B) = None).
Proof.
  unfold bmap2. destruct (bdim (nrows A) (nrows B)), (bdim (ncols A) (ncols B));
    intros E; try discriminate E; injection E as <-; auto.
Qed.

End TensorShapes.
