(* ===== verification/Autograd.v ===== *)
(** * The interface of an autograd operator

    Each operator of [src/src/modules.py] subclasses [torch.autograd.Function]
    and provides two static methods: [forward(ctx, *inputs)], which returns
    the output and fills the context, and [backward(ctx, y_grad)], which
    returns one gradient per input.  The engine calls [forward] through
    [Fn.apply] and later calls [backward] on the same context with the
    gradient of the output (spec, section 6).

    [autograd_fn] is that interface as a record of operations: the types of
    the inputs, of the saved context, of the output, of the upstream
    gradient and of the gradients, with [fn_forward] and [fn_backward].
    Each operator file gives its instance ([AddFn.function], ...), and the
    harness calls every operator through [run]. *)

From Stdlib Require Import List.
From S2P Require Import Prelude.

Record autograd_fn := AutogradFn {
  fn_inputs : Type;
  fn_ctx : Type;
  fn_output : Type;
  fn_upstream : Type;
  fn_grads : Type;
  fn_forward : fn_inputs -> result (fn_output * fn_ctx);
  fn_backward : fn_ctx -> fn_upstream -> result fn_grads
}.

Local Open Scope result_scope.

(** [Fn.apply] on the inputs, followed by the engine's call of [backward]
    on the saved context with the upstream gradient [u]. *)
Definition run (F : autograd_fn) (x : fn_inputs F) (u : fn_upstream F)
  : result (fn_output F * fn_grads F) :=
  p <- fn_forward F x ;;
  g <- fn_backward F (snd p) u ;;
  Ok (fst p, g).

Section Run.

Lemma run_Ok F x u y c g :
  fn_forward F x = Ok (y, c) -> fn_backward F c u = Ok g -> run F x u = Ok (y, g).
Proof. intros Hf Hb. unfold run. rewrite Hf. cbn. now rewrite Hb. Qed.

(** A run fails exactly when [forward] or, after it, [backward] fails. *)
Lemma run_Err F x u e :
  run F x u = Err e <->
  fn_forward F x = Err e \/ exists y c, fn_forward F x = Ok (y, c) /\ fn_backward F c u = Err e.
Proof.
  unfold run. split.
  - destruct (fn_forward F x) as [[y c]|e']; cbn; [| intros H; injection H as ->; now left].
    destruct (fn_backward F c u) eqn:Hb; cbn; intros H; [discriminate H |]. injection H as <-. eauto.
  - intros [H | (y & c & H & Hb)]; rewrite H; cbn; [reflexivity | now rewrite Hb].
Qed.
End Run.
