(* ===== verification/AddOp.v ===== *)
(** * [AddFn] and the [Add] module ([src/src/modules.py], lines 129-145)

    [forward] asserts that both operands have one shape, then adds them;
    [backward] passes the upstream gradient to both inputs.  The operator is
    linear, so its gradient contract is the adjoint identity
    [<dy, a + b> = <dy, a> + <dy, b>]. *)

From Stdlib Require Import List Arith Lia ZArith Bool.
From S2P Require Import Prelude Tensor Autograd.
Import ListNotations.

Module AddFn.
Local Open Scope result_scope.

(** [assert a.shape == b.shape; return a + b] *)
Definition forward {K : Type} `{Scalar K} (a b : mat K) : result (mat K) :=
  check ((nrows a =? nrows b) && (ncols a =? ncols b)) AssertionError ;;
  bmap2 sadd a b.

(** [return y_grad, y_grad] *)
Definition backward {K : Type} (y_grad : mat K) : mat K * mat K := (y_grad, y_grad).

(** [class AddFn(ag.Function)]: nothing is saved in the context. *)
Definition function {K : Type} `{Scalar K} : autograd_fn :=
  AutogradFn (mat K * mat K) unit (mat K) (mat K) (mat K * mat K)
    (fun '(a, b) => y <- forward a b ;; Ok (y, tt))
    (fun _ y_grad => Ok (backward y_grad)).

Section AddFnProofs.
Context {K : Type} `{ScalarLaws K}.
Add Ring KRing : scalar_ring.
Local Open Scope scalar_scope.

Lemma add_forward_ok (a b : mat K) :
  nrows a = nrows b -> ncols a = ncols b ->
  forward a b = Ok (tab (nrows a) (ncols a) (fun i j => mget a i j + mget b i j)).
Proof.
  intros Hr Hc. unfold forward. rewrite Hr, Hc, !Nat.eqb_refl. simpl.
  rewrite <- Hr, <- Hc. now apply bmap2_same.
Qed.

(** [forward] adds two tensors of one shape entry by entry, and the
    result has that shape. *)
Theorem add_forward_spec (a b : mat K) r c :
  has_shape r c a -> has_shape r c b ->
  exists y, forward a b = Ok y /\ has_shape r c y /\
    forall i j, i < r -> j < c -> mget y i j = mget a i j + mget b i j.
Proof.
  intros (_ & Ha1 & Ha2) (_ & Hb1 & Hb2).
  rewrite add_forward_ok by congruence.
  eexists; split; [reflexivity |]. rewrite Ha1, Ha2. split; [apply tab_shape |].
  intros i j Hi Hj. now rewrite mget_tab.
Qed.

(** operands of different shapes make the [assert] fail, even when
    torch could broadcast them. *)
Theorem add_forward_shape_mismatch (a b : mat K) :
  (nrows a <> nrows b \/ ncols a <> ncols b) -> forward a b = Err AssertionError.
Proof.
  intros Hne. unfold forward, check.
  destruct (Nat.eqb_spec (nrows a) (nrows b)), (Nat.eqb_spec (ncols a) (ncols b));
    simpl; try reflexivity; lia.
Qed.

(** [forward] is commutative, errors included. *)
Theorem add_forward_comm (a b : mat K) : forward a b = forward b a.
Proof.
  unfold forward, check. rewrite (Nat.eqb_sym (nrows b)), (Nat.eqb_sym (ncols b)).
  destruct ((nrows a =? nrows b) && (ncols a =? ncols b)) eqn:E; [| reflexivity].
  apply andb_true_iff in E as [Hr Hc]. apply Nat.eqb_eq in Hr, Hc. simpl.
  rewrite !bmap2_same by congruence. rewrite Hr, Hc. f_equal.
  apply tab_ext. intros. ring.
Qed.

(** C8: the gradient contract: for an upstream gradient [dy] of the
    output's shape, the two gradients returned by [backward] are the
    adjoint of [forward]: [<dy, a + b> = <g_a, a> + <g_b, b>]. *)
Theorem add_backward_adjoint (a b y dy : mat K) :
  forward a b = Ok y -> nrows dy = nrows y -> ncols dy = ncols y ->
  dotm dy y = dotm (fst (backward dy)) a + dotm (snd (backward dy)) b.
Proof.
  intros Hf Hr Hc. unfold forward, check in Hf.
  destruct ((nrows a =? nrows b) && (ncols a =? ncols b)) eqn:E; [| discriminate].
  apply andb_true_iff in E as [E1 E2]. apply Nat.eqb_eq in E1, E2.
  simpl in Hf. rewrite bmap2_same in Hf by assumption. injection Hf as <-.
  simpl in Hr, Hc. simpl. rewrite dotm_tab_r by assumption.
  unfold dotm. rewrite Hr, Hc, <- sumn_add. apply sumn_ext. intros i Hi.
  rewrite <- sumn_add. apply sumn_ext. intros j Hj. ring.
Qed.
End AddFnProofs.
End AddFn.

(** The [Add] module has no parameter: [forward(a, b) = AddFn.apply(a, b)]. *)
Module AddModule.
Definition forward {K} `{Scalar K} (a b : mat K) : result (mat K) := AddFn.forward a b.
End AddModule.

(** ** Witnesses, evaluated at [Z] *)

Lemma AddFn_forward_spec_witness :
  has_shape 1 2 (Mat 1 2 [[1; 2]]%Z) /\ has_shape 1 2 (Mat 1 2 [[10; 20]]%Z) /\
  exists y, AddFn.forward (Mat 1 2 [[1; 2]]%Z) (Mat 1 2 [[10; 20]]%Z) = Ok y /\ has_shape 1 2 y /\
    forall i j, i < 1 -> j < 2 ->
      mget y i j = sadd (mget (Mat 1 2 [[1; 2]]%Z) i j) (mget (Mat 1 2 [[10; 20]]%Z) i j).
Proof.
  assert (Ha : has_shape 1 2 (Mat 1 2 [[1; 2]]%Z)) by (repeat split; repeat constructor).
  assert (Hb : has_shape 1 2 (Mat 1 2 [[10; 20]]%Z)) by (repeat split; repeat constructor).
  split; [exact Ha | split; [exact Hb |]].
  exact (AddFn.add_forward_spec _ _ 1 2 Ha Hb).
Defined.

Lemma AddFn_forward_shape_mismatch_witness :
  AddFn.forward (Mat 1 2 [[1; 2]]%Z) (Mat 2 1 [[1]; [2]]%Z) = Err AssertionError.
Proof. apply AddFn.add_forward_shape_mismatch. left. discriminate. Defined.

Lemma AddFn_backward_adjoint_witness :
  AddFn.forward (Mat 1 2 [[1; 2]]%Z) (Mat 1 2 [[3; 4]]%Z) = Ok (Mat 1 2 [[4; 6]]%Z) /\
  dotm (Mat 1 2 [[5; 7]]%Z) (Mat 1 2 [[4; 6]]%Z) =
  sadd (dotm (fst (AddFn.backward (Mat 1 2 [[5; 7]]%Z))) (Mat 1 2 [[1; 2]]%Z))
       (dotm (snd (AddFn.backward (Mat 1 2 [[5; 7]]%Z))) (Mat 1 2 [[3; 4]]%Z)).
Proof.
  assert (Hf : AddFn.forward (Mat 1 2 [[1; 2]]%Z) (Mat 1 2 [[3; 4]]%Z) = Ok (Mat 1 2 [[4; 6]]%Z))
    by (vm_compute; reflexivity).
  split; [exact Hf |].
  exact (AddFn.add_backward_adjoint _ _ _ (Mat 1 2 [[5; 7]]%Z) Hf eq_refl eq_refl).
Defined.

Lemma AddFn_forward_comm_witness :
  AddFn.forward (Mat 1 2 [[1; 2]]%Z) (Mat 1 2 [[5; 9]]%Z) =
  AddFn.forward (Mat 1 2 [[5; 9]]%Z) (Mat 1 2 [[1; 2]]%Z).
Proof. exact (AddFn.add_forward_comm _ _). Defined.
