(* ===== verification/LinearOp.v ===== *)
(** * [LinearFn] and the [Linear] module ([src/src/modules.py], lines 76-103)

    [forward] saves [(x, weight, bias)] and returns
    [x @ weight.T + bias.unsqueeze(0).expand_as(out)]; [backward] returns
    [(y_grad @ weight, y_grad.T @ x, y_grad.sum(0))].  The output is
    bilinear in [(x, weight)] and linear in [bias], so each returned gradient
    is characterised by an adjoint identity against the partial linear map
    of its input. *)

From Stdlib Require Import List Arith Lia ZArith Bool.
From S2P Require Import Prelude Tensor Autograd.
Import ListNotations.

Module LinearFn.
Local Open Scope result_scope.

(** [ctx.save_for_backward(x, weight, bias)] *)
Record ctx (K : Type) := Ctx { saved_x : mat K; saved_weight : mat K; saved_bias : list K }.
Arguments Ctx {K}.
Arguments saved_x {K}.
Arguments saved_weight {K}.
Arguments saved_bias {K}.

Definition forward {K : Type} `{Scalar K} (x weight : mat K) (bias : list K) : result (mat K * ctx K) :=
  out <- matmul x (transpose weight) ;;
  eb <- expand (unsqueeze0 bias) (nrows out) (ncols out) ;;
  y <- bmap2 sadd out eb ;;
  Ok (y, Ctx x weight bias).

Definition backward {K : Type} `{Scalar K} (c : ctx K) (y_grad : mat K) : result (mat K * mat K * list K) :=
  dx <- matmul y_grad (saved_weight c) ;;
  dw <- matmul (transpose y_grad) (saved_x c) ;;
  Ok (dx, dw, sum0 y_grad).

(** [class LinearFn(ag.Function)] *)
Definition function {K : Type} `{Scalar K} : autograd_fn :=
  AutogradFn (mat K * mat K * list K) (ctx K) (mat K) (mat K) (mat K * mat K * list K)
    (fun '(x, weight, bias) => forward x weight bias) backward.

Section LinearFnProofs.
Context {K : Type} `{ScalarLaws K}.
Add Ring KRing : scalar_ring.
Local Open Scope scalar_scope.
Implicit Types (x w dy : mat K) (b : list K).

(** [x @ w.T] as a sum over the shared input dimension. *)
Definition affine x w b : mat K :=
  tab (nrows x) (nrows w)
      (fun t o => sumn (ncols x) (fun k => mget x t k * mget w o k) + vget b o).

Lemma linear_matmul_transpose_ok x w :
  ncols x = ncols w ->
  matmul x (transpose w) =
  Ok (tab (nrows x) (nrows w) (fun t o => sumn (ncols x) (fun k => mget x t k * mget w o k))).
Proof.
  intros Hc. unfold matmul, transpose; simpl. rewrite Hc, Nat.eqb_refl.
  f_equal. apply tab_ext. intros t o Ht Ho. apply sumn_ext. intros k Hk.
  tensor_simpl. reflexivity.
Qed.

Lemma linear_forward_ok x w b :
  ncols x = ncols w -> length b = nrows w ->
  forward x w b = Ok (affine x w b, Ctx x w b).
Proof.
  intros Hc Hb. unfold forward. rewrite linear_matmul_transpose_ok by exact Hc. simpl.
  unfold expand, unsqueeze0; simpl. rewrite Hb, !Nat.eqb_refl, orb_true_r. simpl.
  rewrite bmap2_same by reflexivity. simpl. unfold affine. do 2 f_equal.
  apply tab_ext. intros t o Ht Ho. tensor_simpl. f_equal.
  unfold bidx; simpl. destruct (Nat.eqb_spec (nrows w) 1); [| reflexivity].
  unfold mget, vget; simpl. f_equal. lia.
Qed.

(** on a batch [x] of shape [(T, I)], a weight of shape [(O, I)] and a
    bias of length [O], [forward] returns the [(T, O)] tensor
    [y[t][o] = sum_k x[t][k] w[o][k] + b[o]] and saves its three inputs. *)
Theorem linear_forward_spec x w b T I O :
  has_shape T I x -> has_shape O I w -> length b = O ->
  exists y, forward x w b = Ok (y, Ctx x w b) /\ has_shape T O y /\
    forall t o, t < T -> o < O ->
      mget y t o = sumn I (fun k => mget x t k * mget w o k) + vget b o.
Proof.
  intros (_ & Hx1 & Hx2) (_ & Hw1 & Hw2) Hb.
  exists (affine x w b). rewrite linear_forward_ok by congruence.
  split; [reflexivity |]. unfold affine. rewrite Hx1, Hw1, Hx2.
  split; [apply tab_shape |]. intros t o Ht Ho. now rewrite mget_tab.
Qed.

(** [x @ weight.T] raises when the input width differs from the
    weight's; a bias that neither matches the output width nor has length
    1 is refused by [expand_as]. *)
Theorem linear_forward_errors x w b :
  (ncols x <> ncols w -> forward x w b = Err ShapeError) /\
  (ncols x = ncols w -> length b <> nrows w -> length b <> 1 ->
     forward x w b = Err ShapeError).
Proof.
  split; intros Hc.
  - unfold forward, matmul, transpose; simpl.
    destruct (Nat.eqb_spec (ncols x) (ncols w)); [contradiction | reflexivity].
  - intros Hb Hb1. unfold forward. rewrite linear_matmul_transpose_ok by exact Hc. simpl.
    unfold expand, unsqueeze0; simpl.
    destruct (Nat.eqb_spec (length b) (nrows w)); [contradiction |].
    destruct (Nat.eqb_spec (length b) 1); [contradiction |]. now rewrite orb_true_r.
Qed.

Lemma linear_backward_ok x w b dy T I O :
  has_shape T I x -> has_shape O I w -> has_shape T O dy ->
  backward (Ctx x w b) dy =
  Ok (tab T I (fun t k => sumn O (fun o => mget dy t o * mget w o k)),
      tab O I (fun o k => sumn T (fun t => mget dy t o * mget x t k)),
      tabulate O (fun o => sumn T (fun t => mget dy t o))).
Proof.
  intros (_ & Hx1 & Hx2) (_ & Hw1 & Hw2) (_ & Hd1 & Hd2).
  unfold backward, matmul, transpose; simpl.
  rewrite Hd2, Hw1, Nat.eqb_refl. simpl. rewrite Hd1, Hx1, Nat.eqb_refl. simpl.
  rewrite Hw2, Hx2. unfold sum0. rewrite Hd1, Hd2.
  f_equal. f_equal. f_equal. apply tab_ext. intros o k Ho Hk. apply sumn_ext. intros t Ht.
  rewrite mget_tab by lia. reflexivity.
Qed.

(** after [forward] on a batch [x] of shape [(T, I)], a weight of
    shape [(O, I)] and a bias of length [O], [backward] on an upstream
    gradient of shape [(T, O)] returns [y_grad @ weight], [y_grad.T @ x] and
    [y_grad.sum(0)], with the shapes of [x], [weight] and [bias]. *)
Theorem linear_backward_spec x w b dy T I O :
  has_shape T I x -> has_shape O I w -> length b = O -> has_shape T O dy ->
  exists y c dx dw db, forward x w b = Ok (y, c) /\ backward c dy = Ok (dx, dw, db) /\
    has_shape T I dx /\ has_shape O I dw /\ length db = O /\
    (forall t k, t < T -> k < I -> mget dx t k = sumn O (fun o => mget dy t o * mget w o k)) /\
    (forall o k, o < O -> k < I -> mget dw o k = sumn T (fun t => mget dy t o * mget x t k)) /\
    (forall o, o < O -> vget db o = sumn T (fun t => mget dy t o)).
Proof.
  intros Hx Hw Hb Hdy. exists (affine x w b), (Ctx x w b).
  eexists _, _, _. rewrite linear_forward_ok
    by (destruct Hx as (_ & _ & Hx2), Hw as (_ & Hw1 & Hw2); congruence).
  split; [reflexivity |]. rewrite (linear_backward_ok x w b dy T I O Hx Hw Hdy).
  split; [reflexivity |]. split; [apply tab_shape | split; [apply tab_shape |]].
  split; [apply length_tabulate |].
  split; [| split]; intros; tensor_simpl; reflexivity.
Qed.

(** C5: the gradient contract.  For an upstream gradient [dy] of the
    output's shape, each gradient returned by [backward] is the adjoint of
    the partial linear map of its input: for every direction [x'], [w'],
    [b'] of the input's shape,
    [<dy, x' @ w.T> = <dx, x'>], [<dy, x @ w'.T> = <dw, w'>] and
    [<dy, 1 b'> = <db, b'>]. *)
Theorem linear_backward_adjoint x w b dy dx dw db T I O :
  has_shape T I x -> has_shape O I w -> length b = O -> has_shape T O dy ->
  backward (Ctx x w b) dy = Ok (dx, dw, db) ->
  (forall x', has_shape T I x' ->
     dotm dy (tab T O (fun t o => sumn I (fun k => mget x' t k * mget w o k))) = dotm dx x') /\
  (forall w', has_shape O I w' ->
     dotm dy (tab T O (fun t o => sumn I (fun k => mget x t k * mget w' o k))) = dotm dw w') /\
  (forall b', length b' = O -> dotm dy (tab T O (fun _ o => vget b' o)) = dotv db b').
Proof.
  intros Hx Hw Hb Hdy Hbw. rewrite linear_backward_ok with (T := T) (I := I) (O := O) in Hbw
    by assumption.
  injection Hbw as <- <- <-. destruct Hdy as (_ & Hd1 & Hd2).
  split; [| split].
  - intros x' (_ & Hx1 & Hx2). rewrite dotm_tab_r, dotm_tab_l by assumption.
    apply sumn_ext. intros t Ht. rewrite sumn_mul_sumn. apply sumn_ext. intros k Hk.
    rewrite <- sumn_mul_r. apply sumn_ext. intros o Ho. ring.
  - intros w' (_ & Hw1 & Hw2). rewrite dotm_tab_r, dotm_tab_l by assumption.
    rewrite sumn_swap. apply sumn_ext. intros o Ho.
    rewrite sumn_mul_sumn. apply sumn_ext. intros k Hk.
    rewrite <- sumn_mul_r. apply sumn_ext. intros t Ht. ring.
  - intros b' Hb'. rewrite dotm_tab_r by assumption. unfold dotv.
    rewrite length_tabulate, sumn_swap. apply sumn_ext. intros o Ho.
    rewrite vget_tabulate by exact Ho. rewrite <- sumn_mul_r. reflexivity.
Qed.
End LinearFnProofs.
End LinearFn.

(** The [Linear] module owns [weight] of shape [(out_c, in_c)] and [bias] of
    length [out_c]; [forward(x) = LinearFn.apply(x, self.weight, self.bias)].
    Their random initialisation (Kaiming uniform) is not modelled. *)
Module LinearModule.
Record t {K : Type} := Make { weight : mat K; bias : list K }.
Arguments t K : clear implicits.

Definition forward {K} `{Scalar K} (m : t K) (x : mat K) : result (mat K) :=
  match LinearFn.forward x (weight m) (bias m) with
  | Ok (y, _) => Ok y
  | Err e => Err e
  end.
End LinearModule.

(** ** Witnesses, evaluated at [Z] *)

Definition lin_x : mat Z := Mat 2 2 [[1; 2]; [3; 4]]%Z.
Definition lin_w : mat Z := Mat 3 2 [[1; 0]; [0; 1]; [1; 1]]%Z.
Definition lin_b : list Z := [10; 20; 30]%Z.
Definition lin_dy : mat Z := Mat 2 3 [[1; -1; 2]; [0; 3; 1]]%Z.

Lemma LinearFn_forward_spec_witness :
  has_shape 2 2 lin_x /\ has_shape 3 2 lin_w /\ length lin_b = 3 /\
  exists y, LinearFn.forward lin_x lin_w lin_b = Ok (y, LinearFn.Ctx lin_x lin_w lin_b) /\
    has_shape 2 3 y /\
    forall t o, t < 2 -> o < 3 ->
      mget y t o = sadd (sumn 2 (fun k => smul (mget lin_x t k) (mget lin_w o k))) (vget lin_b o).
Proof.
  assert (Hx : has_shape 2 2 lin_x) by solve_shape.
  assert (Hw : has_shape 3 2 lin_w) by solve_shape.
  split; [exact Hx | split; [exact Hw | split; [reflexivity |]]].
  exact (LinearFn.linear_forward_spec lin_x lin_w lin_b 2 2 3 Hx Hw eq_refl).
Defined.

Lemma LinearFn_forward_errors_witness :
  LinearFn.forward lin_x (Mat 3 3 [[1; 0; 0]; [0; 1; 0]; [0; 0; 1]]%Z) lin_b = Err ShapeError /\
  LinearFn.forward lin_x lin_w [1; 2]%Z = Err ShapeError.
Proof.
  split.
  - apply (proj1 (LinearFn.linear_forward_errors lin_x _ lin_b)). discriminate.
  - apply (proj2 (LinearFn.linear_forward_errors lin_x lin_w [1; 2]%Z)); [reflexivity | discriminate | discriminate].
Defined.

Lemma LinearFn_backward_spec_witness :
  exists y c dx dw db, LinearFn.forward lin_x lin_w lin_b = Ok (y, c) /\
    LinearFn.backward c lin_dy = Ok (dx, dw, db) /\
    has_shape 2 2 dx /\ has_shape 3 2 dw /\ length db = 3 /\
    (forall t k, t < 2 -> k < 2 -> mget dx t k = sumn 3 (fun o => smul (mget lin_dy t o) (mget lin_w o k))) /\
    (forall o k, o < 3 -> k < 2 -> mget dw o k = sumn 2 (fun t => smul (mget lin_dy t o) (mget lin_x t k))) /\
    (forall o, o < 3 -> vget db o = sumn 2 (fun t => mget lin_dy t o)).
Proof.
  exact (LinearFn.linear_backward_spec lin_x lin_w lin_b lin_dy 2 2 3
           ltac:(solve_shape) ltac:(solve_shape) eq_refl ltac:(solve_shape)).
Defined.

Lemma LinearFn_backward_adjoint_witness :
  LinearFn.backward (LinearFn.Ctx lin_x lin_w lin_b) lin_dy =
    Ok (Mat 2 2 [[3; 1]; [1; 4]]%Z, Mat 3 2 [[1; 2]; [8; 10]; [5; 8]]%Z, [1; 2; 3]%Z) /\
  dotm lin_dy (tab 2 3 (fun t o => sumn 2 (fun k => smul (mget lin_x t k) (mget lin_w o k)))) =
    dotm (Mat 2 2 [[3; 1]; [1; 4]]%Z) lin_x.
Proof.
  assert (Hb : LinearFn.backward (LinearFn.Ctx lin_x lin_w lin_b) lin_dy =
    Ok (Mat 2 2 [[3; 1]; [1; 4]]%Z, Mat 3 2 [[1; 2]; [8; 10]; [5; 8]]%Z, [1; 2; 3]%Z))
    by (vm_compute; reflexivity).
  assert (Hx : has_shape 2 2 lin_x) by solve_shape.
  split; [exact Hb |].
  apply (proj1 (LinearFn.linear_backward_adjoint lin_x lin_w lin_b lin_dy _ _ _ 2 2 3
           Hx ltac:(solve_shape) eq_refl ltac:(solve_shape) Hb) lin_x Hx).
Defined.
