(* ===== verification/EmbeddingOp.v ===== *)
(** * [EmbeddingFn] and the [Embedding] module ([src/src/modules.py], lines 148-168)

    [forward] saves [(x, emb)] and returns [emb[x]]: row [x[t]] of the table
    for each position [t], where a negative index counts from the end as in
    Python.  [backward] returns [None] for the index input and
    [torch.index_add(torch.zeros_like(emb), 0, x, y_grad)] for the table:
    row [t] of the upstream gradient is added, in order, to row [x[t]] of a
    zero tensor.  [index_add] accepts only indices in [[0, N)].

    [index_add] is modelled as the loop it performs ([index_add_from]),
    and the theorems relate it to the closed form of the accumulation. *)

From Stdlib Require Import List Arith Lia ZArith Bool.
From S2P Require Import Prelude Tensor Autograd.
Import ListNotations.

Local Open Scope result_scope.

(** The index check of [index_add]: [0 <= i < N], else [IndexError]. *)
Fixpoint check_index (n : nat) (xs : list Z) : result (list nat) :=
  match xs with
  | [] => Ok []
  | i :: xs' =>
      if (0 <=? i)%Z && (i <? Z.of_nat n)%Z
      then ks <- check_index n xs' ;; Ok (Z.to_nat i :: ks)
      else Err IndexError
  end.

(** [emb[idx]] for resolved indices. *)
Definition gather_rows {K : Type} `{Scalar K} (emb : mat K) (idx : list nat) : mat K :=
  tab (length idx) (ncols emb) (fun t j => mget emb (nth t idx 0) j).

(** [A[r] += v] for a row given as a function of the column. *)
Definition row_add {K : Type} `{Scalar K} (A : mat K) (r : nat) (v : nat -> K) : mat K :=
  tab (nrows A) (ncols A) (fun i j => if i =? r then sadd (mget A i j) (v j) else mget A i j).

(** The loop of [index_add] along dimension 0: for [s = 0, 1, ...],
    [A[idx[s]] += src[t + s]]. *)
Fixpoint index_add_from {K : Type} `{Scalar K} (A : mat K) (t : nat) (idx : list nat) (src : mat K) : mat K :=
  match idx with
  | [] => A
  | i :: idx' => index_add_from (row_add A i (mget src t)) (S t) idx' src
  end.

(** [torch.index_add(A, 0, index, src)]: [src] has one row per index and the
    row width of [A]. *)
Definition index_add {K : Type} `{Scalar K} (A : mat K) (index : list Z) (src : mat K) : result (mat K) :=
  check ((length index =? nrows src) && (ncols src =? ncols A)) ShapeError ;;
  idx <- check_index (nrows A) index ;;
  Ok (index_add_from A 0 idx src).

Module EmbeddingFn.
Local Open Scope result_scope.

(** [ctx.save_for_backward(x, emb)] *)
Record ctx (K : Type) := Ctx { saved_x : list Z; saved_emb : mat K }.
Arguments Ctx {K}.
Arguments saved_x {K}.
Arguments saved_emb {K}.

Definition forward {K : Type} `{Scalar K} (x : list Z) (emb : mat K) : result (mat K * ctx K) :=
  idx <- resolve_index (nrows emb) x ;;
  Ok (gather_rows emb idx, Ctx x emb).

(** [return None, torch.index_add(torch.zeros_like(emb), 0, x, y_grad)] *)
Definition backward {K : Type} `{Scalar K} (c : ctx K) (y_grad : mat K) : result (option (list K) * mat K) :=
  demb <- index_add (zeros_like (saved_emb c)) (saved_x c) y_grad ;;
  Ok (None, demb).

(** [class EmbeddingFn(ag.Function)] *)
Definition function {K : Type} `{Scalar K} : autograd_fn :=
  AutogradFn (list Z * mat K) (ctx K) (mat K) (mat K) (option (list K) * mat K)
    (fun '(x, emb) => forward x emb) backward.
End EmbeddingFn.

(** The [Embedding] module owns the table [emb] of shape [(n_emb, d_emb)]
    (initialised from a normal distribution, not modelled);
    [forward(x) = EmbeddingFn.apply(x, self.emb)]. *)
Module EmbeddingModule.
Record t {K : Type} := Make { emb : mat K }.
Arguments t K : clear implicits.

Definition forward {K} `{Scalar K} (m : t K) (x : list Z) : result (mat K) :=
  match EmbeddingFn.forward x (emb m) with
  | Ok (y, _) => Ok y
  | Err e => Err e
  end.
End EmbeddingModule.

(** ** Lemmas on index resolution and the [index_add] loop *)

Section IndexLemmas.
Context {K : Type} `{ScalarLaws K}.
Add Ring KRing : scalar_ring.
Local Open Scope scalar_scope.
Implicit Types (A src emb dy : mat K).

Lemma check_index_ok n xs :
  (forall i, In i xs -> (0 <= i < Z.of_nat n)%Z) ->
  check_index n xs = Ok (map Z.to_nat xs).
Proof.
  induction xs as [|i xs IH]; intros Hin; simpl; [reflexivity |].
  destruct (Hin i (or_introl eq_refl)) as [H1 H2].
  apply Z.leb_le in H1. apply Z.ltb_lt in H2. rewrite H1, H2. simpl.
  rewrite IH by (intros; apply Hin; right; assumption). reflexivity.
Qed.

Lemma check_index_err n xs :
  (exists i, In i xs /\ ~ (0 <= i < Z.of_nat n)%Z) -> check_index n xs = Err IndexError.
Proof.
  induction xs as [|i xs IH]; intros (i0 & Hin & Hout); [destruct Hin |].
  simpl. destruct ((0 <=? i)%Z && (i <? Z.of_nat n)%Z) eqn:E; [| reflexivity].
  apply andb_true_iff in E as [E1 E2]. apply Z.leb_le in E1. apply Z.ltb_lt in E2.
  destruct Hin as [<- | Hin]; [lia |]. rewrite IH by eauto. reflexivity.
Qed.

Lemma mget_gather_rows emb idx t j :
  t < length idx -> j < ncols emb -> mget (gather_rows emb idx) t j = mget emb (nth t idx 0) j.
Proof. intros. unfold gather_rows. now rewrite mget_tab. Qed.

(** The [index_add] loop in closed form: entry [(k, j)] of the result is
    entry [(k, j)] of [A] plus the entries [(t + s, j)] of [src] at the
    steps [s] with [idx[s] = k]. *)
Lemma index_add_from_spec A t idx src :
  nrows (index_add_from A t idx src) = nrows A /\
  ncols (index_add_from A t idx src) = ncols A /\
  forall k j, k < nrows A -> j < ncols A ->
    mget (index_add_from A t idx src) k j =
    mget A k j + sumn (length idx) (fun s => if nth s idx 0 =? k then mget src (t + s) j else szero).
Proof.
  revert A t; induction idx as [|i idx IH]; intros A t; cbn [index_add_from length].
  - split; [reflexivity | split; [reflexivity |]]. intros. simpl. ring.
  - destruct (IH (row_add A i (mget src t)) (S t)) as (Hr & Hc & He).
    unfold row_add in Hr, Hc, He |- *; simpl in Hr, Hc, He.
    split; [exact Hr | split; [exact Hc |]]. intros k j Hk Hj.
    rewrite He by assumption. rewrite mget_tab by assumption.
    rewrite sumn_succ_l. cbn [nth]. rewrite Nat.add_0_r.
    rewrite (sumn_ext (length idx) (fun s => if nth s idx 0 =? k then mget src (S t + s) j else szero)
               (fun s => if nth s idx 0 =? k then mget src (t + S s) j else szero))
      by (intros s _; now rewrite Nat.add_succ_r).
    rewrite (Nat.eqb_sym i k). destruct (k =? i); ring.
Qed.

Lemma check_index_inv n xs idx :
  check_index n xs = Ok idx ->
  idx = map Z.to_nat xs /\ forall i, In i xs -> (0 <= i < Z.of_nat n)%Z.
Proof.
  revert idx; induction xs as [|i xs IH]; intros idx Hc; simpl in Hc.
  - inv_result. split; [reflexivity | intros i []].
  - destruct ((0 <=? i)%Z && (i <? Z.of_nat n)%Z) eqn:E; [| discriminate].
    apply andb_true_iff in E as [E1 E2]. apply Z.leb_le in E1. apply Z.ltb_lt in E2.
    destruct (check_index n xs) as [ks|e] eqn:Hks; simpl in Hc; [| discriminate].
    inv_result. destruct (IH ks eq_refl) as [-> Hin]. split; [reflexivity |].
    intros i' [<- | Hi']; [lia | auto].
Qed.

Lemma index_add_from_wf A t idx src : wf A -> wf (index_add_from A t idx src).
Proof.
  revert A t; induction idx as [|i idx IH]; intros A t HA; simpl; [exact HA |].
  apply IH. apply tab_wf.
Qed.

(** [index_add] into a zero tensor, in closed form: row [k] of the result
    is the sum of the rows [t] of [dy] with [x[t] = k]. *)
Lemma index_add_zeros_spec A x dy demb :
  index_add (zeros_like A) x dy = Ok demb ->
  has_shape (nrows A) (ncols A) demb /\
  (forall i, In i x -> (0 <= i < Z.of_nat (nrows A))%Z) /\
  forall k j, k < nrows A -> j < ncols A ->
    mget demb k j =
    sumn (length x) (fun t => if (nth t x 0 =? Z.of_nat k)%Z then mget dy t j else szero).
Proof.
  unfold index_add, check; simpl.
  destruct ((length x =? nrows dy) && (ncols dy =? ncols A)); [| discriminate]. simpl.
  destruct (check_index (nrows A) x) as [idx|e] eqn:Hc; simpl; [| discriminate].
  intros Hd. inv_result. apply check_index_inv in Hc as [-> Hin].
  destruct (index_add_from_spec (zeros_like A) 0 (map Z.to_nat x) dy) as (Hr & Hcl & He).
  unfold zeros_like in Hr, Hcl, He; simpl in Hr, Hcl, He.
  split; [split; [apply index_add_from_wf, tab_wf | split; assumption] |].
  split; [exact Hin |]. intros k j Hk Hj. rewrite He by assumption.
  rewrite mget_tab by assumption. rewrite length_map.
  transitivity (sumn (length x) (fun s => if nth s (map Z.to_nat x) 0 =? k then mget dy s j else szero));
    [ring |].
  apply sumn_ext. intros s Hs.
  assert (Hx : (0 <= nth s x 0 < Z.of_nat (nrows A))%Z) by (apply Hin, nth_In, Hs).
  change 0 with (Z.to_nat 0%Z) at 1. rewrite map_nth.
  destruct (Nat.eqb_spec (Z.to_nat (nth s x 0%Z)) k), (Z.eqb_spec (nth s x 0%Z) (Z.of_nat k));
    solve [reflexivity | lia].
Qed.
End IndexLemmas.

(** ** Properties of [EmbeddingFn] *)

Section EmbeddingProofs.
Context {K : Type} `{ScalarLaws K}.
Add Ring KRing' : scalar_ring.
Local Open Scope scalar_scope.
Implicit Types (emb dy : mat K) (x : list Z).

(** with every index in [[-N, N)], [forward] returns the [(T, D)]
    tensor whose row [t] is row [x[t]] of the table, a negative index
    counting from the end, and saves [(x, emb)]. *)
Theorem embedding_forward_spec x emb :
  (forall i, In i x -> (- Z.of_nat (nrows emb) <= i < Z.of_nat (nrows emb))%Z) ->
  exists y, EmbeddingFn.forward x emb = Ok (y, EmbeddingFn.Ctx x emb) /\
    has_shape (length x) (ncols emb) y /\
    forall t j, t < length x -> j < ncols emb ->
      mget y t j = mget emb (py_wrap (nrows emb) (nth t x 0%Z)) j.
Proof.
  intros Hin. unfold EmbeddingFn.forward. rewrite resolve_index_ok by exact Hin. simpl.
  eexists; split; [reflexivity |]. unfold gather_rows. rewrite length_map.
  split; [auto with tensor |]. intros t j Ht Hj. tensor_simpl.
  change 0 with (py_wrap (nrows emb) 0%Z) at 1. now rewrite map_nth.
Qed.

(** an index outside [[-N, N)] makes [emb[x]] raise [IndexError]. *)
Theorem embedding_forward_out_of_range x emb :
  (exists i, In i x /\ ~ (- Z.of_nat (nrows emb) <= i < Z.of_nat (nrows emb))%Z) ->
  EmbeddingFn.forward x emb = Err IndexError.
Proof. intros Hout. unfold EmbeddingFn.forward. now rewrite resolve_index_err. Qed.

(** C6: the accumulation property: when [backward] succeeds it returns
    [None] for the indices and, for the table, a tensor of the table's shape
    whose row [k] is the sum of the upstream gradient rows at every position
    [t] with [x[t] = k] (repeated indices accumulate). *)
Theorem embedding_backward_accumulates x emb dy g demb :
  EmbeddingFn.backward (EmbeddingFn.Ctx x emb) dy = Ok (g, demb) ->
  g = None /\ has_shape (nrows emb) (ncols emb) demb /\
  forall k j, k < nrows emb -> j < ncols emb ->
    mget demb k j =
    sumn (length x) (fun t => if (nth t x 0 =? Z.of_nat k)%Z then mget dy t j else szero).
Proof.
  unfold EmbeddingFn.backward; simpl.
  destruct (index_add (zeros_like emb) x dy) as [d|e] eqn:Hd; simpl; [| discriminate].
  intros Hb. inv_result. apply index_add_zeros_spec in Hd as (Hs & _ & He).
  simpl in Hs, He. split; [reflexivity | split; assumption].
Qed.

(** C34: [backward] succeeds exactly on an upstream gradient with one row
    per index and the table's width, and indices in [[0, N)]; a shape
    mismatch raises a shape error and an index outside [[0, N)] raises
    [IndexError]. *)
Theorem embedding_backward_errors x emb dy :
  ((length x <> nrows dy \/ ncols dy <> ncols emb) ->
     EmbeddingFn.backward (EmbeddingFn.Ctx x emb) dy = Err ShapeError) /\
  (length x = nrows dy -> ncols dy = ncols emb ->
     (exists i, In i x /\ ~ (0 <= i < Z.of_nat (nrows emb))%Z) ->
     EmbeddingFn.backward (EmbeddingFn.Ctx x emb) dy = Err IndexError) /\
  (length x = nrows dy -> ncols dy = ncols emb ->
     (forall i, In i x -> (0 <= i < Z.of_nat (nrows emb))%Z) ->
     exists demb, EmbeddingFn.backward (EmbeddingFn.Ctx x emb) dy = Ok (None, demb)).
Proof.
  unfold EmbeddingFn.backward, index_add, check; simpl. split; [| split].
  - intros Hne. destruct (Nat.eqb_spec (length x) (nrows dy)), (Nat.eqb_spec (ncols dy) (ncols emb));
      simpl; try reflexivity; lia.
  - intros Hl Hc Hout. rewrite Hl, Hc, !Nat.eqb_refl. simpl.
    now rewrite check_index_err.
  - intros Hl Hc Hin. rewrite Hl, Hc, !Nat.eqb_refl. simpl.
    rewrite check_index_ok by exact Hin. simpl. eexists. reflexivity.
Qed.

(** C14: a negative index that [forward] accepts (Python counts it from the
    end of the table) makes [backward] raise [IndexError]: [index_add]
    rejects what [emb[x]] wrapped around. *)
Theorem embedding_negative_index_breaks_backward x emb dy :
  (forall i, In i x -> (- Z.of_nat (nrows emb) <= i < Z.of_nat (nrows emb))%Z) ->
  (exists i, In i x /\ (i < 0)%Z) ->
  length x = nrows dy -> ncols dy = ncols emb ->
  (exists y, EmbeddingFn.forward x emb = Ok (y, EmbeddingFn.Ctx x emb)) /\
  EmbeddingFn.backward (EmbeddingFn.Ctx x emb) dy = Err IndexError.
Proof.
  intros Hin (i & Hi & Hneg) Hl Hc. split.
  - unfold EmbeddingFn.forward. rewrite resolve_index_ok by exact Hin. eexists; reflexivity.
  - unfold EmbeddingFn.backward, index_add, check; simpl. rewrite Hl, Hc, !Nat.eqb_refl. simpl.
    rewrite check_index_err by (exists i; split; [exact Hi | lia]). reflexivity.
Qed.

(** C7: the gradient contract: [forward] is linear in the table, and the
    table gradient returned by [backward] is its adjoint: for every table
    [E'] of the table's shape, [<dy, E'[x]> = <demb, E'>]. *)
Theorem embedding_backward_adjoint x emb dy demb E' y' c' :
  has_shape (length x) (ncols emb) dy ->
  EmbeddingFn.backward (EmbeddingFn.Ctx x emb) dy = Ok (None, demb) ->
  has_shape (nrows emb) (ncols emb) E' ->
  EmbeddingFn.forward x E' = Ok (y', c') ->
  dotm dy y' = dotm demb E'.
Proof.
  intros (_ & Hd1 & Hd2) Hb (_ & He1 & He2) Hf.
  unfold EmbeddingFn.backward in Hb; simpl in Hb.
  destruct (index_add (zeros_like emb) x dy) as [d|e] eqn:Hd; simpl in Hb; [| discriminate].
  inv_result. apply index_add_zeros_spec in Hd as ((_ & Hm1 & Hm2) & Hin & Hm). simpl in Hm1, Hm2, Hm.
  unfold EmbeddingFn.forward in Hf. rewrite resolve_index_ok in Hf
    by (intros i Hi; specialize (Hin i Hi); lia).
  simpl in Hf. inv_result. unfold dotm. rewrite Hd1, Hd2, Hm1, Hm2.
  set (c t k j := (if (nth t x 0 =? Z.of_nat k)%Z then mget dy t j else szero) * mget E' k j).
  rewrite (sumn_ext (nrows emb) _ (fun k => sumn (length x) (fun t => sumn (ncols emb) (c t k))))
    by (intros k Hk; rewrite <- sumn_swap; apply sumn_ext; intros j Hj;
        rewrite Hm, <- sumn_mul_r by assumption; reflexivity).
  rewrite (sumn_swap (nrows emb) (length x)). apply sumn_ext. intros t Ht. symmetry. unfold c.
  assert (Hxt : (0 <= nth t x 0 < Z.of_nat (nrows emb))%Z) by (apply Hin, nth_In, Ht).
  rewrite (sumn_single (nrows emb) (Z.to_nat (nth t x 0%Z))) by
    (lia || (intros k Hk Hne; erewrite sumn_ext; [apply sumn_zero |];
     intros j Hj; destruct (Z.eqb_spec (nth t x 0%Z) (Z.of_nat k)); [lia | ring])).
  apply sumn_ext. intros j Hj.
  rewrite mget_gather_rows by (rewrite ?length_map; lia).
  change 0 with (py_wrap (nrows E') 0%Z) at 1. rewrite map_nth, py_wrap_nonneg by lia.
  rewrite Z2Nat.id by lia. now rewrite Z.eqb_refl.
Qed.
End EmbeddingProofs.

(** ** Witnesses, evaluated at [Z] *)

Definition emb_table : mat Z := Mat 3 2 [[1; 2]; [3; 4]; [5; 6]]%Z.
Definition emb_x : list Z := [0; 2; 0]%Z.
Definition emb_dy : mat Z := Mat 3 2 [[1; 1]; [2; 2]; [3; 3]]%Z.

Lemma embedding_forward_spec_witness :
  (forall i, In i [0; -1]%Z -> (- Z.of_nat (nrows emb_table) <= i < Z.of_nat (nrows emb_table))%Z) /\
  exists y, EmbeddingFn.forward [0; -1]%Z emb_table = Ok (y, EmbeddingFn.Ctx [0; -1]%Z emb_table) /\
    has_shape 2 (ncols emb_table) y /\
    forall t j, t < 2 -> j < ncols emb_table ->
      mget y t j = mget emb_table (py_wrap (nrows emb_table) (nth t [0; -1]%Z 0%Z)) j.
Proof.
  assert (Hin : forall i, In i [0; -1]%Z ->
            (- Z.of_nat (nrows emb_table) <= i < Z.of_nat (nrows emb_table))%Z)
    by (simpl; intros i [<- | [<- | []]]; lia).
  split; [exact Hin | exact (embedding_forward_spec [0; -1]%Z emb_table Hin)].
Defined.

Lemma embedding_forward_out_of_range_witness :
  EmbeddingFn.forward [0; 3]%Z emb_table = Err IndexError.
Proof.
  apply embedding_forward_out_of_range. exists 3%Z. split; [simpl; auto | simpl; lia].
Defined.

Lemma embedding_backward_accumulates_witness :
  EmbeddingFn.backward (EmbeddingFn.Ctx emb_x emb_table) emb_dy =
    Ok (None, Mat 3 2 [[4; 4]; [0; 0]; [2; 2]]%Z) /\
  mget (Mat 3 2 [[4; 4]; [0; 0]; [2; 2]]%Z) 0 1 =
    sumn 3 (fun t => if (nth t emb_x 0 =? Z.of_nat 0)%Z then mget emb_dy t 1 else szero).
Proof.
  assert (Hb : EmbeddingFn.backward (EmbeddingFn.Ctx emb_x emb_table) emb_dy =
                 Ok (None, Mat 3 2 [[4; 4]; [0; 0]; [2; 2]]%Z)) by (vm_compute; reflexivity).
  split; [exact Hb |].
  destruct (embedding_backward_accumulates _ _ _ _ _ Hb) as (_ & _ & He).
  apply He; vm_compute; lia.
Defined.

Lemma embedding_backward_errors_witness :
  EmbeddingFn.backward (EmbeddingFn.Ctx emb_x emb_table) (Mat 2 2 [[1; 1]; [2; 2]]%Z) = Err ShapeError /\
  EmbeddingFn.backward (EmbeddingFn.Ctx [0; 3; 1]%Z emb_table) emb_dy = Err IndexError /\
  exists demb, EmbeddingFn.backward (EmbeddingFn.Ctx emb_x emb_table) emb_dy = Ok (None, demb).
Proof.
  split; [| split].
  - apply (proj1 (embedding_backward_errors emb_x emb_table _)). left. discriminate.
  - apply (proj1 (proj2 (embedding_backward_errors [0; 3; 1]%Z emb_table emb_dy)));
      [reflexivity | reflexivity |]. exists 3%Z. split; [simpl; auto | simpl; lia].
  - apply (proj2 (proj2 (embedding_backward_errors emb_x emb_table emb_dy)));
      [reflexivity | reflexivity |]. simpl. intros i [<- | [<- | [<- | []]]]; lia.
Defined.

Lemma embedding_negative_index_breaks_backward_witness :
  (exists y, EmbeddingFn.forward [-1; 0; 1]%Z emb_table = Ok (y, EmbeddingFn.Ctx [-1; 0; 1]%Z emb_table)) /\
  EmbeddingFn.backward (EmbeddingFn.Ctx [-1; 0; 1]%Z emb_table) emb_dy = Err IndexError.
Proof.
  apply embedding_negative_index_breaks_backward; [| | reflexivity | reflexivity].
  - simpl. intros i [<- | [<- | [<- | []]]]; lia.
  - exists (-1)%Z. split; [simpl; auto | lia].
Defined.

Lemma embedding_backward_adjoint_witness :
  EmbeddingFn.backward (EmbeddingFn.Ctx emb_x emb_table) emb_dy =
    Ok (None, Mat 3 2 [[4; 4]; [0; 0]; [2; 2]]%Z) /\
  EmbeddingFn.forward emb_x (Mat 3 2 [[7; 0]; [1; 1]; [0; 2]]%Z) =
    Ok (Mat 3 2 [[7; 0]; [0; 2]; [7; 0]]%Z, EmbeddingFn.Ctx emb_x (Mat 3 2 [[7; 0]; [1; 1]; [0; 2]]%Z)) /\
  dotm emb_dy (Mat 3 2 [[7; 0]; [0; 2]; [7; 0]]%Z) =
    dotm (Mat 3 2 [[4; 4]; [0; 0]; [2; 2]]%Z) (Mat 3 2 [[7; 0]; [1; 1]; [0; 2]]%Z).
Proof.
  assert (Hb : EmbeddingFn.backward (EmbeddingFn.Ctx emb_x emb_table) emb_dy =
                 Ok (None, Mat 3 2 [[4; 4]; [0; 0]; [2; 2]]%Z)) by (vm_compute; reflexivity).
  assert (Hf : EmbeddingFn.forward emb_x (Mat 3 2 [[7; 0]; [1; 1]; [0; 2]]%Z) =
    Ok (Mat 3 2 [[7; 0]; [0; 2]; [7; 0]]%Z, EmbeddingFn.Ctx emb_x (Mat 3 2 [[7; 0]; [1; 1]; [0; 2]]%Z)))
    by (vm_compute; reflexivity).
  split; [exact Hb | split; [exact Hf |]].
  exact (embedding_backward_adjoint emb_x emb_table emb_dy _
           (Mat 3 2 [[7; 0]; [1; 1]; [0; 2]]%Z) _ _ ltac:(solve_shape) Hb ltac:(solve_shape) Hf).
Defined.
