(* ===== verification/Attention.v ===== *)
(** * The multi-head attention stub ([MHAttentionFn], lines 171-183)

    [src/src/modules.py] ends its operators with an unfinished
    [MHAttentionFn] (marked [# TODO]; the spec excludes it and says nothing
    of what it should compute).  Its [forward] runs as written: it unpacks
    four weight tensors, reshapes the input [(T, C)] into [(H, T, Ca)],
    multiplies it by [w_q], [w_k] and [w_v] with batched [@], computes the
    scores [k @ q.transpose(1, 2)], and returns [None]: nothing is saved
    and no output is produced.  The class defines no [backward], so autograd
    raises [NotImplementedError] when one is needed.

    This file models that [forward] over any commutative ring, with 3-D
    tensors as a batch of matrices ([t3]): [reshape3] is [Tensor.reshape] of
    a 2-D tensor in row-major order, [bmm] is [@] on 3-D tensors (the batch
    dimension broadcasts, the inner sizes must agree) and [transpose12] is
    [.transpose(1, 2)].  The weights are 3-D tensors, as [H, C, Ca =
    w_q.shape] requires; an input of another rank is not represented.

    The theorems: the stub raises a shape error for every multi-head
    configuration (the reshape needs [C = H * Ca] while [x @ w_q] needs
    [Ca = C]); with one head it runs, returns [None], and a backward pass
    through it raises [NotImplementedError]; and a weight list of another
    length than four raises [ValueError]. *)

From Stdlib Require Import List Arith Lia ZArith Bool.
From S2P Require Import Prelude Tensor Autograd.
Import ListNotations.

(** ** 3-D tensors *)

Local Open Scope result_scope.

(** A tensor of shape [(b, r, c)] as [b] matrices of shape [(r, c)]. *)
Record t3 (K : Type) := T3 { bdim0 : nat; bdim1 : nat; bdim2 : nat; slices : list (mat K) }.
Arguments T3 {K}.
Arguments bdim0 {K}.
Arguments bdim1 {K}.
Arguments bdim2 {K}.
Arguments slices {K}.

Definition get3 {K : Type} `{Scalar K} (A : t3 K) (h i j : nat) : K := mget (nth h (slices A) (Mat 0 0 [])) i j.

Definition tab3 {K : Type} (b r c : nat) (f : nat -> nat -> nat -> K) : t3 K :=
  T3 b r c (tabulate b (fun h => tab r c (f h))).

(** [x.reshape((b, r, c))] of a 2-D tensor: the entries in row-major
    order; a shape of another size raises. *)
Definition reshape3 {K : Type} `{Scalar K} (x : mat K) (b r c : nat) : result (t3 K) :=
  check (nrows x * ncols x =? b * r * c) ShapeError ;;
  Ok (tab3 b r c (fun h i j =>
        let n := h * (r * c) + i * c + j in mget x (n / ncols x) (n mod ncols x))).

(** [A @ B] on 3-D tensors: batched matrix product, the batch dimension
    broadcast, the inner sizes equal. *)
Definition bmm {K : Type} `{Scalar K} (A B : t3 K) : result (t3 K) :=
  match bdim (bdim0 A) (bdim0 B) with
  | Some n =>
      check (bdim2 A =? bdim1 B) ShapeError ;;
      Ok (tab3 n (bdim1 A) (bdim2 B) (fun h i j =>
            sumn (bdim2 A) (fun k => smul (get3 A (bidx (bdim0 A) h) i k) (get3 B (bidx (bdim0 B) h) k j))))
  | None => Err ShapeError
  end.

(** [A.transpose(1, 2)] *)
Definition transpose12 {K : Type} `{Scalar K} (A : t3 K) : t3 K :=
  tab3 (bdim0 A) (bdim2 A) (bdim1 A) (fun h i j => get3 A h j i).

(** ** The stub *)

Module MHAttentionFn.
Local Open Scope result_scope.

(** [forward(ctx, x, w_qkvo)]: [Ok tt] is the [None] it returns. *)
Definition forward {K : Type} `{Scalar K} (x : mat K) (w_qkvo : list (t3 K)) : result unit :=
  match w_qkvo with
  | [w_q; w_k; w_v; w_o] =>
      let H := bdim0 w_q in
      let Ca := bdim2 w_q in
      let T := nrows x in
      x3 <- reshape3 x H T Ca ;;
      q <- bmm x3 w_q ;;
      k <- bmm x3 w_k ;;
      v <- bmm x3 w_v ;;
      s <- bmm k (transpose12 q) ;;
      Ok tt
  | _ => Err ValueError
  end.

(** The class defines no [backward]: autograd's default raises. *)
Definition backward (c : unit) (y_grad : unit) : result unit := Err NotImplementedError.

(** [class MHAttentionFn(ag.Function)]: nothing is saved, nothing is returned. *)
Definition function {K : Type} `{Scalar K} : autograd_fn :=
  AutogradFn (mat K * list (t3 K)) unit unit unit unit
    (fun '(x, w_qkvo) => r <- forward x w_qkvo ;; Ok (r, tt)) backward.
End MHAttentionFn.

(** ** Shapes of the 3-D operations *)

Section Tensor3Lemmas.
Context {K : Type} `{Scalar K}.
Implicit Types (A B : t3 K) (x : mat K).

Lemma reshape3_ok x b r c :
  nrows x * ncols x = b * r * c ->
  exists y, reshape3 x b r c = Ok y /\ bdim0 y = b /\ bdim1 y = r /\ bdim2 y = c.
Proof.
  intros E. unfold reshape3. rewrite E, Nat.eqb_refl. cbn [check rbind].
  eexists; split; [reflexivity | repeat split].
Qed.

Lemma reshape3_err x b r c : nrows x * ncols x <> b * r * c -> reshape3 x b r c = Err ShapeError.
Proof. intros E. unfold reshape3. apply Nat.eqb_neq in E. now rewrite E. Qed.

Lemma bmm_ok A B n :
  bdim (bdim0 A) (bdim0 B) = Some n -> bdim2 A = bdim1 B ->
  exists C, bmm A B = Ok C /\ bdim0 C = n /\ bdim1 C = bdim1 A /\ bdim2 C = bdim2 B.
Proof.
  intros Hb Hi. unfold bmm. rewrite Hb, Hi, Nat.eqb_refl. cbn [check rbind].
  eexists; split; [reflexivity | repeat split].
Qed.

Lemma bmm_err_inner A B n :
  bdim (bdim0 A) (bdim0 B) = Some n -> bdim2 A <> bdim1 B -> bmm A B = Err ShapeError.
Proof. intros Hb Hi. unfold bmm. rewrite Hb. apply Nat.eqb_neq in Hi. now rewrite Hi. Qed.
End Tensor3Lemmas.

(** ** Properties of the stub *)

Section MHAttentionProofs.
Context {K : Type} {SK : Scalar K}.

(** C35: the stub's error behaviour.  A weight list of any length but four
    fails to unpack ([ValueError]).  With the shapes of multi-head
    attention (an input [(T, H * Ca)] and four weights [(H, H * Ca, Ca)]),
    [forward] returns [None] exactly when there is one head or the head
    width is [0], and raises a shape error otherwise: the reshape to
    [(H, T, Ca)] leaves rows of width [Ca], which [@ w_q] needs to be
    [H * Ca]. *)
Theorem mha_forward_errors (x : mat K) (ws : list (t3 K)) T H Ca :
  (length ws <> 4 -> MHAttentionFn.forward x ws = Err ValueError) /\
  (has_shape T (H * Ca) x -> length ws = 4 ->
   Forall (fun w => bdim0 w = H /\ bdim1 w = H * Ca /\ bdim2 w = Ca) ws ->
   (MHAttentionFn.forward x ws = Ok tt <-> H = 1 \/ Ca = 0) /\
   (~ (H = 1 \/ Ca = 0) -> MHAttentionFn.forward x ws = Err ShapeError)).
Proof.
  split.
  - intros Hl. destruct ws as [|w_q [|w_k [|w_v [|w_o [|w ws]]]]]; try reflexivity. cbn in Hl. lia.
  - intros (_ & Hr & Hc) Hl Hw.
    destruct ws as [|w_q [|w_k [|w_v [|w_o [|w ws]]]]]; cbn in Hl; try lia.
    apply Forall_cons_iff in Hw as [(Hq0 & Hq1 & Hq2) Hw].
    apply Forall_cons_iff in Hw as [(Hk0 & Hk1 & Hk2) Hw].
    apply Forall_cons_iff in Hw as [(Hv0 & Hv1 & Hv2) _].
    unfold MHAttentionFn.forward. rewrite Hq0, Hq2.
    destruct (reshape3_ok x (bdim0 w_q) (nrows x) (bdim2 w_q)) as (x3 & E3 & X0 & X1 & X2);
      [rewrite Hr, Hc, Hq0, Hq2; ring |].
    rewrite <- Hq0, <- Hq2, E3. cbn [rbind].
    destruct (Nat.eq_dec (bdim2 x3) (bdim1 w_q)) as [Hin | Hin].
    + assert (Hhc : H = 1 \/ Ca = 0) by (rewrite X2, Hq1, Hq2 in Hin; nia).
      destruct (bmm_ok x3 w_q (bdim0 w_q)) as (q & Eq & Q0 & Q1 & Q2);
        [rewrite X0; apply bdim_same | exact Hin |].
      destruct (bmm_ok x3 w_k (bdim0 w_q)) as (k & Ek & K0 & K1 & K2);
        [rewrite X0, Hk0, Hq0; apply bdim_same | congruence |].
      destruct (bmm_ok x3 w_v (bdim0 w_q)) as (v & Ev & V0 & V1 & V2);
        [rewrite X0, Hv0, Hq0; apply bdim_same | congruence |].
      destruct (bmm_ok k (transpose12 q) (bdim0 w_q)) as (s & Es & _);
        [cbn; rewrite K0, Q0; apply bdim_same | cbn; congruence |].
      rewrite Eq, Ek, Ev. cbn [rbind]. rewrite Es. cbn [rbind].
      rewrite Hq0, Hq2. split; [split; [intros _; exact Hhc | reflexivity] | intros Hn; contradiction].
    + rewrite (bmm_err_inner x3 w_q (bdim0 w_q)) by (try rewrite X0; first [apply bdim_same | exact Hin]).
      cbn [rbind].
      assert (Hn : ~ (H = 1 \/ Ca = 0)).
      { intros [-> | ->]; apply Hin; rewrite X2, Hq1, Hq2; lia. }
      rewrite Hq0, Hq2. split; [split; [intros E; discriminate E | intros Hc'; contradiction] | reflexivity].
Qed.

(** no gradient ever comes out of the stub: running it through
    autograd ([forward], then [backward] on its context) always fails,
    with [NotImplementedError] whenever [forward] itself returns [None]. *)
Theorem mha_no_backward (x : mat K) (ws : list (t3 K)) (u : unit) :
  exists e, run MHAttentionFn.function (x, ws) u = Err e /\
    (MHAttentionFn.forward x ws = Ok tt -> e = NotImplementedError).
Proof.
  unfold run. cbn [fn_forward fn_backward MHAttentionFn.function].
  destruct (MHAttentionFn.forward x ws) as [[]|e] eqn:E; cbn [rbind].
  - exists NotImplementedError. split; reflexivity.
  - exists e. split; [reflexivity | intros Hok; discriminate Hok].
Qed.
End MHAttentionProofs.

(** ** Witnesses, evaluated at [Z] *)

Definition mha_x2 : mat Z := Mat 1 2 [[1; 2]]%Z.
Definition mha_w2 : t3 Z := T3 2 2 1 [Mat 2 1 [[1]; [0]]; Mat 2 1 [[0]; [1]]]%Z.
Definition mha_x1 : mat Z := Mat 1 1 [[3]]%Z.
Definition mha_w1 : t3 Z := T3 1 1 1 [Mat 1 1 [[2]]]%Z.

Lemma mha_forward_errors_witness :
  MHAttentionFn.forward mha_x2 [mha_w2; mha_w2; mha_w2] = Err ValueError /\
  MHAttentionFn.forward mha_x2 [mha_w2; mha_w2; mha_w2; mha_w2] = Err ShapeError /\
  MHAttentionFn.forward mha_x1 [mha_w1; mha_w1; mha_w1; mha_w1] = Ok tt.
Proof.
  split; [apply (proj1 (mha_forward_errors mha_x2 [mha_w2; mha_w2; mha_w2] 1 2 1)); discriminate |].
  destruct (proj2 (mha_forward_errors mha_x2 [mha_w2; mha_w2; mha_w2; mha_w2] 1 2 1)
              ltac:(solve_shape) eq_refl ltac:(repeat constructor)) as (_ & H2).
  destruct (proj2 (mha_forward_errors mha_x1 [mha_w1; mha_w1; mha_w1; mha_w1] 1 1 1)
              ltac:(solve_shape) eq_refl ltac:(repeat constructor)) as (H1 & _).
  split; [apply H2; lia | apply H1; left; reflexivity].
Defined.
