(* ===== verification/Calculus.v ===== *)
(** * Differentiation of the scalar functions built by the operators

    The gradient contract of a non-linear operator is stated with Stdlib's
    [derivable_pt_lim]: the entry [(i, j)] of the gradient [backward]
    returns for an upstream gradient [dy] is the derivative at [h = 0] of
    [h |-> <dy, forward (x + h e_ij)>], the quantity [gradcheck] estimates by
    finite differences.  This file gives the rules in the form the operator
    files use them (functions written as [fun h => ...]) and the tactic
    [deriv_rules] that builds a derivative by them; the derivative of a
    finite sum [sumn], of a perturbed tensor or vector entry, and of [tanh];
    the sums over an indicator that collapse the derivatives; monotonicity
    of [exp] and [ln]; the rewrite database [decimals] that turns the
    decimal literals of the code into fractions for [field]; and the mean
    value bounds that measure how far a central difference lies from the
    derivative. *)

From Stdlib Require Import List Arith Lia ZArith Bool Reals Lra.
From S2P Require Import Prelude Tensor.
Import ListNotations.
Local Open Scope R_scope.

Section Rules.
Implicit Types (f g : R -> R) (x l a b c : R).

Lemma dpl_ext f g x l :
  (forall h, f h = g h) -> derivable_pt_lim f x l -> derivable_pt_lim g x l.
Proof.
  intros Hfg Hf eps Heps. destruct (Hf eps Heps) as [d Hd]. exists d.
  intros h Hh Hlt. rewrite <- !Hfg. now apply Hd.
Qed.

Lemma dpl_value f x l l' : l = l' -> derivable_pt_lim f x l -> derivable_pt_lim f x l'.
Proof. now intros <-. Qed.

Lemma dpl_const c x : derivable_pt_lim (fun _ => c) x 0.
Proof. apply derivable_pt_lim_const. Qed.

Lemma dpl_id x : derivable_pt_lim (fun h => h) x 1.
Proof. apply derivable_pt_lim_id. Qed.

Lemma dpl_plus f g x a b :
  derivable_pt_lim f x a -> derivable_pt_lim g x b ->
  derivable_pt_lim (fun h => f h + g h) x (a + b).
Proof. apply derivable_pt_lim_plus. Qed.

Lemma dpl_minus f g x a b :
  derivable_pt_lim f x a -> derivable_pt_lim g x b ->
  derivable_pt_lim (fun h => f h - g h) x (a - b).
Proof. apply derivable_pt_lim_minus. Qed.

Lemma dpl_opp f x a : derivable_pt_lim f x a -> derivable_pt_lim (fun h => - f h) x (- a).
Proof. apply derivable_pt_lim_opp. Qed.

Lemma dpl_mult f g x a b :
  derivable_pt_lim f x a -> derivable_pt_lim g x b ->
  derivable_pt_lim (fun h => f h * g h) x (a * g x + f x * b).
Proof. apply derivable_pt_lim_mult. Qed.

Lemma dpl_comp f g x a b :
  derivable_pt_lim f x a -> derivable_pt_lim g (f x) b ->
  derivable_pt_lim (fun h => g (f h)) x (b * a).
Proof. intros Hf Hg. apply (derivable_pt_lim_comp f g x a b Hf Hg). Qed.

Lemma dpl_inv f x a :
  derivable_pt_lim f x a -> f x <> 0 ->
  derivable_pt_lim (fun h => / f h) x (- a / (f x * f x)).
Proof.
  intros Hf Hnz.
  apply (dpl_ext (fun h => 1 / f h)); [intros h; unfold Rdiv; ring |].
  apply dpl_value with (l := (0 * f x - a * 1) / Rsqr (f x)); [unfold Rsqr; field; exact Hnz |].
  apply derivable_pt_lim_div; [apply dpl_const | exact Hf | exact Hnz].
Qed.

Lemma dpl_div f g x a b :
  derivable_pt_lim f x a -> derivable_pt_lim g x b -> g x <> 0 ->
  derivable_pt_lim (fun h => f h / g h) x ((a * g x - f x * b) / (g x * g x)).
Proof.
  intros Hf Hg Hnz. apply dpl_value with (l := (a * g x - b * f x) / Rsqr (g x));
    [unfold Rsqr; field; exact Hnz |].
  now apply derivable_pt_lim_div.
Qed.

Lemma dpl_div_const f x a c :
  derivable_pt_lim f x a -> derivable_pt_lim (fun h => f h / c) x (a / c).
Proof. apply derivable_pt_lim_div_scal. Qed.

Lemma dpl_exp f x a :
  derivable_pt_lim f x a -> derivable_pt_lim (fun h => exp (f h)) x (exp (f x) * a).
Proof. intros Hf. apply (dpl_comp f exp); [exact Hf | apply derivable_pt_lim_exp]. Qed.

Lemma dpl_ln f x a :
  derivable_pt_lim f x a -> 0 < f x -> derivable_pt_lim (fun h => ln (f h)) x (/ f x * a).
Proof. intros Hf Hpos. apply (dpl_comp f ln); [exact Hf | now apply derivable_pt_lim_ln]. Qed.

Lemma dpl_sqrt f x a :
  derivable_pt_lim f x a -> 0 < f x ->
  derivable_pt_lim (fun h => sqrt (f h)) x (/ (2 * sqrt (f x)) * a).
Proof. intros Hf Hpos. apply (dpl_comp f sqrt); [exact Hf | now apply derivable_pt_lim_sqrt]. Qed.

Lemma dpl_pow f x a n :
  derivable_pt_lim f x a ->
  derivable_pt_lim (fun h => f h ^ n) x (INR n * f x ^ Nat.pred n * a).
Proof.
  intros Hf. apply dpl_value with (l := INR n * f x ^ Nat.pred n * a); [reflexivity |].
  apply (dpl_comp f (fun v => v ^ n) x a (INR n * f x ^ Nat.pred n)) in Hf;
    [| apply derivable_pt_lim_pow].
  eapply dpl_value; [| exact Hf]. ring.
Qed.

(** Decimal literals such as [0.5] are [Q2R] constants, which [ring] and
    [field] do not read: [decimals] rewrites them to fractions. *)
Lemma R_half : 0.5 = 1 / 2.
Proof. lra. Qed.

(** ** Hyperbolic functions *)

Lemma cosh_pos x : 0 < cosh x.
Proof.
  unfold cosh. pose proof (exp_pos x). pose proof (exp_pos (- x)). lra.
Qed.

Lemma cosh_neq0 x : cosh x <> 0.
Proof. apply Rgt_not_eq, cosh_pos. Qed.

Lemma cosh_sinh_sqr x : cosh x * cosh x - sinh x * sinh x = 1.
Proof.
  unfold cosh, sinh.
  assert (Hx : exp x * exp (- x) = 1) by (rewrite <- exp_plus, Rplus_opp_r; apply exp_0).
  transitivity (exp x * exp (- x)); [field | exact Hx].
Qed.

(** [d/dx tanh x = 1 / cosh(x)^2], the [sech^2] of the GELU derivative. *)
Lemma derivable_pt_lim_tanh x : derivable_pt_lim tanh x (/ (cosh x * cosh x)).
Proof.
  pose proof (cosh_pos x) as Hc.
  apply (dpl_ext (fun h => sinh h / cosh h)); [reflexivity |].
  eapply dpl_value; [| apply (dpl_div sinh cosh);
    [apply derivable_pt_lim_sinh | apply derivable_pt_lim_cosh | lra]].
  rewrite cosh_sinh_sqr. field. lra.
Qed.

Lemma dpl_tanh f x a :
  derivable_pt_lim f x a ->
  derivable_pt_lim (fun h => tanh (f h)) x (/ (cosh (f x) * cosh (f x)) * a).
Proof. intros Hf. apply (dpl_comp f tanh); [exact Hf | apply derivable_pt_lim_tanh]. Qed.

(** ** Finite sums and tensor entries *)

Lemma dpl_sumn n (F : nat -> R -> R) (d : nat -> R) x :
  (forall i, (i < n)%nat -> derivable_pt_lim (F i) x (d i)) ->
  derivable_pt_lim (fun h => sumn n (fun i => F i h)) x (sumn n d).
Proof.
  induction n as [|n IH]; intros Hd; simpl.
  - apply dpl_const.
  - apply dpl_plus; [apply IH; intros; apply Hd; lia | apply Hd; lia].
Qed.

(** The entry [(a, b)] of [x + h e_ij], as a function of [h]. *)
Lemma dpl_perturb (A : mat R) (i j p q : nat) x :
  (p < nrows A)%nat -> (q < ncols A)%nat ->
  derivable_pt_lim (fun h => mget (perturb A i j h) p q) x
    (if (p =? i) && (q =? j) then 1 else 0).
Proof.
  intros Ha Hb.
  apply (dpl_ext (fun h => if (p =? i) && (q =? j) then mget A p q + h else mget A p q));
    [intros h; now rewrite mget_perturb |].
  destruct ((p =? i) && (q =? j)).
  - eapply dpl_value; [| apply dpl_plus; [apply dpl_const | apply dpl_id]]. simpl; ring.
  - apply dpl_const.
Qed.

Lemma sumn_zero_R n : sumn n (fun _ => 0) = 0.
Proof. induction n as [|n IH]; simpl; [reflexivity | rewrite IH; ring]. Qed.

(** The generic sum lemmas of [Prelude] at [R], stated with [Rmult],
    [Rplus], [Ropp] so that [rewrite] finds them. *)
Lemma Rsumn_mul_l n a (f : nat -> R) : sumn n (fun i => a * f i) = a * sumn n f.
Proof. exact (sumn_mul_l (K := R) n a f). Qed.

Lemma Rsumn_mul_r n a (f : nat -> R) : sumn n (fun i => f i * a) = sumn n f * a.
Proof. exact (sumn_mul_r (K := R) n a f). Qed.

Lemma Rsumn_opp n (f : nat -> R) : sumn n (fun i => - f i) = - sumn n f.
Proof. exact (sumn_opp (K := R) n f). Qed.

Lemma Rsumn_add n (f g : nat -> R) : sumn n (fun i => f i + g i) = sumn n f + sumn n g.
Proof. exact (sumn_add (K := R) n f g). Qed.

Lemma Rsumn_minus n (f g : nat -> R) : sumn n (fun i => f i - g i) = sumn n f - sumn n g.
Proof. exact (sumn_sub (K := R) n f g). Qed.

Lemma sumn_pos n (f : nat -> R) :
  (0 < n)%nat -> (forall i, (i < n)%nat -> 0 < f i) -> 0 < sumn n f.
Proof.
  induction n as [|n IH]; intros Hn Hf; [lia |]. simpl.
  destruct n as [|n]; [simpl; specialize (Hf 0%nat ltac:(lia)); lra |].
  pose proof (IH ltac:(lia) ltac:(intros; apply Hf; lia)). pose proof (Hf (S n) ltac:(lia)).
  lra.
Qed.

Lemma sumn_le n (f g : nat -> R) :
  (forall i, (i < n)%nat -> f i <= g i) -> sumn n f <= sumn n g.
Proof.
  induction n as [|n IH]; intros Hfg; simpl; [lra |].
  pose proof (IH ltac:(intros; apply Hfg; lia)). pose proof (Hfg n ltac:(lia)).
  change (sumn n f + f n <= sumn n g + g n). lra.
Qed.

Lemma mget_perturb_0 (A : mat R) (i j p q : nat) :
  (p < nrows A)%nat -> (q < ncols A)%nat -> mget (perturb A i j 0) p q = mget A p q.
Proof.
  intros Hp Hq. rewrite mget_perturb by assumption.
  destruct ((p =? i) && (q =? j)); simpl; ring.
Qed.

(** A sum over one row whose terms carry the indicator of [(i, j)]. *)
Lemma sumn_indicator1 (c t i j : nat) (F : nat -> R) :
  (j < c)%nat ->
  sumn c (fun q => F q * (if (t =? i) && (q =? j) then 1 else 0)) =
  if t =? i then F j else 0.
Proof.
  intros Hj. destruct (Nat.eqb_spec t i); simpl.
  - rewrite (sumn_single c j) by
      (assumption || (intros q Hq Hne; destruct (Nat.eqb_spec q j); [lia | simpl; ring])).
    rewrite Nat.eqb_refl. simpl; ring.
  - rewrite (sumn_ext c _ (fun _ => 0)) by (intros; simpl; ring). apply sumn_zero_R.
Qed.

(** Only the perturbed entry moves: a double sum over the shape whose
    terms carry the indicator of [(i, j)] collapses to that term. *)
Lemma sumn_indicator2 (r c i j : nat) (F : nat -> nat -> R) :
  (i < r)%nat -> (j < c)%nat ->
  sumn r (fun p => sumn c (fun q => F p q * (if (p =? i) && (q =? j) then 1 else 0))) = F i j.
Proof.
  intros Hi Hj.
  rewrite (sumn_single r i) by
    (assumption || (intros p Hp Hne; rewrite (sumn_ext c _ (fun _ => 0));
       [apply sumn_zero_R | intros q Hq; simpl; destruct (Nat.eqb_spec p i); [lia | simpl; ring]])).
  rewrite (sumn_single c j) by
    (assumption || (intros q Hq Hne; rewrite Nat.eqb_refl; simpl;
       destruct (Nat.eqb_spec q j); [lia | simpl; ring])).
  rewrite !Nat.eqb_refl. simpl. ring.
Qed.

(** Perturbing by [0] leaves a well-formed tensor unchanged. *)
Lemma perturb_0 (A : mat R) i j : wf A -> perturb A i j 0 = A.
Proof.
  intros Hw. rewrite (wf_tab A Hw) at 2. unfold perturb. apply tab_ext. intros a b Ha Hb.
  destruct ((a =? i) && (b =? j)); simpl; ring.
Qed.

Lemma sumn_const_R n (a : R) : sumn n (fun _ => a) = INR n * a.
Proof. induction n as [|n IH]; simpl sumn; [simpl; ring | rewrite IH, S_INR; ring]. Qed.

(** A sum whose terms carry the indicator of [k] picks the term [k]. *)
Lemma sumn_pick n k (F : nat -> R) :
  (k < n)%nat -> sumn n (fun q => F q * (if q =? k then 1 else 0)) = F k.
Proof.
  intros Hk. rewrite (sumn_single n k) by
    (assumption || (intros q Hq Hne; destruct (Nat.eqb_spec q k); [lia | simpl; ring])).
  rewrite Nat.eqb_refl. simpl; ring.
Qed.

Lemma sumn_if_eq n k (a : R) : (k < n)%nat -> sumn n (fun q => if q =? k then a else 0) = a.
Proof.
  intros Hk. transitivity (sumn n (fun q => a * (if q =? k then 1 else 0)));
    [apply sumn_ext; intros q _; destruct (q =? k); ring | exact (sumn_pick n k (fun _ => a) Hk)].
Qed.

Lemma sumn_if_else n k (a b : R) :
  (k < n)%nat -> sumn n (fun q => if q =? k then a else b) = a + INR (n - 1) * b.
Proof.
  intros Hk. transitivity (sumn n (fun q => b + (a - b) * (if q =? k then 1 else 0))).
  - apply sumn_ext. intros q _. destruct (q =? k); ring.
  - rewrite Rsumn_add, sumn_const_R, (sumn_pick n k (fun _ => a - b) Hk), minus_INR by lia.
    simpl. ring.
Qed.

Lemma exp_le_mono a b : a <= b -> exp a <= exp b.
Proof.
  intros Hab. destruct (Rle_lt_or_eq_dec _ _ Hab) as [Hlt | ->]; [left; now apply exp_increasing | lra].
Qed.

Lemma ln_le_mono a b : 0 < a -> a <= b -> ln a <= ln b.
Proof.
  intros Ha Hab. destruct (Rle_lt_or_eq_dec _ _ Hab) as [Hlt | ->]; [left; now apply ln_increasing | lra].
Qed.

Lemma vget_vperturb (u : list R) k h (q : nat) :
  (q < length u)%nat -> vget (vperturb u k h) q = if q =? k then vget u q + h else vget u q.
Proof. intros Hc. unfold vperturb. now rewrite vget_tabulate. Qed.

Lemma length_vperturb (u : list R) k h : length (vperturb u k h) = length u.
Proof. apply length_tabulate. Qed.

Lemma dpl_vperturb (u : list R) k (q : nat) x :
  (q < length u)%nat ->
  derivable_pt_lim (fun h => vget (vperturb u k h) q) x (if q =? k then 1 else 0).
Proof.
  intros Hc. apply (dpl_ext (fun h => if q =? k then vget u q + h else vget u q));
    [intros h; now rewrite vget_vperturb |].
  destruct (q =? k); [eapply dpl_value; [| apply dpl_plus; [apply dpl_const | apply dpl_id]]; ring
                     | apply dpl_const].
Qed.

Lemma vget_vperturb_0 (u : list R) k (q : nat) :
  (q < length u)%nat -> vget (vperturb u k 0) q = vget u q.
Proof. intros Hc. rewrite vget_vperturb by exact Hc. destruct (q =? k); ring. Qed.

(** The derivative of [<dy, tab r n (F h)>], entry by entry. *)
Lemma dpl_dotm_tab (dy : mat R) (r n : nat) (F : R -> nat -> nat -> R) (D : nat -> nat -> R) :
  nrows dy = r -> ncols dy = n ->
  (forall p q, (p < r)%nat -> (q < n)%nat -> derivable_pt_lim (fun h => F h p q) 0 (D p q)) ->
  derivable_pt_lim (fun h => dotm dy (tab r n (F h))) 0
    (sumn r (fun p => sumn n (fun q => mget dy p q * D p q))).
Proof.
  intros Hr Hn HD.
  apply (dpl_ext (fun h => sumn r (fun p => sumn n (fun q => mget dy p q * F h p q))));
    [intros h; rewrite dotm_tab_r by assumption; reflexivity |].
  eapply dpl_value; [| apply dpl_sumn; intros p Hp; apply dpl_sumn; intros q Hq;
                       apply dpl_mult; [apply dpl_const | now apply HD]].
  apply sumn_ext. intros p _. apply sumn_ext. intros q _. ring.
Qed.

(** The gradient of an elementwise map [phi] with derivative [phi']: the
    derivative of [h |-> <dy, phi(x + h e_ij)>] is [dy[i,j] * phi'(x[i,j])]. *)
Lemma dotm_mmap_perturb_deriv (phi phi' : R -> R) (A dy : mat R) i j :
  (forall v, derivable_pt_lim phi v (phi' v)) ->
  nrows dy = nrows A -> ncols dy = ncols A -> (i < nrows A)%nat -> (j < ncols A)%nat ->
  derivable_pt_lim (fun h => dotm dy (mmap phi (perturb A i j h))) 0
    (mget dy i j * phi' (mget A i j)).
Proof.
  intros Hphi Hr Hc Hi Hj. unfold dotm. rewrite Hr, Hc.
  apply (dpl_ext (fun h => sumn (nrows A) (fun p => sumn (ncols A) (fun q =>
            mget dy p q * phi (mget (perturb A i j h) p q)))));
    [intros h; apply sumn_ext; intros p Hp; apply sumn_ext; intros q Hq;
     unfold mmap; rewrite mget_tab by (unfold perturb; simpl; assumption); reflexivity |].
  eapply dpl_value; [| apply dpl_sumn; intros p Hp; apply dpl_sumn; intros q Hq;
    apply dpl_mult; [apply dpl_const | apply (dpl_comp (fun h => mget (perturb A i j h) p q) phi);
      [apply dpl_perturb; assumption | apply Hphi]]].
  simpl. rewrite <- (sumn_indicator2 (nrows A) (ncols A) i j
           (fun p q => mget dy p q * phi' (mget A p q))) by assumption.
  apply sumn_ext. intros p Hp. apply sumn_ext. intros q Hq.
  rewrite mget_perturb by assumption.
  destruct ((p =? i) && (q =? j)) eqn:E; [| simpl; ring].
  apply andb_true_iff in E as [E1 E2]. apply Nat.eqb_eq in E1, E2. subst.
  simpl. rewrite Rplus_0_r. ring.
Qed.
End Rules.

(** ** Automation *)

Create Rewrite HintDb decimals.
#[export] Hint Rewrite R_half : decimals.

(** [deriv_rules] reduces [derivable_pt_lim (fun h => e) x l] to the
    equation between [l] and the derivative the rules compute for [e],
    leaving the side conditions of [ln], [/] and [sqrt] as goals. *)
Ltac deriv_rules :=
  eapply dpl_value; [| repeat first
    [ apply dpl_const | apply dpl_id | apply dpl_tanh | apply dpl_exp | apply dpl_ln
    | apply dpl_sqrt | apply dpl_pow | apply dpl_inv | apply dpl_div
    | apply dpl_plus | apply dpl_minus | apply dpl_opp | apply dpl_mult ] ].

(** ** Mean values *)

Section MeanValue.

(** The central difference of a function differentiable around [x] is its
    derivative at a point within [e] of [x]. *)
Lemma central_mvt f f' x e :
  0 < e -> (forall c, x - e <= c <= x + e -> derivable_pt_lim f c (f' c)) ->
  exists c, x - e < c < x + e /\ (f (x + e) - f (x + - e)) / (2 * e) = f' c.
Proof.
  intros He Hd. destruct (MVT_cor2 f f' (x + - e) (x + e)) as (c & Hc & Hin);
    [lra | intros c Hc; apply Hd; lra |].
  exists c. split; [lra |]. rewrite Hc. field. lra.
Qed.

(** A derivative bounded by [M] on [[a, b]] makes the function
    [M]-Lipschitz there. *)
Lemma deriv_bound_diff f f' M a b x y :
  (forall c, a <= c <= b -> derivable_pt_lim f c (f' c)) ->
  (forall c, a <= c <= b -> Rabs (f' c) <= M) ->
  a <= x <= b -> a <= y <= b -> Rabs (f x - f y) <= M * Rabs (x - y).
Proof.
  intros Hd Hb Hx Hy.
  assert (Hlo : a <= Rmin y x) by (apply Rmin_glb; lra).
  assert (Hhi : Rmax y x <= b) by (apply Rmax_lub; lra).
  destruct (MVT_abs f f' y x) as (c & Hc & Hin); [intros c Hc; apply Hd; lra |].
  rewrite Hc. apply Rmult_le_compat_r; [apply Rabs_pos | apply Hb; lra].
Qed.

End MeanValue.
