(* ===== verification/GradCheck.v ===== *)
(** * The gradient check of the linear operators, over the reals

    [gradcheck] compares each entry of every gradient [backward] returns
    with a finite-difference estimate of the derivative of
    [<dy, forward(...)>] along that entry.  [AddOp], [LinearOp] and
    [EmbeddingOp] prove the exact adjoint identities over any ring; this
    file states, over [R], the derivative that [gradcheck] estimates for
    every differentiable input of [AddFn], [LinearFn] and [EmbeddingFn], as
    [GeluOp], [CrossEntropyOp] and [LayerNormOp] do for the non-linear
    operators. *)

From Stdlib Require Import List Arith Lia ZArith Bool Reals Lra.
From S2P Require Import Prelude Tensor AddOp LinearOp EmbeddingOp Calculus.
Import ListNotations.
Local Open Scope R_scope.

Section GradCheckProofs.

(** The sum over the rows of a term that vanishes off row [i]. *)
Lemma sumn_if_row n i (F : nat -> R) :
  (i < n)%nat -> sumn n (fun t => if t =? i then F t else 0) = F i.
Proof.
  intros Hi. rewrite (sumn_single n i) by
    (assumption || (intros t Ht Hne; destruct (Nat.eqb_spec t i); [lia | reflexivity])).
  now rewrite Nat.eqb_refl.
Qed.

(** C11: the gradient check of [AddFn]: for operands of one shape and an
    upstream gradient of that shape, the entry [(i, j)] of each gradient
    [backward] returns is the derivative of [h |-> <dy, a + b>] along the
    entry [(i, j)] of that operand. *)
Theorem add_backward_vjp a b dy i j :
  nrows a = nrows b -> ncols a = ncols b -> has_shape (nrows a) (ncols a) dy ->
  (i < nrows a)%nat -> (j < ncols a)%nat ->
  exists y ga gb, AddFn.forward a b = Ok y /\ AddFn.backward dy = (ga, gb) /\
    derivable_pt_lim (fun h => dotm dy (mat_of (AddFn.forward (perturb a i j h) b))) 0 (mget ga i j) /\
    derivable_pt_lim (fun h => dotm dy (mat_of (AddFn.forward a (perturb b i j h)))) 0 (mget gb i j).
Proof.
  intros Hr Hc (_ & Hdr & Hdc) Hi Hj. rewrite AddFn.add_forward_ok by assumption.
  do 3 eexists. split; [reflexivity | split; [reflexivity |]].
  split; [apply (dpl_ext (fun h => dotm dy (tab (nrows a) (ncols a)
                                     (fun p q => mget (perturb a i j h) p q + mget b p q))))
         | apply (dpl_ext (fun h => dotm dy (tab (nrows a) (ncols a)
                                     (fun p q => mget a p q + mget (perturb b i j h) p q))))];
    try (intros h; rewrite AddFn.add_forward_ok by assumption; reflexivity);
    (eapply dpl_value; [| apply dpl_dotm_tab; [exact Hdr | exact Hdc | intros p q Hp Hq]]);
    [| apply dpl_plus; [apply dpl_perturb; assumption | apply dpl_const]
     | | apply dpl_plus; [apply dpl_const | apply dpl_perturb; congruence]];
    rewrite <- (sumn_indicator2 (nrows a) (ncols a) i j (mget dy)) by assumption;
    apply sumn_ext; intros p _; apply sumn_ext; intros q _; ring.
Qed.

(** The derivatives of [<dy, x @ w.T + b>] along each entry of [x], [w]
    and [b], for operands whose shapes agree. *)
Section LinearDerivatives.
Variables (x w : mat R) (b : list R) (dy : mat R).
Hypothesis Hc : ncols x = ncols w.
Hypothesis Hb : length b = nrows w.
Hypothesis Hd1 : nrows dy = nrows x.
Hypothesis Hd2 : ncols dy = nrows w.

Lemma linear_dx_deriv i j :
  (i < nrows x)%nat -> (j < ncols x)%nat ->
  derivable_pt_lim (fun h => dotm dy (out_of (LinearFn.forward (perturb x i j h) w b))) 0
    (sumn (nrows w) (fun o => mget dy i o * mget w o j)).
Proof.
  intros Hi Hj.
  apply (dpl_ext (fun h => dotm dy (LinearFn.affine (perturb x i j h) w b)));
    [intros h; rewrite LinearFn.linear_forward_ok by (cbn; congruence); reflexivity |].
  eapply dpl_value; [| apply (dpl_dotm_tab dy (nrows x) (nrows w)
    (fun h t o => sumn (ncols x) (fun k => mget (perturb x i j h) t k * mget w o k) + vget b o));
    [exact Hd1 | exact Hd2 | intros t o Ht Ho;
     apply dpl_plus; [apply dpl_sumn; intros k Hk; apply dpl_mult; [apply dpl_perturb; lia | apply dpl_const]
                     | apply dpl_const]]].
  cbv beta.
  transitivity (sumn (nrows x) (fun t => if t =? i then sumn (nrows w) (fun o => mget dy t o * mget w o j) else 0));
    [| apply sumn_if_row; exact Hi].
  apply sumn_ext. intros t _. transitivity (sumn (nrows w) (fun o => mget dy t o * (if t =? i then mget w o j else 0))).
  - apply sumn_ext. intros o _. f_equal. rewrite Rplus_0_r.
    rewrite (sumn_ext _ _ (fun k => mget w o k * (if (t =? i) && (k =? j) then 1 else 0))) by (intros; cbv beta; ring).
    now rewrite sumn_indicator1 by exact Hj.
  - destruct (t =? i); [reflexivity |].
    rewrite (sumn_ext _ _ (fun _ => 0)) by (intros; cbv beta iota; ring). apply sumn_zero_R.
Qed.

Lemma linear_dw_deriv o k :
  (o < nrows w)%nat -> (k < ncols w)%nat ->
  derivable_pt_lim (fun h => dotm dy (out_of (LinearFn.forward x (perturb w o k h) b))) 0
    (sumn (nrows x) (fun t => mget dy t o * mget x t k)).
Proof.
  intros Ho Hk.
  apply (dpl_ext (fun h => dotm dy (LinearFn.affine x (perturb w o k h) b)));
    [intros h; rewrite LinearFn.linear_forward_ok by (cbn; congruence); reflexivity |].
  eapply dpl_value; [| apply (dpl_dotm_tab dy (nrows x) (nrows w)
    (fun h t p => sumn (ncols x) (fun q => mget x t q * mget (perturb w o k h) p q) + vget b p));
    [exact Hd1 | exact Hd2 | intros t p Ht Hp;
     apply dpl_plus; [apply dpl_sumn; intros q Hq; apply dpl_mult; [apply dpl_const | apply dpl_perturb; lia]
                     | apply dpl_const]]].
  cbv beta. apply sumn_ext. intros t _.
  transitivity (sumn (nrows w) (fun p => mget dy t p * mget x t k * (if p =? o then 1 else 0)));
    [| exact (sumn_pick _ _ (fun p => mget dy t p * mget x t k) Ho)].
  apply sumn_ext. intros p _. rewrite Rplus_0_r.
  rewrite (sumn_ext _ _ (fun q => mget x t q * (if (p =? o) && (q =? k) then 1 else 0))) by (intros; cbv beta; ring).
  rewrite sumn_indicator1 by lia. destruct (p =? o); ring.
Qed.

Lemma linear_db_deriv o :
  (o < nrows w)%nat ->
  derivable_pt_lim (fun h => dotm dy (out_of (LinearFn.forward x w (vperturb b o h)))) 0
    (sumn (nrows x) (fun t => mget dy t o)).
Proof.
  intros Ho.
  apply (dpl_ext (fun h => dotm dy (LinearFn.affine x w (vperturb b o h))));
    [intros h; rewrite LinearFn.linear_forward_ok by (rewrite ?length_vperturb; congruence); reflexivity |].
  eapply dpl_value; [| apply (dpl_dotm_tab dy (nrows x) (nrows w)
    (fun h t p => sumn (ncols x) (fun q => mget x t q * mget w p q) + vget (vperturb b o h) p));
    [exact Hd1 | exact Hd2 | intros t p Ht Hp; apply dpl_plus; [apply dpl_const | apply dpl_vperturb; lia]]].
  apply sumn_ext. intros t _.
  transitivity (sumn (nrows w) (fun p => mget dy t p * (if p =? o then 1 else 0)));
    [apply sumn_ext; intros; cbv beta; ring | exact (sumn_pick _ _ (fun p => mget dy t p) Ho)].
Qed.
End LinearDerivatives.

(** C9: the gradient check of [LinearFn]: for a batch [x] of shape
    [(T, I)], a weight of shape [(O, I)], a bias of length [O] and an
    upstream gradient of shape [(T, O)], each entry of [dx], [dw] and [db]
    is the derivative of [h |-> <dy, forward(...)>] along that entry of
    [x], [weight] and [bias]. *)
Theorem linear_backward_vjp x w b dy T I O :
  has_shape T I x -> has_shape O I w -> length b = O -> has_shape T O dy ->
  exists y c dx dw db, LinearFn.forward x w b = Ok (y, c) /\ LinearFn.backward c dy = Ok (dx, dw, db) /\
    (forall i j, (i < T)%nat -> (j < I)%nat ->
       derivable_pt_lim (fun h => dotm dy (out_of (LinearFn.forward (perturb x i j h) w b))) 0 (mget dx i j)) /\
    (forall o k, (o < O)%nat -> (k < I)%nat ->
       derivable_pt_lim (fun h => dotm dy (out_of (LinearFn.forward x (perturb w o k h) b))) 0 (mget dw o k)) /\
    (forall o, (o < O)%nat ->
       derivable_pt_lim (fun h => dotm dy (out_of (LinearFn.forward x w (vperturb b o h)))) 0 (vget db o)).
Proof.
  intros Hx Hw Hb Hdy. pose proof Hx as (_ & Hx1 & Hx2). pose proof Hw as (_ & Hw1 & Hw2).
  pose proof Hdy as (_ & Hd1 & Hd2).
  rewrite LinearFn.linear_forward_ok by congruence. do 5 eexists. split; [reflexivity |].
  rewrite (LinearFn.linear_backward_ok x w b dy T I O Hx Hw Hdy). split; [reflexivity |].
  split; [| split]; intros; tensor_simpl; subst T I O; rewrite <- ?Hw1;
    [apply linear_dx_deriv | apply linear_dw_deriv | apply linear_db_deriv]; congruence.
Qed.

(** C10: the gradient check of [EmbeddingFn]: for indices in [[0, N)] and
    an upstream gradient with one row per index and the table's width,
    entry [(k, j)] of the table gradient [backward] returns is the
    derivative of [h |-> <dy, emb[x]>] along entry [(k, j)] of the table. *)
Theorem embedding_backward_vjp x emb dy :
  (forall i, In i x -> (0 <= i < Z.of_nat (nrows emb))%Z) ->
  has_shape (length x) (ncols emb) dy ->
  exists y c demb, EmbeddingFn.forward x emb = Ok (y, c) /\
    EmbeddingFn.backward c dy = Ok (None, demb) /\
    forall k j, (k < nrows emb)%nat -> (j < ncols emb)%nat ->
      derivable_pt_lim (fun h => dotm dy (out_of (EmbeddingFn.forward x (perturb emb k j h)))) 0
        (mget demb k j).
Proof.
  intros Hin (_ & Hd1 & Hd2).
  assert (Hin' : forall i, In i x -> (- Z.of_nat (nrows emb) <= i < Z.of_nat (nrows emb))%Z)
    by (intros i Hi; specialize (Hin i Hi); lia).
  assert (Hnth : forall t, (t < length x)%nat -> (0 <= nth t x 0 < Z.of_nat (nrows emb))%Z)
    by (intros t Ht; apply Hin, nth_In, Ht).
  assert (Hb : exists demb, index_add (zeros_like emb) x dy = Ok demb).
  { unfold index_add, check; simpl. rewrite Hd1, Hd2, !Nat.eqb_refl. simpl.
    rewrite check_index_ok by exact Hin. eexists; reflexivity. }
  destruct Hb as [demb Hb]. exists (gather_rows emb (map (py_wrap (nrows emb)) x)), (EmbeddingFn.Ctx x emb), demb.
  split; [unfold EmbeddingFn.forward; now rewrite resolve_index_ok by exact Hin' |].
  split; [unfold EmbeddingFn.backward; simpl; now rewrite Hb |].
  apply index_add_zeros_spec in Hb as (_ & _ & Hm). simpl in Hm. intros k j Hk Hj. rewrite Hm by assumption.
  apply (dpl_ext (fun h => dotm dy (gather_rows (perturb emb k j h) (map (py_wrap (nrows emb)) x))));
    [intros h; unfold EmbeddingFn.forward; now rewrite resolve_index_ok by exact Hin' |].
  eapply dpl_value; [| apply (dpl_dotm_tab dy (length (map (py_wrap (nrows emb)) x)) (ncols emb)
      (fun h t q => mget (perturb emb k j h) (nth t (map (py_wrap (nrows emb)) x) 0%nat) q));
    [now rewrite length_map | exact Hd2 | intros t q Ht Hq; apply dpl_perturb; [| exact Hq]]].
  - rewrite length_map. apply sumn_ext. intros t Ht. rewrite sumn_indicator1 by exact Hj.
    rewrite nth_map_py_wrap, py_wrap_nonneg by (apply Hnth, Ht).
    specialize (Hnth t Ht).
    destruct (Nat.eqb_spec (Z.to_nat (nth t x 0%Z)) k), (Z.eqb_spec (nth t x 0%Z) (Z.of_nat k));
      solve [reflexivity | lia].
  - rewrite length_map in Ht. rewrite nth_map_py_wrap, py_wrap_nonneg by (apply Hnth, Ht).
    specialize (Hnth t Ht). cbn. lia.
Qed.
End GradCheckProofs.

(** ** Witnesses *)

Definition gc_a : mat R := Mat 1 2 [[1; 2]].
Definition gc_b : mat R := Mat 1 2 [[3; 4]].
Definition gc_dy : mat R := Mat 1 2 [[1; -1]].

Lemma add_backward_vjp_witness :
  has_shape 1%nat 2%nat gc_dy /\
  exists y ga gb, AddFn.forward gc_a gc_b = Ok y /\ AddFn.backward gc_dy = (ga, gb) /\
    derivable_pt_lim (fun h => dotm gc_dy (mat_of (AddFn.forward (perturb gc_a 0 1 h) gc_b))) 0 (mget ga 0 1) /\
    derivable_pt_lim (fun h => dotm gc_dy (mat_of (AddFn.forward gc_a (perturb gc_b 0 1 h)))) 0 (mget gb 0 1).
Proof.
  assert (Hs : has_shape 1%nat 2%nat gc_dy) by solve_shape.
  split; [exact Hs |].
  exact (add_backward_vjp gc_a gc_b gc_dy 0 1 eq_refl eq_refl Hs ltac:(simpl; lia) ltac:(simpl; lia)).
Defined.

Definition gc_w : mat R := Mat 1 2 [[3; 4]].
Definition gc_bias : list R := [5].
Definition gc_ldy : mat R := Mat 1 1 [[2]].

Lemma linear_backward_vjp_witness :
  has_shape 1%nat 2%nat gc_a /\ has_shape 1%nat 2%nat gc_w /\ has_shape 1%nat 1%nat gc_ldy /\
  exists y c dx dw db, LinearFn.forward gc_a gc_w gc_bias = Ok (y, c) /\
    LinearFn.backward c gc_ldy = Ok (dx, dw, db) /\
    derivable_pt_lim (fun h => dotm gc_ldy (out_of (LinearFn.forward (perturb gc_a 0 1 h) gc_w gc_bias))) 0
      (mget dx 0 1) /\
    derivable_pt_lim (fun h => dotm gc_ldy (out_of (LinearFn.forward gc_a (perturb gc_w 0 1 h) gc_bias))) 0
      (mget dw 0 1) /\
    derivable_pt_lim (fun h => dotm gc_ldy (out_of (LinearFn.forward gc_a gc_w (vperturb gc_bias 0 h)))) 0
      (vget db 0).
Proof.
  assert (Hx : has_shape 1%nat 2%nat gc_a) by solve_shape.
  assert (Hw : has_shape 1%nat 2%nat gc_w) by solve_shape.
  assert (Hd : has_shape 1%nat 1%nat gc_ldy) by solve_shape.
  split; [exact Hx | split; [exact Hw | split; [exact Hd |]]].
  destruct (linear_backward_vjp gc_a gc_w gc_bias gc_ldy 1 2 1 Hx Hw eq_refl Hd)
    as (y & c & dx & dw & db & Hf & Hb & Hdx & Hdw & Hdb).
  exists y, c, dx, dw, db. split; [exact Hf | split; [exact Hb |]].
  split; [apply Hdx; lia | split; [apply Hdw; lia | apply Hdb; lia]].
Defined.

Definition gc_x : list Z := [0; 1; 0]%Z.
Definition gc_emb : mat R := Mat 2 1 [[1]; [2]].
Definition gc_edy : mat R := Mat 3 1 [[1]; [2]; [3]].

Lemma embedding_backward_vjp_witness :
  (forall i, In i gc_x -> (0 <= i < Z.of_nat (nrows gc_emb))%Z) /\ has_shape 3%nat 1%nat gc_edy /\
  exists y c demb, EmbeddingFn.forward gc_x gc_emb = Ok (y, c) /\
    EmbeddingFn.backward c gc_edy = Ok (None, demb) /\
    derivable_pt_lim (fun h => dotm gc_edy (out_of (EmbeddingFn.forward gc_x (perturb gc_emb 0 0 h)))) 0
      (mget demb 0 0).
Proof.
  assert (Hin : forall i, In i gc_x -> (0 <= i < Z.of_nat (nrows gc_emb))%Z)
    by (simpl; intros i [<- | [<- | [<- | []]]]; lia).
  assert (Hd : has_shape 3%nat 1%nat gc_edy) by solve_shape.
  split; [exact Hin | split; [exact Hd |]].
  destruct (embedding_backward_vjp gc_x gc_emb gc_edy Hin Hd) as (y & c & demb & Hf & Hb & Hg).
  exists y, c, demb. split; [exact Hf | split; [exact Hb | apply Hg; simpl; lia]].
Defined.
