(* ===== verification/GeluOp.v ===== *)
(** * [GELUFn] and the [GELU] module ([src/src/modules.py], lines 106-126)

    The tanh approximation of GELU, elementwise on a tensor [x]:
<<
    a = sqrt(2 / pi);  b = a * (x + 0.044715 * x ** 3)
    forward  = 0.5 * x * (1 + tanh b)            saves (x, a, b)
    backward = y_grad * 0.5 * (1 + tanh b + x / cosh(b) ** 2 * db)
               where db = a * (1 + 3 * 0.044715 * x ** 2)
>>
    modelled over [R].  [forward] combines tensors of one shape only, so it
    cannot fail and is a total function; [backward] multiplies by the
    externally supplied [y_grad] with broadcasting ([bmap2]). *)

From Stdlib Require Import List Arith Lia ZArith Bool Reals Lra.
From S2P Require Import Prelude Tensor Autograd Calculus.
Import ListNotations.
Local Open Scope R_scope.

Module GELUFn.

(** The scalar expressions of the code, entry by entry. *)
Definition gelu_b (a v : R) : R := a * (v + 0.044715 * v ^ 3).
Definition gelu_y (v bv : R) : R := 0.5 * v * (1 + tanh bv).
Definition gelu_db (a v : R) : R := a * (1 + 3 * 0.044715 * v ^ 2).
Definition gelu_dx (v bv dbv : R) : R := 1 + tanh bv + v / cosh bv ^ 2 * dbv.

(** [ctx.save_for_backward(x, a, b)] *)
Record ctx := Ctx { saved_x : mat R; saved_a : R; saved_b : mat R }.

Definition forward (x : mat R) : mat R * ctx :=
  let a := sqrt (2 / PI) in
  let b := mmap (gelu_b a) x in
  (tab (nrows x) (ncols x) (fun i j => gelu_y (mget x i j) (mget b i j)), Ctx x a b).

Definition backward (c : ctx) (y_grad : mat R) : result (mat R) :=
  let x := saved_x c in
  let a := saved_a c in
  let b := saved_b c in
  let db := mmap (gelu_db a) x in
  bmap2 Rmult (mmap (fun g => g * 0.5) y_grad)
        (tab (nrows x) (ncols x) (fun i j => gelu_dx (mget x i j) (mget b i j) (mget db i j))).

(** [class GELUFn(ag.Function)]: [forward] cannot fail. *)
Definition function : autograd_fn :=
  AutogradFn (mat R) ctx (mat R) (mat R) (mat R) (fun x => Ok (forward x)) backward.
End GELUFn.

(** The [GELU] module has no parameter: [forward(x) = GELUFn.apply(x)]. *)
Module GELUModule.
Definition forward (x : mat R) : mat R := fst (GELUFn.forward x).
End GELUModule.

(** ** Properties *)

Section GeluProofs.
Import GELUFn.

Lemma R_gelu_coeff : 0.044715 = 44715 / 1000000.
Proof. lra. Qed.
#[local] Hint Rewrite R_gelu_coeff : decimals.

(** The activation as a function of one input, with [a = sqrt(2/pi)]. *)
Definition gelu (v : R) : R := gelu_y v (gelu_b (sqrt (2 / PI)) v).

(** Its derivative, as [backward] computes it for [y_grad = 1]. *)
Definition gelu' (v : R) : R :=
  0.5 * gelu_dx v (gelu_b (sqrt (2 / PI)) v) (gelu_db (sqrt (2 / PI)) v).

Lemma gelu_forward_mmap x : fst (forward x) = mmap gelu x.
Proof.
  unfold forward, mmap, gelu; simpl. apply tab_ext. intros i j Hi Hj.
  tensor_simpl. reflexivity.
Qed.

(** The derivative of the scalar function the code computes. *)
Lemma gelu_derivative v : derivable_pt_lim gelu v (gelu' v).
Proof.
  unfold gelu, gelu', gelu_y, gelu_b, gelu_dx, gelu_db.
  set (a := sqrt (2 / PI)).
  deriv_rules. simpl. field. apply cosh_neq0.
Qed.

Lemma gelu_backward_ok x dy :
  nrows dy = nrows x -> ncols dy = ncols x ->
  backward (snd (forward x)) dy =
  Ok (tab (nrows x) (ncols x) (fun i j => mget dy i j * gelu' (mget x i j))).
Proof.
  intros Hr Hc. unfold backward; simpl. rewrite bmap2_same by (simpl; assumption).
  simpl. f_equal. rewrite Hr, Hc. apply tab_ext. intros i j Hi Hj.
  unfold mmap. tensor_simpl. unfold gelu'. simpl. ring.
Qed.

(** C4: the gradient contract of [GELUFn]: for an upstream gradient [dy]
    of the input's shape, [backward] returns [dx] of that shape with
    [dx[i,j] = dy[i,j] * gelu'(x[i,j])], and each entry is the derivative at
    [h = 0] of [h |-> <dy, forward(x + h e_ij)>]. *)
Theorem gelu_backward_vjp x dy i j :
  has_shape (nrows x) (ncols x) dy -> (i < nrows x)%nat -> (j < ncols x)%nat ->
  exists dx, backward (snd (forward x)) dy = Ok dx /\ has_shape (nrows x) (ncols x) dx /\
    mget dx i j = mget dy i j * gelu' (mget x i j) /\
    derivable_pt_lim (fun h => dotm dy (fst (forward (perturb x i j h)))) 0 (mget dx i j).
Proof.
  intros (_ & Hr & Hc) Hi Hj. rewrite gelu_backward_ok by assumption.
  eexists; split; [reflexivity |]. split; [auto with tensor |].
  tensor_simpl. split; [reflexivity |].
  apply (dpl_ext (fun h => dotm dy (mmap gelu (perturb x i j h))));
    [intros h; now rewrite gelu_forward_mmap |].
  apply dotm_mmap_perturb_deriv; auto using gelu_derivative.
Qed.

(** [forward] returns a tensor of the input's shape with
    [y = 0.5 x (1 + tanh(sqrt(2/pi) (x + 0.044715 x^3)))] entrywise, and
    saves [x], [a = sqrt(2/pi)] and [b]. *)
Theorem gelu_forward_spec x :
  has_shape (nrows x) (ncols x) (fst (forward x)) /\
  snd (forward x) = Ctx x (sqrt (2 / PI)) (mmap (gelu_b (sqrt (2 / PI))) x) /\
  forall i j, (i < nrows x)%nat -> (j < ncols x)%nat ->
    mget (fst (forward x)) i j =
    0.5 * mget x i j * (1 + tanh (sqrt (2 / PI) * (mget x i j + 0.044715 * mget x i j ^ 3))).
Proof.
  split; [apply tab_shape | split; [reflexivity |]].
  intros i j Hi Hj. rewrite gelu_forward_mmap. unfold mmap. now rewrite mget_tab.
Qed.

Lemma tanh_opp v : tanh (- v) = - tanh v.
Proof.
  unfold tanh, sinh, cosh. rewrite Ropp_involutive.
  field. pose proof (exp_pos v). pose proof (exp_pos (- v)). lra.
Qed.

(** the activation satisfies [gelu(v) - gelu(-v) = v] ([tanh] is odd). *)
Theorem gelu_odd_part v : gelu v - gelu (- v) = v.
Proof.
  unfold gelu, gelu_y, gelu_b.
  replace (sqrt (2 / PI) * (- v + 0.044715 * (- v) ^ 3))
    with (- (sqrt (2 / PI) * (v + 0.044715 * v ^ 3))) by ring.
  rewrite tanh_opp. autorewrite with decimals. field.
Qed.

(** an upstream gradient whose shape does not broadcast against the
    input's raises a shape error. *)
Theorem gelu_backward_shape_error x dy :
  (bdim (nrows dy) (nrows x) = None \/ bdim (ncols dy) (ncols x) = None) ->
  backward (snd (forward x)) dy = Err ShapeError.
Proof.
  intros Hb. unfold backward, bmap2; simpl.
  destruct Hb as [Hb | Hb]; rewrite Hb; [reflexivity |].
  destruct (bdim (nrows dy) (nrows x)); reflexivity.
Qed.
End GeluProofs.

(** ** Witnesses *)

Definition gelu_x : mat R := Mat 1 2 [[1; -2]].
Definition gelu_dy : mat R := Mat 1 2 [[3; 5]].

Lemma gelu_backward_vjp_witness :
  has_shape 1%nat 2%nat gelu_dy /\
  exists dx, GELUFn.backward (snd (GELUFn.forward gelu_x)) gelu_dy = Ok dx /\
    has_shape 1%nat 2%nat dx /\ mget dx 0%nat 1%nat = mget gelu_dy 0%nat 1%nat * gelu' (mget gelu_x 0%nat 1%nat) /\
    derivable_pt_lim (fun h => dotm gelu_dy (fst (GELUFn.forward (perturb gelu_x 0%nat 1%nat h)))) 0
      (mget dx 0%nat 1%nat).
Proof.
  assert (Hs : has_shape 1%nat 2%nat gelu_dy) by (repeat split; repeat constructor).
  split; [exact Hs |].
  exact (gelu_backward_vjp gelu_x gelu_dy 0%nat 1%nat Hs ltac:(simpl; lia) ltac:(simpl; lia)).
Defined.

Lemma gelu_forward_spec_witness :
  mget (fst (GELUFn.forward gelu_x)) 0%nat 0%nat =
  0.5 * 1 * (1 + tanh (sqrt (2 / PI) * (1 + 0.044715 * 1 ^ 3))).
Proof.
  exact (proj2 (proj2 (gelu_forward_spec gelu_x)) 0%nat 0%nat ltac:(simpl; lia) ltac:(simpl; lia)).
Defined.

Lemma gelu_backward_shape_error_witness :
  GELUFn.backward (snd (GELUFn.forward gelu_x)) (Mat 1 3 [[1; 1; 1]]) = Err ShapeError.
Proof. apply gelu_backward_shape_error. right. reflexivity. Defined.
