(* ===== verification/CrossEntropyOp.v ===== *)
(** * [CrossEntropyFn] and the [CrossEntropy] module ([src/src/modules.py], lines 9-31)

    [forward(x, y)] takes logits [x] of shape [(T, C)] and integer targets
    [y], computes the row softmax [s = exp x / (exp x).sum(1).unsqueeze(1)]
    (without subtracting the row maximum), gathers [s[arange(T), y]] and
    returns [-(log of the gathered values).mean(0)]; it saves [(x, y, s)].
    [backward(y_grad)] returns [y_grad * (s - eye(C)[y]) / T] and [None].

    Gathering with the two index tensors [arange(T)] and [y] follows torch's
    advanced indexing: the index tensors are broadcast together ([bdim]),
    so a target list of length 1 is used for every row; an incompatible
    length or a target outside [[-C, C)] raises [IndexError]. *)

From Stdlib Require Import List Arith Lia ZArith Bool Reals Lra.
From S2P Require Import Prelude Tensor Autograd Calculus.
Import ListNotations.
Local Open Scope R_scope.

Module CrossEntropyFn.
Local Open Scope result_scope.

(** [s[torch.arange(T), y]]: the index tensors [arange(T)] and [y] are
    broadcast to a common length [L]; entry [l] is [s[l', y[l'']]] where
    [l'] and [l''] are [l] read in each index tensor. *)
Definition pick (s : mat R) (T : nat) (y : list Z) : result (list R) :=
  match bdim T (length y) with
  | None => Err IndexError
  | Some L =>
      cs <- resolve_index (ncols s) (tabulate L (fun l => nth (bidx (length y) l) y 0%Z)) ;;
      Ok (tabulate L (fun l => mget s (bidx T l) (nth l cs 0%nat)))
  end.

(** [torch.eye(C)[y]]: one one-hot row per target. *)
Definition eye_rows (C : nat) (y : list Z) : result (mat R) :=
  cs <- resolve_index C y ;;
  Ok (tab (length cs) C (fun l c => if c =? nth l cs 0%nat then 1 else 0)).

(** [v.mean(0)] of a vector. *)
Definition mean0 (v : list R) : R := sumn (length v) (vget v) / INR (length v).

(** [ctx.save_for_backward(x, y, s)] *)
Record ctx := Ctx { saved_x : mat R; saved_y : list Z; saved_s : mat R }.

Definition forward (x : mat R) (y : list Z) : result (R * ctx) :=
  let T := nrows x in
  let ex := mmap exp x in
  s <- bmap2 Rdiv ex (unsqueeze1 (sum1 ex)) ;;
  p <- pick s T y ;;
  Ok (- mean0 (map ln p), Ctx x y s).

(** [y_grad] is the scalar upstream gradient of the loss. *)
Definition backward (c : ctx) (y_grad : R) : result (mat R * option (list Z)) :=
  let T := nrows (saved_x c) in
  let C := ncols (saved_x c) in
  e <- eye_rows C (saved_y c) ;;
  d <- bmap2 Rminus (saved_s c) e ;;
  Ok (mmap (fun v => y_grad * v / INR T) d, None).

(** [class CrossEntropyFn(ag.Function)] *)
Definition function : autograd_fn :=
  AutogradFn (mat R * list Z) ctx R R (mat R * option (list Z))
    (fun '(x, y) => forward x y) backward.
End CrossEntropyFn.

(** The [CrossEntropy] module has no parameter:
    [forward(x, y) = CrossEntropyFn.apply(x, y)]. *)
Module CrossEntropyModule.
Definition forward (x : mat R) (y : list Z) : result R :=
  match CrossEntropyFn.forward x y with
  | Ok (l, _) => Ok l
  | Err e => Err e
  end.
End CrossEntropyModule.

(** ** The loss in closed form *)

Section CrossEntropyProofs.
Import CrossEntropyFn.

(** The row softmax [s[t][c] = exp x[t][c] / sum_c' exp x[t][c']]. *)
Definition softmax (x : mat R) : mat R :=
  tab (nrows x) (ncols x)
      (fun t c => exp (mget x t c) / sumn (ncols x) (fun c' => exp (mget x t c'))).

(** The mean negative log-likelihood of the targets [y] (one per row). *)
Definition ce_loss (x : mat R) (y : list Z) : R :=
  - (sumn (nrows x) (fun t => ln (mget (softmax x) t (py_wrap (ncols x) (nth t y 0%Z))))
     / INR (nrows x)).

(** The loss [forward] returns, as a function of its result. *)
Definition loss_of (r : result (R * ctx)) : R :=
  match r with Ok (l, _) => l | Err _ => 0 end.

(** Targets of one per row, each in [[-C, C)]. *)
Definition targets_ok (x : mat R) (y : list Z) : Prop :=
  length y = nrows x /\
  forall k, In k y -> (- Z.of_nat (ncols x) <= k < Z.of_nat (ncols x))%Z.

Lemma softmax_code x :
  bmap2 Rdiv (mmap exp x) (unsqueeze1 (sum1 (mmap exp x))) = Ok (softmax x).
Proof.
  unfold sum1. rewrite bmap2_col by (simpl; now rewrite length_tabulate).
  unfold softmax, mmap; simpl. f_equal. apply tab_ext. intros t c Ht Hc.
  rewrite mget_tab by assumption. rewrite vget_tabulate by assumption.
  f_equal. apply sumn_ext. intros c' Hc'. now rewrite mget_tab.
Qed.

Lemma pick_ok x y :
  targets_ok x y ->
  pick (softmax x) (nrows x) y =
  Ok (tabulate (nrows x) (fun t => mget (softmax x) t (py_wrap (ncols x) (nth t y 0%Z)))).
Proof.
  intros [Hl Hin]. unfold pick. rewrite Hl, bdim_same.
  rewrite (tabulate_ext _ _ (fun l => nth l y 0%Z)) by (intros; now rewrite bidx_lt).
  rewrite <- Hl, tabulate_nth, resolve_index_ok by exact Hin. simpl.
  f_equal. apply tabulate_ext. intros t Ht. rewrite bidx_lt by lia.
  now rewrite nth_map_py_wrap.
Qed.

Lemma mean0_map_ln n (f : nat -> R) :
  mean0 (map ln (tabulate n f)) = sumn n (fun l => ln (f l)) / INR n.
Proof.
  unfold mean0. rewrite length_map, length_tabulate. f_equal.
  apply sumn_ext. intros l Hl. unfold vget.
  rewrite (nth_indep _ 0 (ln 0)) by (rewrite length_map, length_tabulate; exact Hl).
  rewrite map_nth. f_equal. now rewrite nth_tabulate.
Qed.

Lemma ce_forward_code x y :
  targets_ok x y -> forward x y = Ok (ce_loss x y, Ctx x y (softmax x)).
Proof.
  intros Hy. unfold forward. rewrite softmax_code. simpl. rewrite pick_ok by exact Hy.
  simpl. now rewrite mean0_map_ln.
Qed.

Lemma forward_pick x y :
  forward x y = rbind (pick (softmax x) (nrows x) y)
                      (fun p => Ok (- mean0 (map ln p), Ctx x y (softmax x))).
Proof. unfold forward. now rewrite softmax_code. Qed.

(** A successful [forward] saves the softmax of its input. *)
Lemma forward_Ok_inv x y l c :
  forward x y = Ok (l, c) ->
  c = Ctx x y (softmax x) /\ exists p, pick (softmax x) (nrows x) y = Ok p /\ l = - mean0 (map ln p).
Proof.
  rewrite forward_pick. destruct (pick (softmax x) (nrows x) y) as [p|e]; simpl; [| discriminate].
  intros Hr. injection Hr as <- <-. split; [reflexivity | eauto].
Qed.

(** Log of one softmax entry: [x[t][k] - ln (sum_c exp x[t][c])]. *)
Lemma ln_softmax x t k :
  (t < nrows x)%nat -> (k < ncols x)%nat ->
  ln (mget (softmax x) t k) = mget x t k - ln (sumn (ncols x) (fun c => exp (mget x t c))).
Proof.
  intros Ht Hk. unfold softmax. rewrite mget_tab by assumption. unfold Rdiv.
  rewrite ln_mult, ln_Rinv, ln_exp; [ring | | apply exp_pos | apply Rinv_0_lt_compat];
    apply sumn_pos; (lia || intros; apply exp_pos).
Qed.

(** The gradient in closed form. *)
Definition ce_grad (x : mat R) (y : list Z) (g : R) : mat R :=
  tab (nrows x) (ncols x) (fun t c =>
    g * (mget (softmax x) t c - (if c =? py_wrap (ncols x) (nth t y 0%Z) then 1 else 0))
      / INR (nrows x)).

Lemma ce_backward_code x y g :
  targets_ok x y -> backward (Ctx x y (softmax x)) g = Ok (ce_grad x y g, None).
Proof.
  intros [Hl Hin]. unfold backward, eye_rows; simpl. rewrite resolve_index_ok by exact Hin.
  cbn [rbind]. rewrite bmap2_same by (unfold softmax, tab; cbn [nrows ncols]; rewrite ?length_map; auto).
  cbn [rbind]. unfold ce_grad, mmap; simpl. do 2 f_equal. apply tab_ext. intros t c Ht Hc.
  tensor_simpl. now rewrite nth_map_py_wrap.
Qed.

(** ** The gradient *)

Lemma softmax_row_sum_pos x t :
  (0 < ncols x)%nat -> 0 < sumn (ncols x) (fun c => exp (mget x t c)).
Proof. intros HC. apply sumn_pos; [exact HC | intros; apply exp_pos]. Qed.

Lemma mget_softmax_perturb x i j h t k :
  (t < nrows x)%nat -> (k < ncols x)%nat ->
  mget (softmax (perturb x i j h)) t k =
  exp (mget (perturb x i j h) t k) / sumn (ncols x) (fun c => exp (mget (perturb x i j h) t c)).
Proof. intros Ht Hk. unfold softmax at 1. now rewrite mget_tab. Qed.

(** The derivative of one log-softmax term [ln s[t][k]] when the logit
    [(i, j)] moves: [[t = i] ([k = j] - s[i][j])]. *)
Lemma ce_term_deriv x i j t k :
  (0 < ncols x)%nat -> (t < nrows x)%nat -> (k < ncols x)%nat ->
  (i < nrows x)%nat -> (j < ncols x)%nat ->
  derivable_pt_lim (fun h => ln (mget (softmax (perturb x i j h)) t k)) 0
    (if t =? i then (if k =? j then 1 else 0) - mget (softmax x) i j else 0).
Proof.
  intros HC Ht Hk Hi Hj.
  set (S := sumn (ncols x) (fun c => exp (mget x t c))).
  assert (HS : 0 < S) by (apply softmax_row_sum_pos, HC).
  assert (HS0 : sumn (ncols x) (fun c => exp (mget (perturb x i j 0) t c)) = S)
    by (apply sumn_ext; intros c Hc; now rewrite mget_perturb_0).
  apply (dpl_ext (fun h => ln (exp (mget (perturb x i j h) t k) /
            sumn (ncols x) (fun c => exp (mget (perturb x i j h) t c)))));
    [intros h; now rewrite mget_softmax_perturb |].
  eapply dpl_value; [| apply dpl_ln; [apply dpl_div; [apply dpl_exp, dpl_perturb; assumption
     | apply dpl_sumn; intros c Hc; apply dpl_exp, dpl_perturb; assumption |] |]].
  - cbv beta. rewrite HS0, mget_perturb_0 by assumption.
    rewrite (sumn_ext (ncols x) _ (fun c => exp (mget x t c) *
               (if (t =? i) && (c =? j) then 1 else 0)))
      by (intros c Hc; now rewrite mget_perturb_0).
    rewrite sumn_indicator1 by exact Hj.
    pose proof (exp_pos (mget x t k)).
    destruct (Nat.eqb_spec t i) as [-> | Hne]; simpl; [| field; split; lra].
    unfold softmax. rewrite mget_tab by assumption. fold S.
    destruct (k =? j); simpl; field; split; lra.
  - cbv beta. rewrite HS0. lra.
  - cbv beta. rewrite HS0, mget_perturb_0 by assumption.
    apply Rdiv_lt_0_compat; [apply exp_pos | exact HS].
Qed.

Lemma targets_ok_perturb x y i j h : targets_ok x y -> targets_ok (perturb x i j h) y.
Proof. intros [Hl Hin]. split; [exact Hl | exact Hin]. Qed.

Lemma py_wrap_target_lt x y t :
  targets_ok x y -> (t < nrows x)%nat -> (py_wrap (ncols x) (nth t y 0%Z) < ncols x)%nat.
Proof. intros [Hl Hin] Ht. apply py_wrap_lt, Hin, nth_In. lia. Qed.

(** The derivative of the loss along the logit [(i, j)] is the entry
    [(i, j)] of the closed-form gradient at the unit upstream gradient. *)
Lemma ce_loss_deriv x y i j :
  targets_ok x y -> (0 < ncols x)%nat -> (i < nrows x)%nat -> (j < ncols x)%nat ->
  derivable_pt_lim (fun h => ce_loss (perturb x i j h) y) 0 (mget (ce_grad x y 1) i j).
Proof.
  intros Hy HC Hi Hj. unfold ce_loss. cbn [nrows ncols perturb tab].
  eapply dpl_value; [| apply dpl_opp, dpl_div_const, dpl_sumn;
    intros t Ht; apply ce_term_deriv; auto using py_wrap_target_lt].
  rewrite (sumn_single (nrows x) i) by
    (assumption || (intros t Ht Hne; destruct (Nat.eqb_spec t i); [lia | reflexivity])).
  unfold ce_grad. rewrite mget_tab by assumption. rewrite Nat.eqb_refl, (Nat.eqb_sym j).
  assert (HT : INR (nrows x) <> 0) by (apply not_0_INR; lia).
  destruct (_ =? j); simpl; field; exact HT.
Qed.

(** C1: the gradient contract of [CrossEntropyFn].  For logits [x] with
    [C > 0] classes and one target in [[-C, C)] per row, [forward] returns
    the loss and [backward], for the scalar upstream gradient [g], returns a
    gradient of the logits' shape (and [None] for the targets) whose entry
    [(i, j)] is the derivative at [h = 0] of [h |-> g * loss(x + h e_ij)]. *)
Theorem ce_backward_vjp x y g i j :
  targets_ok x y -> (0 < ncols x)%nat -> (i < nrows x)%nat -> (j < ncols x)%nat ->
  exists c dx, forward x y = Ok (ce_loss x y, c) /\ backward c g = Ok (dx, None) /\
    has_shape (nrows x) (ncols x) dx /\
    derivable_pt_lim (fun h => g * loss_of (forward (perturb x i j h) y)) 0 (mget dx i j).
Proof.
  intros Hy HC Hi Hj. exists (Ctx x y (softmax x)), (ce_grad x y g).
  split; [now apply ce_forward_code | split; [now apply ce_backward_code | split; [apply tab_shape |]]].
  apply (dpl_ext (fun h => g * ce_loss (perturb x i j h) y));
    [intros h; now rewrite ce_forward_code by (now apply targets_ok_perturb) |].
  eapply dpl_value; [| apply dpl_mult; [apply dpl_const | now apply ce_loss_deriv]].
  unfold ce_grad. rewrite !mget_tab by assumption.
  assert (HT : INR (nrows x) <> 0) by (apply not_0_INR; lia).
  field. exact HT.
Qed.

(** Each row of [softmax x] is a probability distribution. *)
Lemma softmax_dist x t :
  (0 < ncols x)%nat -> (t < nrows x)%nat ->
  (forall c, (c < ncols x)%nat -> 0 < mget (softmax x) t c <= 1) /\
  sumn (ncols x) (fun c => mget (softmax x) t c) = 1.
Proof.
  intros HC Ht. pose proof (softmax_row_sum_pos x t HC) as HS.
  set (S := sumn (ncols x) (fun c => exp (mget x t c))) in *.
  assert (Hrow : sumn (ncols x) (fun c => mget (softmax x) t c) = 1).
  { unfold softmax. rewrite (sumn_ext _ _ (fun c => exp (mget x t c) * / S))
      by (intros c Hc; rewrite mget_tab by assumption; reflexivity).
    transitivity (S * / S); [exact (sumn_mul_r (K := R) _ _ _) | field; lra]. }
  split; [| exact Hrow]. intros c Hc. unfold softmax. rewrite mget_tab by assumption.
  split; [apply Rdiv_lt_0_compat; [apply exp_pos | exact HS] |].
  apply Rmult_le_reg_r with S; [exact HS |]. unfold Rdiv. rewrite Rmult_assoc, Rinv_l by lra.
  rewrite Rmult_1_r, Rmult_1_l. unfold S.
  transitivity (sumn (ncols x) (fun c' => if c' =? c then exp (mget x t c') else 0)).
  { rewrite (sumn_single (ncols x) c) by
      (assumption || (intros c' _ Hne; destruct (Nat.eqb_spec c' c); [lia | reflexivity])).
    rewrite Nat.eqb_refl. lra. }
  apply sumn_le. intros c' _. destruct (c' =? c); [lra |].
  left. apply exp_pos.
Qed.

Lemma ln_nonpos v : 0 < v <= 1 -> ln v <= 0.
Proof.
  intros [H0 H1]. destruct H1 as [Hlt | ->]; [| rewrite ln_1; lra].
  left. rewrite <- ln_1. now apply ln_increasing.
Qed.

Lemma mean0_nonpos w : (forall v, In v w -> v <= 0) -> mean0 w <= 0.
Proof.
  intros Hw. unfold mean0.
  assert (Hs : sumn (length w) (vget w) <= 0).
  { rewrite <- (sumn_zero_R (length w)). apply sumn_le. intros i Hi. apply Hw, nth_In, Hi. }
  destruct (Nat.eq_dec (length w) 0) as [-> | Hn]; [simpl; unfold Rdiv; rewrite Rinv_0; lra |].
  pose proof (Rinv_0_lt_compat _ (lt_0_INR (length w) ltac:(lia))). unfold Rdiv. nra.
Qed.

(** Every value gathered from the softmax, broadcast targets included, is
    an entry of the softmax, hence in [(0, 1]]. *)
Lemma pick_softmax_in x y p :
  pick (softmax x) (nrows x) y = Ok p -> forall v, In v p -> 0 < v <= 1.
Proof.
  unfold pick. destruct (bdim (nrows x) (length y)) as [L|] eqn:HB; [| discriminate].
  unfold softmax at 1. cbn [ncols tab].
  destruct (resolve_index _ _) as [cs|e] eqn:HR; simpl; [| discriminate].
  intros Hp. injection Hp as <-. apply Forall_forall, Forall_tabulate. intros l Hl.
  pose proof (resolve_index_length _ _ _ HR) as Hlen. rewrite length_tabulate in Hlen.
  assert (Hk : (nth l cs 0%nat < ncols x)%nat) by (eapply (resolve_index_lt _ _ _ HR), nth_In; lia).
  exact (proj1 (softmax_dist x _ ltac:(lia) (bdim_bidx_lt _ _ _ _ HB Hl)) _ Hk).
Qed.

(** C24: [forward] implements the usual cross-entropy formula: for one
    target in [[-C, C)] per row it returns the mean over the rows of
    [ln (sum_c exp x[t][c]) - x[t][y_t]] (log-sum-exp minus the target
    logit) and saves [(x, y, softmax x)]. *)
Theorem ce_forward_ok x y :
  targets_ok x y ->
  forward x y =
  Ok (sumn (nrows x) (fun t => ln (sumn (ncols x) (fun k => exp (mget x t k)))
                               - mget x t (py_wrap (ncols x) (nth t y 0%Z))) / INR (nrows x),
      Ctx x y (softmax x)).
Proof.
  intros Hy. rewrite ce_forward_code by exact Hy. unfold ce_loss. do 2 f_equal. symmetry.
  rewrite (sumn_ext _ _ (fun t => - ln (mget (softmax x) t (py_wrap (ncols x) (nth t y 0%Z)))))
    by (intros t Ht; rewrite ln_softmax by (auto using py_wrap_target_lt); ring).
  rewrite Rsumn_opp. unfold Rdiv. ring.
Qed.

(** C25: after a successful [forward], [backward] with upstream gradient
    [g] returns [None] for the targets and a gradient of the logits' shape
    with [dx[t][k] = g (s[t][k] - [k = y_t]) / T]; each of its rows sums
    to zero. *)
Theorem ce_backward_ok x y l c g :
  targets_ok x y -> forward x y = Ok (l, c) ->
  exists dx, backward c g = Ok (dx, None) /\ has_shape (nrows x) (ncols x) dx /\
    (forall t k, (t < nrows x)%nat -> (k < ncols x)%nat ->
       mget dx t k = g * (mget (saved_s c) t k -
                          (if k =? py_wrap (ncols x) (nth t y 0%Z) then 1 else 0)) / INR (nrows x)) /\
    (forall t, (t < nrows x)%nat -> sumn (ncols x) (fun k => mget dx t k) = 0).
Proof.
  intros Hy Hf. destruct (forward_Ok_inv _ _ _ _ Hf) as (-> & _).
  exists (ce_grad x y g). rewrite ce_backward_code by exact Hy.
  split; [reflexivity | split; [apply tab_shape |]].
  assert (Hd : forall t k, (t < nrows x)%nat -> (k < ncols x)%nat ->
            mget (ce_grad x y g) t k = g * (mget (softmax x) t k -
              (if k =? py_wrap (ncols x) (nth t y 0%Z) then 1 else 0)) / INR (nrows x))
    by (intros; unfold ce_grad; now rewrite mget_tab).
  split; [exact Hd |]. intros t Ht.
  pose proof (py_wrap_target_lt x y t Hy Ht) as Hw. set (w := py_wrap (ncols x) (nth t y 0%Z)) in *.
  rewrite (sumn_ext _ _ (fun k => g / INR (nrows x) * mget (softmax x) t k -
                                   g / INR (nrows x) * (if k =? w then 1 else 0)))
    by (intros k Hk; rewrite Hd by assumption; fold w; cbv beta; unfold Rdiv; ring).
  transitivity (g / INR (nrows x) * sumn (ncols x) (fun k => mget (softmax x) t k) -
                g / INR (nrows x) * sumn (ncols x) (fun k => if k =? w then 1 else 0));
    [rewrite <- !Rsumn_mul_l, <- Rsumn_minus; reflexivity |].
  rewrite (proj2 (softmax_dist x t ltac:(lia) Ht)).
  rewrite (sumn_single (ncols x) w) by
    (assumption || (intros k _ Hne; destruct (Nat.eqb_spec k w); [lia | reflexivity])).
  rewrite Nat.eqb_refl. ring.
Qed.

(** C29: each row of the softmax a successful [forward] saves is a
    probability distribution: entries in [(0, 1]] summing to 1. *)
Theorem softmax_row_stochastic x y l c t :
  forward x y = Ok (l, c) -> (0 < ncols x)%nat -> (t < nrows x)%nat ->
  (forall k, (k < ncols x)%nat -> 0 < mget (saved_s c) t k <= 1) /\
  sumn (ncols x) (fun k => mget (saved_s c) t k) = 1.
Proof.
  intros Hf HC Ht. destruct (forward_Ok_inv _ _ _ _ Hf) as (-> & _).
  exact (softmax_dist x t HC Ht).
Qed.

(** whenever [forward] succeeds, broadcast targets included, the loss
    it returns is non-negative. *)
Theorem ce_loss_nonneg x y l c : forward x y = Ok (l, c) -> 0 <= l.
Proof.
  intros Hf. destruct (forward_Ok_inv _ _ _ _ Hf) as (_ & p & Hp & ->).
  enough (mean0 (map ln p) <= 0) by lra. apply mean0_nonpos. intros v Hv.
  apply in_map_iff in Hv as (u & <- & Hu). exact (ln_nonpos _ (pick_softmax_in _ _ _ Hp u Hu)).
Qed.

(** The loss term of a row whose target logit beats every other logit of
    the row by [M]. *)
Lemma neg_ln_softmax_bound x t w M :
  (t < nrows x)%nat -> (w < ncols x)%nat ->
  (forall c, (c < ncols x)%nat -> c <> w -> mget x t c + M <= mget x t w) ->
  - ln (mget (softmax x) t w) <= ln (1 + INR (ncols x - 1) * exp (- M)).
Proof.
  intros Ht Hw HM. rewrite ln_softmax by assumption.
  assert (HB : 0 < 1 + INR (ncols x - 1) * exp (- M))
    by (pose proof (pos_INR (ncols x - 1)); pose proof (exp_pos (- M)); nra).
  assert (HS : sumn (ncols x) (fun c => exp (mget x t c)) <=
               exp (mget x t w) * (1 + INR (ncols x - 1) * exp (- M))).
  { transitivity (sumn (ncols x) (fun c => if c =? w then exp (mget x t w)
                                           else exp (mget x t w) * exp (- M))).
    - apply sumn_le. intros c Hc. destruct (Nat.eqb_spec c w) as [-> | Hne]; [lra |].
      rewrite <- exp_plus. apply exp_le_mono. specialize (HM c Hc Hne). lra.
    - rewrite sumn_if_else by exact Hw. right; ring. }
  apply ln_le_mono in HS; [| apply sumn_pos; [lia | intros; apply exp_pos]].
  rewrite ln_mult, ln_exp in HS by (apply exp_pos || exact HB). lra.
Qed.

(** The loss term of a row whose target logit beats every other logit of
    the row by at most [M']. *)
Lemma neg_ln_softmax_lower x t w M' :
  (t < nrows x)%nat -> (w < ncols x)%nat ->
  (forall c, (c < ncols x)%nat -> c <> w -> mget x t w <= mget x t c + M') ->
  ln (1 + INR (ncols x - 1) * exp (- M')) <= - ln (mget (softmax x) t w).
Proof.
  intros Ht Hw HM. rewrite ln_softmax by assumption.
  assert (HB : 0 < 1 + INR (ncols x - 1) * exp (- M'))
    by (pose proof (pos_INR (ncols x - 1)); pose proof (exp_pos (- M')); nra).
  assert (HS : exp (mget x t w) * (1 + INR (ncols x - 1) * exp (- M')) <=
               sumn (ncols x) (fun c => exp (mget x t c))).
  { transitivity (sumn (ncols x) (fun c => if c =? w then exp (mget x t w)
                                           else exp (mget x t w) * exp (- M'))).
    - rewrite sumn_if_else by exact Hw. right; ring.
    - apply sumn_le. intros c Hc. destruct (Nat.eqb_spec c w) as [-> | Hne]; [lra |].
      rewrite <- exp_plus. apply exp_le_mono. specialize (HM c Hc Hne). lra. }
  apply ln_le_mono in HS; [| pose proof (exp_pos (mget x t w)); nra].
  rewrite ln_mult, ln_exp in HS by (apply exp_pos || exact HB). lra.
Qed.

(** The mean of per-row terms that all lie in [[lo, hi]] lies in
    [[lo, hi]]. *)
Lemma ce_loss_between x y lo hi :
  (0 < nrows x)%nat ->
  (forall t, (t < nrows x)%nat ->
     lo <= - ln (mget (softmax x) t (py_wrap (ncols x) (nth t y 0%Z))) <= hi) ->
  lo <= ce_loss x y <= hi.
Proof.
  intros HT Hr. pose proof (lt_0_INR (nrows x) HT) as HT'.
  set (f t := - ln (mget (softmax x) t (py_wrap (ncols x) (nth t y 0%Z)))).
  assert (Hlo : INR (nrows x) * lo <= sumn (nrows x) f)
    by (rewrite <- sumn_const_R; apply sumn_le; intros t Ht; apply Hr, Ht).
  assert (Hhi : sumn (nrows x) f <= INR (nrows x) * hi)
    by (rewrite <- sumn_const_R; apply sumn_le; intros t Ht; apply Hr, Ht).
  unfold ce_loss. unfold f in Hlo, Hhi. rewrite Rsumn_opp in Hlo, Hhi.
  split; apply (Rmult_le_reg_r (INR (nrows x))); try exact HT'; unfold Rdiv;
    rewrite Ropp_mult_distr_l, Rmult_assoc, Rinv_l by lra; lra.
Qed.

(** C30: the loss measures the margin of the target logits, and tends to 0
    on confidently right logits as the spec asks of one-hot logits: on a
    non-empty batch where, in every row, the target logit exceeds each
    other logit by at least [M] and at most [M'], the loss [forward]
    returns lies between [ln (1 + (C - 1) exp (- M'))] and
    [ln (1 + (C - 1) exp (- M))] (both equal to the loss when every margin
    is [M]). *)
Theorem ce_loss_margin_bound x y M M' :
  targets_ok x y -> (0 < nrows x)%nat ->
  (forall t c, (t < nrows x)%nat -> (c < ncols x)%nat -> c <> py_wrap (ncols x) (nth t y 0%Z) ->
     mget x t c + M <= mget x t (py_wrap (ncols x) (nth t y 0%Z)) <= mget x t c + M') ->
  exists l c, forward x y = Ok (l, c) /\
    ln (1 + INR (ncols x - 1) * exp (- M')) <= l <= ln (1 + INR (ncols x - 1) * exp (- M)).
Proof.
  intros Hy HT HM. exists (ce_loss x y), (Ctx x y (softmax x)). split; [now apply ce_forward_code |].
  apply ce_loss_between; [exact HT |]. intros t Ht.
  split; [apply neg_ln_softmax_lower | apply neg_ln_softmax_bound];
    auto using py_wrap_target_lt; intros c Hc Hne; apply (HM t c Ht Hc Hne).
Qed.

(** [x] with [m[t]] subtracted from row [t], e.g. the row maximum of the
    numerically stable formulation. *)
Definition row_shift (x : mat R) (m : list R) : mat R :=
  tab (nrows x) (ncols x) (fun t c => mget x t c - vget m t).

Lemma softmax_row_shift x m : softmax (row_shift x m) = softmax x.
Proof.
  unfold softmax, row_shift at 2 3. cbn [nrows ncols tab]. apply tab_ext. intros t c Ht Hc.
  rewrite (sumn_ext _ _ (fun c' => exp (mget x t c') * exp (- vget m t)))
    by (intros c' Hc'; unfold row_shift; rewrite mget_tab by assumption;
        unfold Rminus; apply exp_plus).
  unfold row_shift. rewrite mget_tab by assumption. unfold Rminus. rewrite exp_plus.
  pose proof (exp_pos (- vget m t)). pose proof (softmax_row_sum_pos x t ltac:(lia)).
  transitivity (exp (mget x t c) * exp (- vget m t) /
                (sumn (ncols x) (fun c' => exp (mget x t c')) * exp (- vget m t)));
    [f_equal; exact (sumn_mul_r (K := R) _ _ _) | field; lra].
Qed.

(** C28: subtracting any per-row constant from the logits, such as the row
    maximum of a numerically stable implementation, changes neither the loss
    nor the saved softmax: the code's direct exponentiation is equivalent to
    the stable formulation in exact arithmetic. *)
Theorem ce_shift_invariant x y m :
  targets_ok x y ->
  exists c c', forward (row_shift x m) y = Ok (ce_loss x y, c) /\ forward x y = Ok (ce_loss x y, c') /\
    saved_s c = saved_s c'.
Proof.
  intros Hy. assert (Hy' : targets_ok (row_shift x m) y) by (destruct Hy; split; assumption).
  exists (Ctx (row_shift x m) y (softmax (row_shift x m))), (Ctx x y (softmax x)).
  rewrite !ce_forward_code by assumption. split; [| split; [reflexivity | apply softmax_row_shift]].
  unfold ce_loss. rewrite softmax_row_shift. reflexivity.
Qed.




Lemma pick_single s T k : pick s T [k] = pick s T (repeat k T).
Proof.
  unfold pick. rewrite repeat_length, bdim_same. cbn [length]. rewrite bdim_1_r.
  rewrite (tabulate_ext T (fun l => nth (bidx 1 l) [k] 0%Z)
             (fun l => nth (bidx T l) (repeat k T) 0%Z)); [reflexivity |].
  intros l Hl. rewrite (bidx_lt T l Hl), nth_repeat_lt by assumption. reflexivity.
Qed.

(** C13: a list of one target is not refused: torch broadcasts the index
    tensors [arange(T)] and [y], so [forward] and [backward] run as if the
    single target were repeated for every row.  The spec asks for a shape
    error when the lengths differ. *)
Theorem ce_single_target_broadcast x k g :
  (- Z.of_nat (ncols x) <= k < Z.of_nat (ncols x))%Z ->
  forward x [k] = Ok (ce_loss x (repeat k (nrows x)), Ctx x [k] (softmax x)) /\
  backward (Ctx x [k] (softmax x)) g = Ok (ce_grad x (repeat k (nrows x)) g, None).
Proof.
  intros Hk. assert (Hy : targets_ok x (repeat k (nrows x))).
  { split; [apply repeat_length |]. intros k' Hk'. apply repeat_spec in Hk'. now subst. }
  split.
  - pose proof (ce_forward_code x _ Hy) as Hr. rewrite forward_pick in Hr |- *.
    rewrite pick_single. destruct (pick (softmax x) (nrows x) (repeat k (nrows x))) as [p|e];
      simpl in *; [| discriminate].
    injection Hr as Hl. now rewrite Hl.
  - unfold backward, eye_rows. cbn [saved_x saved_y saved_s].
    rewrite resolve_index_ok by (intros k' [<- | []]; exact Hk). cbn [rbind map length].
    rewrite bmap2_bcast_r by reflexivity. cbn [rbind].
    unfold ce_grad, mmap, softmax at 1 2. cbn [nrows ncols tab]. do 2 f_equal.
    apply tab_ext. intros t c Ht Hc. rewrite !mget_tab by (simpl; lia).
    rewrite nth_repeat_lt by assumption. reflexivity.
Qed.

(** With a single row of logits, [forward] averages over the broadcast
    targets. *)
Lemma forward_row1 x y :
  nrows x = 1%nat ->
  (forall k, In k y -> (- Z.of_nat (ncols x) <= k < Z.of_nat (ncols x))%Z) ->
  forward x y =
  Ok (- (sumn (length y) (fun l => ln (mget (softmax x) 0 (py_wrap (ncols x) (nth l y 0%Z))))
         / INR (length y)), Ctx x y (softmax x)).
Proof.
  intros H1 Hin. rewrite forward_pick. unfold pick. unfold softmax at 1. cbn [nrows ncols tab].
  rewrite H1, bdim_1_l.
  rewrite (tabulate_ext _ _ (fun l => nth l y 0%Z)) by (intros; now rewrite bidx_lt).
  rewrite tabulate_nth, resolve_index_ok by exact Hin. cbn [rbind].
  rewrite (tabulate_ext _ _ (fun l => mget (softmax x) 0 (py_wrap (ncols x) (nth l y 0%Z))))
    by (intros l Hl; now rewrite nth_map_py_wrap).
  now rewrite mean0_map_ln.
Qed.

(** With a single row of logits, [backward] broadcasts the softmax row
    against the [L] one-hot target rows. *)
Lemma backward_row1 x y g :
  nrows x = 1%nat ->
  (forall k, In k y -> (- Z.of_nat (ncols x) <= k < Z.of_nat (ncols x))%Z) ->
  backward (Ctx x y (softmax x)) g =
  Ok (mmap (fun v => g * v / INR 1)
        (tab (length y) (ncols x) (fun l c => mget (softmax x) 0 c -
           (if c =? py_wrap (ncols x) (nth l y 0%Z) then 1 else 0))), None).
Proof.
  intros H1 Hin. unfold backward, eye_rows. cbn [saved_x saved_y saved_s].
  rewrite resolve_index_ok by exact Hin.
  cbn [rbind]. rewrite bmap2_bcast_l by (unfold softmax; simpl; rewrite ?length_map; auto).
  cbn [rbind]. rewrite H1, length_map. do 3 f_equal. apply tab_ext. intros l c Hl Hc.
  tensor_simpl. now rewrite nth_map_py_wrap.
Qed.

(** C12: logits with a single row and several targets are not refused
    either: the targets broadcast against [arange(1)], [forward] averages
    the loss over the [L] targets, and [backward] returns a gradient with
    [L] rows for a one-row input, each row scaled by [1/T = 1].  The
    derivative of the loss is the average of these rows, so the reduction
    of the extra rows by summation gives [L] times the gradient. *)
Theorem ce_single_row_many_targets x y g j :
  nrows x = 1%nat -> (0 < ncols x)%nat -> (2 <= length y)%nat -> (j < ncols x)%nat ->
  (forall k, In k y -> (- Z.of_nat (ncols x) <= k < Z.of_nat (ncols x))%Z) ->
  exists c dx,
    forward x y =
      Ok (- (sumn (length y) (fun l => ln (mget (softmax x) 0 (py_wrap (ncols x) (nth l y 0%Z))))
             / INR (length y)), c) /\
    backward c g = Ok (dx, None) /\ nrows dx = length y /\ ncols dx = ncols x /\
    derivable_pt_lim (fun h => g * loss_of (forward (perturb x 0 j h) y)) 0
      (sumn (length y) (fun l => mget dx l j) / INR (length y)).
Proof.
  intros H1 HC HL Hj Hin. set (L := length y). set (w l := py_wrap (ncols x) (nth l y 0%Z)).
  eexists _, _. split; [now apply forward_row1 |].
  split; [now apply backward_row1 |]. split; [reflexivity | split; [reflexivity |]].
  apply (dpl_ext (fun h => g * - (sumn L (fun l => ln (mget (softmax (perturb x 0 j h)) 0 (w l))) / INR L)));
    [intros h; rewrite forward_row1 by (simpl; assumption); reflexivity |].
  eapply dpl_value; [| apply dpl_mult; [apply dpl_const | apply dpl_opp, dpl_div_const, dpl_sumn;
    intros l Hl; apply ce_term_deriv; try lia; apply py_wrap_lt, Hin, nth_In; lia]].
  unfold mmap. rewrite !nrows_tab, !ncols_tab.
  match goal with |- _ = sumn L ?f / _ =>
    rewrite (sumn_ext L f (fun l => g * - ((if w l =? j then 1 else 0) - mget (softmax x) 0 j)))
      by (intros l Hl; rewrite !mget_tab by assumption; rewrite (Nat.eqb_sym j); unfold w; simpl; field)
  end.
  rewrite Rsumn_mul_l, Rsumn_opp. simpl. field. apply not_0_INR. lia.
Qed.
End CrossEntropyProofs.

(** ** Witnesses *)

Definition ce_x : mat R := Mat 2 3 [[1; 0; 2]; [0; 3; 1]].
Definition ce_y : list Z := [2; -3]%Z.

Lemma ce_targets_ok : targets_ok ce_x ce_y.
Proof. split; [reflexivity | simpl; intros k [<- | [<- | []]]; lia]. Qed.

Lemma ce_backward_vjp_witness :
  targets_ok ce_x ce_y /\
  exists c dx, CrossEntropyFn.forward ce_x ce_y = Ok (ce_loss ce_x ce_y, c) /\
    CrossEntropyFn.backward c 1 = Ok (dx, None) /\ has_shape 2 3 dx /\
    derivable_pt_lim (fun h => 1 * loss_of (CrossEntropyFn.forward (perturb ce_x 1 2 h) ce_y)) 0
      (mget dx 1 2).
Proof.
  split; [exact ce_targets_ok |].
  exact (ce_backward_vjp ce_x ce_y 1 1 2 ce_targets_ok ltac:(simpl; lia) ltac:(simpl; lia)
           ltac:(simpl; lia)).
Defined.

Lemma ce_forward_ok_witness :
  CrossEntropyFn.forward ce_x ce_y =
  Ok (sumn 2 (fun t => ln (sumn 3 (fun k => exp (mget ce_x t k)))
                       - mget ce_x t (py_wrap 3 (nth t ce_y 0%Z))) / INR 2,
      CrossEntropyFn.Ctx ce_x ce_y (softmax ce_x)).
Proof. exact (ce_forward_ok ce_x ce_y ce_targets_ok). Defined.

Lemma ce_backward_ok_witness :
  exists dx, CrossEntropyFn.backward (CrossEntropyFn.Ctx ce_x ce_y (softmax ce_x)) 2 = Ok (dx, None) /\
    has_shape 2 3 dx /\
    (forall t k, (t < 2)%nat -> (k < 3)%nat ->
       mget dx t k = 2 * (mget (softmax ce_x) t k -
                          (if k =? py_wrap 3 (nth t ce_y 0%Z) then 1 else 0)) / INR 2) /\
    (forall t, (t < 2)%nat -> sumn 3 (fun k => mget dx t k) = 0).
Proof.
  exact (ce_backward_ok ce_x ce_y _ _ 2 ce_targets_ok (ce_forward_code ce_x ce_y ce_targets_ok)).
Defined.

Lemma softmax_row_stochastic_witness :
  (forall k, (k < 3)%nat -> 0 < mget (softmax ce_x) 1 k <= 1) /\
  sumn 3 (fun k => mget (softmax ce_x) 1 k) = 1.
Proof.
  exact (softmax_row_stochastic ce_x ce_y _ _ 1 (ce_forward_code ce_x ce_y ce_targets_ok)
           ltac:(simpl; lia) ltac:(simpl; lia)).
Defined.

Lemma ce_loss_nonneg_witness : 0 <= ce_loss ce_x ce_y.
Proof.
  exact (ce_loss_nonneg ce_x ce_y _ (CrossEntropyFn.Ctx ce_x ce_y (softmax ce_x))
           (ce_forward_code ce_x ce_y ce_targets_ok)).
Defined.

Lemma ce_shift_invariant_witness :
  exists c c', CrossEntropyFn.forward (row_shift ce_x [2; 3]) ce_y = Ok (ce_loss ce_x ce_y, c) /\
    CrossEntropyFn.forward ce_x ce_y = Ok (ce_loss ce_x ce_y, c') /\
    CrossEntropyFn.saved_s c = CrossEntropyFn.saved_s c'.
Proof. exact (ce_shift_invariant ce_x ce_y [2; 3] ce_targets_ok). Defined.


Lemma ce_single_target_broadcast_witness :
  CrossEntropyFn.forward ce_x [1]%Z = Ok (ce_loss ce_x [1; 1]%Z, CrossEntropyFn.Ctx ce_x [1]%Z (softmax ce_x)) /\
  CrossEntropyFn.backward (CrossEntropyFn.Ctx ce_x [1]%Z (softmax ce_x)) 1 =
    Ok (ce_grad ce_x [1; 1]%Z 1, None).
Proof. exact (ce_single_target_broadcast ce_x 1%Z 1 ltac:(simpl; lia)). Defined.

Definition ce_x1 : mat R := Mat 1 3 [[1; 0; 2]].

Lemma ce_single_row_many_targets_witness :
  exists c dx,
    CrossEntropyFn.forward ce_x1 [0; 2]%Z =
      Ok (- (sumn 2 (fun l => ln (mget (softmax ce_x1) 0 (py_wrap 3 (nth l [0; 2]%Z 0%Z))))
             / INR 2), c) /\
    CrossEntropyFn.backward c 1 = Ok (dx, None) /\ nrows dx = 2%nat /\ ncols dx = 3%nat /\
    derivable_pt_lim (fun h => 1 * loss_of (CrossEntropyFn.forward (perturb ce_x1 0 1 h) [0; 2]%Z)) 0
      (sumn 2 (fun l => mget dx l 1) / INR 2).
Proof.
  exact (ce_single_row_many_targets ce_x1 [0; 2]%Z 1 1 eq_refl ltac:(simpl; lia) ltac:(simpl; lia)
           ltac:(simpl; lia) ltac:(simpl; intros k [<- | [<- | []]]; lia)).
Defined.

Lemma ce_loss_margin_bound_witness :
  exists l c, CrossEntropyFn.forward ce_x ce_y = Ok (l, c) /\
    ln (1 + INR (3 - 1) * exp (- 2)) <= l <= ln (1 + INR (3 - 1) * exp (- -3)).
Proof.
  apply (ce_loss_margin_bound ce_x ce_y (-3) 2 ce_targets_ok); [simpl; lia |].
  intros t c Ht Hc Hne. simpl in Ht, Hc.
  destruct t as [|[|t]]; [| | lia]; destruct c as [|[|[|c]]]; try lia;
    vm_compute in Hne; try (exfalso; apply Hne; reflexivity); unfold mget; simpl; lra.
Defined.
