(* ===== verification/LayerNormOp.v ===== *)
(** * [LayerNormFn] and the [LayerNorm] module ([src/src/modules.py], lines 34-73)

    Row-wise normalisation of a [(T, C)] input [x] over the feature axis:
<<
    m = x.mean(1);  mu = x - m.unsqueeze(1);  v = mean(mu ** 2, 1)
    sigma = rsqrt(v + eps);  y = mu * sigma.unsqueeze(1) * gamma.unsqueeze(0) + beta.unsqueeze(0)
>>
    with [eps = 1e-05], saving [(x, gamma, beta, m, mu, v, sigma, y)].  The
    backward pass returns [dgamma = einsum('tc,tc,t->c', y_grad, mu, sigma)],
    [dbeta = y_grad.sum(0)] and the input gradient
<<
    y_grad * gamma.unsqueeze(0) * sigma.unsqueeze(1)
      - 1/C * einsum('tc,c,t->t', y_grad, gamma, sigma).unsqueeze(1)
      - 1/C * mu * einsum('tc,c,tc,t->t', y_grad, gamma, mu, sigma ** 3).unsqueeze(1)
>>
    Modelled over [R], each tensor operation a step of the [result] monad:
    the broadcasting arithmetic is [bmap2], and [einsum] broadcasts a
    subscript of size 1 against the others, as torch does. *)

From Stdlib Require Import List Arith Lia ZArith Bool Reals Lra.
From S2P Require Import Prelude Tensor Autograd Calculus.
Import ListNotations.
Local Open Scope R_scope.

Module LayerNormFn.
Local Open Scope result_scope.

(** [eps = 1e-05] *)
Definition eps : R := / 100000.

(** [A.mean(1)]: the mean of each row. *)
Definition mean1 (A : mat R) : list R := map (fun s => s / INR (ncols A)) (sum1 A).

(** The common size of a subscript occurring in three operands. *)
Definition bdim3 (a b c : nat) : option nat :=
  match bdim a b with Some d => bdim d c | None => None end.

(** [einsum('tc,tc,t->c', g, u, s)] *)
Definition einsum_tc_tc_t (g u : mat R) (s : list R) : result (list R) :=
  match bdim3 (nrows g) (nrows u) (length s), bdim (ncols g) (ncols u) with
  | Some T, Some C =>
      Ok (tabulate C (fun c => sumn T (fun t =>
            mget g (bidx (nrows g) t) (bidx (ncols g) c) *
            mget u (bidx (nrows u) t) (bidx (ncols u) c) * vget s (bidx (length s) t))))
  | _, _ => Err ShapeError
  end.

(** [einsum('tc,c,t->t', g, w, s)] *)
Definition einsum_tc_c_t (g : mat R) (w s : list R) : result (list R) :=
  match bdim (nrows g) (length s), bdim (ncols g) (length w) with
  | Some T, Some C =>
      Ok (tabulate T (fun t => sumn C (fun c =>
            mget g (bidx (nrows g) t) (bidx (ncols g) c) *
            vget w (bidx (length w) c) * vget s (bidx (length s) t))))
  | _, _ => Err ShapeError
  end.

(** [einsum('tc,c,tc,t->t', g, w, u, s)] *)
Definition einsum_tc_c_tc_t (g : mat R) (w : list R) (u : mat R) (s : list R) : result (list R) :=
  match bdim3 (nrows g) (nrows u) (length s), bdim3 (ncols g) (length w) (ncols u) with
  | Some T, Some C =>
      Ok (tabulate T (fun t => sumn C (fun c =>
            mget g (bidx (nrows g) t) (bidx (ncols g) c) * vget w (bidx (length w) c) *
            mget u (bidx (nrows u) t) (bidx (ncols u) c) * vget s (bidx (length s) t))))
  | _, _ => Err ShapeError
  end.

(** [ctx.save_for_backward(x, gamma, beta, m, mu, v, sigma, y)] *)
Record ctx := Ctx {
  saved_x : mat R; saved_gamma : list R; saved_beta : list R; saved_m : list R;
  saved_mu : mat R; saved_v : list R; saved_sigma : list R; saved_y : mat R }.

Definition forward (x : mat R) (gamma beta : list R) : result (mat R * ctx) :=
  let m := mean1 x in
  mu <- bmap2 Rminus x (unsqueeze1 m) ;;
  let v := mean1 (mmap (fun a => a ^ 2) mu) in
  let sigma := map (fun a => / sqrt (a + eps)) v in
  p <- bmap2 Rmult mu (unsqueeze1 sigma) ;;
  q <- bmap2 Rmult p (unsqueeze0 gamma) ;;
  y <- bmap2 Rplus q (unsqueeze0 beta) ;;
  Ok (y, Ctx x gamma beta m mu v sigma y).

Definition backward (c : ctx) (y_grad : mat R) : result (mat R * list R * list R) :=
  let C := ncols (saved_x c) in
  let gamma := saved_gamma c in
  let mu := saved_mu c in
  let sigma := saved_sigma c in
  dgamma <- einsum_tc_tc_t y_grad mu sigma ;;
  let dbeta := sum0 y_grad in
  a1 <- bmap2 Rmult y_grad (unsqueeze0 gamma) ;;
  a2 <- bmap2 Rmult a1 (unsqueeze1 sigma) ;;
  e1 <- einsum_tc_c_t y_grad gamma sigma ;;
  a3 <- bmap2 Rminus a2 (mmap (fun a => 1 / INR C * a) (unsqueeze1 e1)) ;;
  e2 <- einsum_tc_c_tc_t y_grad gamma mu (map (fun s => s ^ 3) sigma) ;;
  a4 <- bmap2 Rmult (mmap (fun a => 1 / INR C * a) mu) (unsqueeze1 e2) ;;
  dx <- bmap2 Rminus a3 a4 ;;
  Ok (dx, dgamma, dbeta).

(** [class LayerNormFn(ag.Function)] *)
Definition function : autograd_fn :=
  AutogradFn (mat R * list R * list R) ctx (mat R) (mat R) (mat R * list R * list R)
    (fun '(x, gamma, beta) => forward x gamma beta) backward.
End LayerNormFn.

(** The [LayerNorm] module: parameters [gamma], [beta] of length [c_dim],
    initialised to ones and zeros. *)
Module LayerNormModule.
Record t := Mk { gamma : list R; beta : list R }.

Definition init (c_dim : nat) : t := Mk (repeat 1 c_dim) (repeat 0 c_dim).

Definition forward (m : t) (x : mat R) : result (mat R) :=
  match LayerNormFn.forward x (gamma m) (beta m) with
  | Ok (y, _) => Ok y
  | Err e => Err e
  end.
End LayerNormModule.

(** ** The forward pass in closed form *)

Section LayerNormForward.
Import LayerNormFn.

(** Row mean, centred value, variance, inverse deviation and output. *)
Definition row_mean (x : mat R) (t : nat) : R := sumn (ncols x) (fun c => mget x t c) / INR (ncols x).
Definition ln_mu (x : mat R) (t c : nat) : R := mget x t c - row_mean x t.
Definition ln_var (x : mat R) (t : nat) : R := sumn (ncols x) (fun c => ln_mu x t c ^ 2) / INR (ncols x).
Definition ln_sigma (x : mat R) (t : nat) : R := / sqrt (ln_var x t + eps).
Definition ln_y (x : mat R) (gamma beta : list R) (t c : nat) : R :=
  ln_mu x t c * ln_sigma x t * vget gamma c + vget beta c.

(** The context [forward] saves. *)
Definition ln_ctx (x : mat R) (gamma beta : list R) : ctx :=
  Ctx x gamma beta (tabulate (nrows x) (row_mean x)) (tab (nrows x) (ncols x) (ln_mu x))
      (tabulate (nrows x) (ln_var x)) (tabulate (nrows x) (ln_sigma x))
      (tab (nrows x) (ncols x) (ln_y x gamma beta)).

Lemma mean1_tab r c f : mean1 (tab r c f) = tabulate r (fun t => sumn c (f t) / INR c).
Proof.
  unfold mean1, sum1. rewrite map_tabulate, nrows_tab, ncols_tab. apply tabulate_ext.
  intros t Ht. f_equal. apply sumn_ext. intros k Hk. now rewrite mget_tab.
Qed.

Lemma mean1_rows x : mean1 x = tabulate (nrows x) (row_mean x).
Proof. unfold mean1, sum1. now rewrite map_tabulate. Qed.

Lemma ln_mu_code x : bmap2 Rminus x (unsqueeze1 (mean1 x)) = Ok (tab (nrows x) (ncols x) (ln_mu x)).
Proof.
  rewrite bmap2_col by (now rewrite mean1_rows, length_tabulate). f_equal. apply tab_ext.
  intros t c Ht Hc. rewrite mean1_rows, vget_tabulate by exact Ht. reflexivity.
Qed.

Lemma ln_sigma_code x :
  map (fun a => / sqrt (a + eps)) (mean1 (mmap (fun a => a ^ 2) (tab (nrows x) (ncols x) (ln_mu x)))) =
  tabulate (nrows x) (ln_sigma x).
Proof.
  rewrite mmap_tab, mean1_tab, map_tabulate. apply tabulate_ext. intros t Ht. reflexivity.
Qed.

Lemma ln_forward_code x gamma beta :
  length gamma = ncols x -> length beta = ncols x ->
  forward x gamma beta = Ok (tab (nrows x) (ncols x) (ln_y x gamma beta), ln_ctx x gamma beta).
Proof.
  intros Hg Hb. unfold forward. rewrite ln_mu_code. cbn [rbind]. rewrite ln_sigma_code.
  rewrite bmap2_col_tab by apply length_tabulate. cbn [rbind].
  rewrite bmap2_row_tab by exact Hg. cbn [rbind]. rewrite bmap2_row_tab by exact Hb. cbn [rbind].
  unfold ln_ctx. rewrite mean1_rows, mmap_tab, mean1_tab.
  assert (Hy : tab (nrows x) (ncols x) (fun i j => ln_mu x i j * vget (tabulate (nrows x) (ln_sigma x)) i *
                 vget gamma j + vget beta j) = tab (nrows x) (ncols x) (ln_y x gamma beta))
    by (apply tab_ext; intros t c Ht Hc; now rewrite vget_tabulate).
  rewrite Hy. reflexivity.
Qed.
Lemma eps_pos : 0 < eps.
Proof. unfold eps. apply Rinv_0_lt_compat. lra. Qed.

(** The centred values of a row sum to zero. *)
Lemma sum_ln_mu x t : (0 < ncols x)%nat -> sumn (ncols x) (fun c => ln_mu x t c) = 0.
Proof.
  intros HC. unfold ln_mu. rewrite Rsumn_minus, sumn_const_R. unfold row_mean.
  change (sumn (ncols x) (mget x t)) with (sumn (ncols x) (fun c => mget x t c)).
  pose proof (lt_0_INR _ HC). field. lra.
Qed.

Lemma ln_var_nonneg x t : (0 < ncols x)%nat -> 0 <= ln_var x t.
Proof.
  intros HC. unfold ln_var. apply Rle_mult_inv_pos; [| exact (lt_0_INR _ HC)].
  rewrite <- (sumn_zero_R (ncols x)). apply sumn_le. intros c _. apply pow2_ge_0.
Qed.

Lemma ln_var_eps_pos x t : (0 < ncols x)%nat -> 0 < ln_var x t + eps.
Proof. intros HC. pose proof (ln_var_nonneg x t HC). pose proof eps_pos. lra. Qed.

(** Whatever the lengths of [gamma] and [beta], a successful [forward]
    saves the input, the parameters and the row statistics. *)
Lemma ln_forward_Ok_inv x gamma beta y c :
  forward x gamma beta = Ok (y, c) ->
  saved_x c = x /\ saved_gamma c = gamma /\ saved_beta c = beta /\
  saved_mu c = tab (nrows x) (ncols x) (ln_mu x) /\ saved_v c = tabulate (nrows x) (ln_var x) /\
  saved_sigma c = tabulate (nrows x) (ln_sigma x).
Proof.
  unfold forward. rewrite ln_mu_code. cbn [rbind]. rewrite ln_sigma_code.
  destruct (bmap2 Rmult _ _) as [p|e]; cbn [rbind]; [| discriminate].
  destruct (bmap2 Rmult p _) as [q|e]; cbn [rbind]; [| discriminate].
  destruct (bmap2 Rplus q _) as [y'|e]; cbn [rbind]; [| discriminate].
  intros Hr. injection Hr as _ <-. cbn [saved_x saved_gamma saved_beta saved_mu saved_v saved_sigma].
  rewrite mmap_tab, mean1_tab. repeat split.
Qed.

End LayerNormForward.

(** ** The backward pass in closed form *)

Section LayerNormBackward.
Import LayerNormFn.

(** The input gradient and the gain gradient for an upstream gradient
    with entries [g t c]. *)
Definition ln_dx (x : mat R) (gamma : list R) (g : nat -> nat -> R) (t c : nat) : R :=
  g t c * vget gamma c * ln_sigma x t
  - 1 / INR (ncols x) * sumn (ncols x) (fun k => g t k * vget gamma k * ln_sigma x t)
  - 1 / INR (ncols x) * ln_mu x t c *
      sumn (ncols x) (fun k => g t k * vget gamma k * ln_mu x t k * ln_sigma x t ^ 3).

Definition ln_dgamma (x : mat R) (g : nat -> nat -> R) (c : nat) : R :=
  sumn (nrows x) (fun t => g t c * ln_mu x t c * ln_sigma x t).

Lemma bdim3_same n : bdim3 n n n = Some n.
Proof. unfold bdim3. now rewrite !bdim_same. Qed.

Lemma einsum_tc_tc_t_tab T C f g s :
  length s = T ->
  einsum_tc_tc_t (tab T C f) (tab T C g) s =
  Ok (tabulate C (fun c => sumn T (fun t => f t c * g t c * vget s t))).
Proof.
  intros Hs. unfold einsum_tc_tc_t. rewrite !nrows_tab, !ncols_tab, Hs, bdim3_same, bdim_same.
  f_equal. apply tabulate_ext. intros c Hc. apply sumn_ext. intros t Ht.
  rewrite (bidx_lt T t Ht), (bidx_lt C c Hc), !mget_tab by assumption. reflexivity.
Qed.

Lemma einsum_tc_c_t_tab T C f w s :
  length w = C -> length s = T ->
  einsum_tc_c_t (tab T C f) w s =
  Ok (tabulate T (fun t => sumn C (fun c => f t c * vget w c * vget s t))).
Proof.
  intros Hw Hs. unfold einsum_tc_c_t. rewrite !nrows_tab, !ncols_tab, Hw, Hs, !bdim_same.
  f_equal. apply tabulate_ext. intros t Ht. apply sumn_ext. intros c Hc.
  rewrite (bidx_lt T t Ht), (bidx_lt C c Hc), !mget_tab by assumption. reflexivity.
Qed.

Lemma einsum_tc_c_tc_t_tab T C f w g s :
  length w = C -> length s = T ->
  einsum_tc_c_tc_t (tab T C f) w (tab T C g) s =
  Ok (tabulate T (fun t => sumn C (fun c => f t c * vget w c * g t c * vget s t))).
Proof.
  intros Hw Hs. unfold einsum_tc_c_tc_t. rewrite !nrows_tab, !ncols_tab, Hw, Hs, !bdim3_same.
  f_equal. apply tabulate_ext. intros t Ht. apply sumn_ext. intros c Hc.
  rewrite (bidx_lt T t Ht), (bidx_lt C c Hc), !mget_tab by assumption. reflexivity.
Qed.

Lemma ln_backward_code_tab x gamma beta g :
  length gamma = ncols x ->
  backward (ln_ctx x gamma beta) (tab (nrows x) (ncols x) g) =
  Ok (tab (nrows x) (ncols x) (ln_dx x gamma g), tabulate (ncols x) (ln_dgamma x g),
      sum0 (tab (nrows x) (ncols x) g)).
Proof.
  intros Hg. unfold backward, ln_ctx. cbn [saved_x saved_gamma saved_mu saved_sigma].
  rewrite einsum_tc_tc_t_tab by apply length_tabulate. cbn [rbind].
  rewrite bmap2_row_tab by exact Hg. cbn [rbind].
  rewrite bmap2_col_tab by apply length_tabulate. cbn [rbind].
  rewrite einsum_tc_c_t_tab by (exact Hg || apply length_tabulate). cbn [rbind].
  rewrite mmap_unsqueeze1, length_tabulate, bmap2_tab_col. cbn [rbind].
  rewrite map_tabulate, einsum_tc_c_tc_t_tab by (exact Hg || apply length_tabulate). cbn [rbind].
  rewrite mmap_tab, bmap2_col_tab by apply length_tabulate. cbn [rbind].
  rewrite bmap2_tab_tab. cbn [rbind]. f_equal. f_equal. f_equal.
  - apply tab_ext. intros t c Ht Hc. rewrite !vget_tabulate by assumption.
    unfold ln_dx. reflexivity.
  - apply tabulate_ext. intros c Hc. unfold ln_dgamma. apply sumn_ext. intros t Ht.
    now rewrite vget_tabulate.
Qed.

Lemma ln_backward_code x gamma beta dy :
  length gamma = ncols x -> has_shape (nrows x) (ncols x) dy ->
  backward (ln_ctx x gamma beta) dy =
  Ok (tab (nrows x) (ncols x) (ln_dx x gamma (mget dy)), tabulate (ncols x) (ln_dgamma x (mget dy)),
      sum0 dy).
Proof.
  intros Hg (Hw & Hr & Hc).
  assert (E : tab (nrows x) (ncols x) (mget dy) = dy)
    by (rewrite <- Hr, <- Hc; symmetry; apply wf_tab, Hw).
  rewrite <- E at 1. rewrite ln_backward_code_tab by exact Hg. now rewrite E.
Qed.

(** [backward] reads four of the eight saved tensors: the width of [x],
    [gamma], [mu] and [sigma].  Contexts that agree on those give the same
    gradients, whatever they hold for [beta], [m], [v], [y] and the rows
    of [x]. *)
Lemma layernorm_backward_reads c c' dy :
  ncols (saved_x c) = ncols (saved_x c') -> saved_gamma c = saved_gamma c' ->
  saved_mu c = saved_mu c' -> saved_sigma c = saved_sigma c' ->
  backward c dy = backward c' dy.
Proof. intros Hx Hg Hm Hs. unfold backward. now rewrite Hx, Hg, Hm, Hs. Qed.
End LayerNormBackward.

(** ** The input gradient: derivatives of the normalisation

    The entry [(i, j)] of [x] moves by [h].  Only row [i] changes: its
    centred values move by [[c = j] - 1/C], its variance by [2 mu[i][j] / C]
    and its inverse deviation by [- mu[i][j] sigma[i]^3 / C]. *)

Section LayerNormGradient.
Import LayerNormFn.
Variables (x : mat R) (i j : nat).
Hypotheses (Hwf : wf x) (Hi : (i < nrows x)%nat) (Hj : (j < ncols x)%nat).

Lemma INR_C_pos : 0 < INR (ncols x).
Proof. apply lt_0_INR. lia. Qed.

(** The movement of the centred value [mu[t][c]]. *)
Definition dmu (t c : nat) : R :=
  (if (t =? i) && (c =? j) then 1 else 0) - (if t =? i then 1 else 0) / INR (ncols x).

(** The movement of the inverse deviation [sigma[t]]. *)
Definition dsigma (t : nat) : R :=
  if t =? i then - ln_mu x i j * ln_sigma x i ^ 3 / INR (ncols x) else 0.

Lemma d_row_mean t :
  (t < nrows x)%nat ->
  derivable_pt_lim (fun h => row_mean (perturb x i j h) t) 0 ((if t =? i then 1 else 0) / INR (ncols x)).
Proof.
  intros Ht. apply (dpl_ext (fun h => sumn (ncols x) (fun c => mget (perturb x i j h) t c) / INR (ncols x)));
    [reflexivity |].
  eapply dpl_value; [| apply dpl_div_const, dpl_sumn; intros c Hc; apply dpl_perturb; assumption].
  f_equal. rewrite (sumn_ext _ _ (fun q => 1 * (if (t =? i) && (q =? j) then 1 else 0)))
    by (intros; ring). rewrite sumn_indicator1 by exact Hj. reflexivity.
Qed.

Lemma d_mu t c :
  (t < nrows x)%nat -> (c < ncols x)%nat ->
  derivable_pt_lim (fun h => ln_mu (perturb x i j h) t c) 0 (dmu t c).
Proof.
  intros Ht Hc. unfold ln_mu, dmu. apply dpl_minus; [apply dpl_perturb; assumption |].
  now apply d_row_mean.
Qed.

Lemma d_var t :
  (t < nrows x)%nat ->
  derivable_pt_lim (fun h => ln_var (perturb x i j h) t) 0
    (if t =? i then 2 * ln_mu x i j / INR (ncols x) else 0).
Proof.
  intros Ht. pose proof INR_C_pos as HC.
  apply (dpl_ext (fun h => sumn (ncols x) (fun c => ln_mu (perturb x i j h) t c ^ 2) / INR (ncols x)));
    [reflexivity |].
  eapply dpl_value; [| apply dpl_div_const, dpl_sumn; intros c Hc; apply dpl_pow, d_mu; assumption].
  cbv beta. rewrite perturb_0 by exact Hwf. unfold dmu. simpl Nat.pred.
  destruct (Nat.eqb_spec t i) as [-> | Hne]; simpl andb.
  - rewrite (sumn_ext _ _ (fun c => 2 * ln_mu x i c * (if c =? j then 1 else 0)
                                  - 2 / INR (ncols x) * ln_mu x i c)) by (intros; simpl; field; lra).
    rewrite Rsumn_minus, Rsumn_mul_l, sumn_pick, sum_ln_mu by (exact Hj || lia). field. lra.
  - rewrite (sumn_ext _ _ (fun _ => 0)) by (intros; simpl; field; lra).
    rewrite sumn_zero_R. field. lra.
Qed.
Lemma d_sigma t :
  (t < nrows x)%nat -> derivable_pt_lim (fun h => ln_sigma (perturb x i j h) t) 0 (dsigma t).
Proof.
  intros Ht. pose proof INR_C_pos as HC. pose proof (ln_var_eps_pos x t ltac:(lia)) as Hv.
  pose proof (sqrt_lt_R0 _ Hv) as Hs. unfold ln_sigma.
  eapply dpl_value; [| apply dpl_inv; [apply dpl_sqrt; [apply dpl_plus; [apply d_var, Ht | apply dpl_const] |] |]];
    cbv beta; rewrite ?perturb_0 by exact Hwf; [| exact Hv | apply Rgt_not_eq, Hs].
  unfold dsigma, ln_sigma. destruct (Nat.eqb_spec t i) as [-> | Hne]; field; lra.
Qed.

Lemma d_y gamma beta t c :
  (t < nrows x)%nat -> (c < ncols x)%nat ->
  derivable_pt_lim (fun h => ln_y (perturb x i j h) gamma beta t c) 0
    ((dmu t c * ln_sigma x t + ln_mu x t c * dsigma t) * vget gamma c).
Proof.
  intros Ht Hc. unfold ln_y.
  eapply dpl_value; [| apply dpl_plus; [apply dpl_mult; [apply dpl_mult; [apply d_mu | apply d_sigma]
                                                        | apply dpl_const] | apply dpl_const]];
    try assumption.
  cbv beta. rewrite perturb_0 by exact Hwf. ring.
Qed.

(** Summing the movements of row [t] against the upstream gradient gives
    the code's input gradient on row [i] and nothing elsewhere. *)
Lemma ln_row_term gamma (g : nat -> nat -> R) t :
  sumn (ncols x) (fun c => g t c * ((dmu t c * ln_sigma x t + ln_mu x t c * dsigma t) * vget gamma c)) =
  if t =? i then ln_dx x gamma g i j else 0.
Proof.
  pose proof INR_C_pos as HC. unfold dmu, dsigma.
  destruct (Nat.eqb_spec t i) as [-> | Hne]; simpl andb.
  - rewrite (sumn_ext _ _ (fun c => g i c * vget gamma c * ln_sigma x i * (if c =? j then 1 else 0)
                 - 1 / INR (ncols x) * (g i c * vget gamma c * ln_sigma x i)
                 - 1 / INR (ncols x) * ln_mu x i j *
                     (g i c * vget gamma c * ln_mu x i c * ln_sigma x i ^ 3)))
      by (intros; field; lra).
    rewrite !Rsumn_minus, !Rsumn_mul_l, sumn_pick by exact Hj. unfold ln_dx. ring.
  - rewrite (sumn_ext _ _ (fun _ => 0)) by (intros; field; lra). apply sumn_zero_R.
Qed.

(** The derivative of [h |-> <dy, forward(x + h e_ij)>]. *)
Lemma d_objective gamma beta dy :
  length gamma = ncols x -> length beta = ncols x -> nrows dy = nrows x -> ncols dy = ncols x ->
  derivable_pt_lim (fun h => dotm dy (out_of (forward (perturb x i j h) gamma beta))) 0
    (ln_dx x gamma (mget dy) i j).
Proof.
  intros Hg Hb Hr Hc.
  apply (dpl_ext (fun h => sumn (nrows x) (fun t => sumn (ncols x) (fun c =>
                             mget dy t c * ln_y (perturb x i j h) gamma beta t c)))).
  { intros h. rewrite ln_forward_code by assumption. cbn [out_of].
    rewrite dotm_tab_r by assumption. reflexivity. }
  eapply dpl_value; [| apply dpl_sumn; intros t Ht; apply dpl_sumn; intros c Hc';
                       apply dpl_mult; [apply dpl_const | apply d_y; assumption]].
  rewrite (sumn_ext _ _ (fun t => if t =? i then ln_dx x gamma (mget dy) i j else 0)).
  - apply sumn_if_eq, Hi.
  - intros t Ht. rewrite <- ln_row_term. apply sumn_ext. intros c Hc'. ring.
Qed.
End LayerNormGradient.

(** ** Properties of [LayerNormFn] *)

Section LayerNormProofs.
Import LayerNormFn.

(** Two rows with the same entries have the same statistics and output. *)
Lemma ln_y_row_ext x gamma beta t t' k :
  (forall c, (c < ncols x)%nat -> mget x t c = mget x t' c) -> (k < ncols x)%nat ->
  ln_y x gamma beta t k = ln_y x gamma beta t' k.
Proof.
  intros He Hk.
  assert (Hm : row_mean x t = row_mean x t') by (unfold row_mean; f_equal; apply sumn_ext; exact He).
  assert (Hmu : forall c, (c < ncols x)%nat -> ln_mu x t c = ln_mu x t' c)
    by (intros c Hc; unfold ln_mu; now rewrite He, Hm).
  assert (Hv : ln_var x t = ln_var x t')
    by (unfold ln_var; f_equal; apply sumn_ext; intros c Hc; now rewrite Hmu).
  unfold ln_y, ln_sigma. now rewrite Hmu, Hv.
Qed.

(** The squared normalised values of a row average to [v / (v + eps)]. *)
Lemma ln_normalised_var x t :
  (0 < ncols x)%nat ->
  sumn (ncols x) (fun k => (ln_mu x t k * ln_sigma x t) ^ 2) / INR (ncols x) =
  ln_var x t / (ln_var x t + eps).
Proof.
  intros HC. pose proof (lt_0_INR _ HC) as HC'. pose proof (ln_var_eps_pos x t HC) as Hv.
  transitivity (ln_var x t * ln_sigma x t ^ 2).
  { unfold ln_var. rewrite (sumn_ext _ _ (fun k => ln_mu x t k ^ 2 * ln_sigma x t ^ 2)) by (intros; ring).
    rewrite Rsumn_mul_r. field. lra. }
  unfold ln_sigma. assert (Hs : sqrt (ln_var x t + eps) * sqrt (ln_var x t + eps) = ln_var x t + eps)
    by (apply sqrt_sqrt; lra).
  pose proof (sqrt_lt_R0 _ Hv). rewrite <- Hs at 2. field. lra.
Qed.


(** C2: the gradient contract for the input.  For a well-formed input of
    shape [(T, C)], parameters of length [C] and an upstream gradient of the
    output's shape, [backward] returns a gradient [dx] of the input's shape
    whose entry [(i, j)] is the derivative at [h = 0] of
    [h |-> <dy, forward(x + h e_ij)>]: the three terms of the code are the
    exact Jacobian contraction through the row mean and deviation. *)
Theorem layernorm_backward_vjp x gamma beta dy i j :
  wf x -> length gamma = ncols x -> length beta = ncols x ->
  has_shape (nrows x) (ncols x) dy -> (i < nrows x)%nat -> (j < ncols x)%nat ->
  exists y c dx dgamma dbeta,
    forward x gamma beta = Ok (y, c) /\ backward c dy = Ok (dx, dgamma, dbeta) /\
    has_shape (nrows x) (ncols x) dx /\
    derivable_pt_lim (fun h => dotm dy (out_of (forward (perturb x i j h) gamma beta))) 0 (mget dx i j).
Proof.
  intros Hw Hg Hb Hdy Hi Hj. rewrite ln_forward_code by assumption.
  do 5 eexists. split; [reflexivity |]. rewrite ln_backward_code by assumption.
  split; [reflexivity | split; [auto with tensor |]]. tensor_simpl.
  destruct Hdy as (_ & Hr & Hc). now apply d_objective.
Qed.
(** The derivative of [h |-> <dy, forward(x, G h, B h)>] for parameters
    moving along curves [G], [B] of the input's width, entry by entry. *)
Lemma d_objective_params x (G B : R -> list R) dy (D : nat -> nat -> R) :
  (forall h, length (G h) = ncols x) -> (forall h, length (B h) = ncols x) ->
  nrows dy = nrows x -> ncols dy = ncols x ->
  (forall t c, (t < nrows x)%nat -> (c < ncols x)%nat ->
     derivable_pt_lim (fun h => ln_y x (G h) (B h) t c) 0 (D t c)) ->
  derivable_pt_lim (fun h => dotm dy (out_of (forward x (G h) (B h)))) 0
    (sumn (nrows x) (fun t => sumn (ncols x) (fun c => mget dy t c * D t c))).
Proof.
  intros HG HB Hr Hc HD.
  apply (dpl_ext (fun h => sumn (nrows x) (fun t => sumn (ncols x) (fun c =>
                             mget dy t c * ln_y x (G h) (B h) t c)))).
  { intros h. rewrite ln_forward_code by auto. cbn [out_of]. now rewrite dotm_tab_r. }
  eapply dpl_value; [| apply dpl_sumn; intros t Ht; apply dpl_sumn; intros c Hc';
                       apply dpl_mult; [apply dpl_const | auto]].
  apply sumn_ext. intros t _. apply sumn_ext. intros c _. ring.
Qed.

(** C3: the gradient contract for the parameters: the entries [k] of
    [dgamma] and [dbeta] are the derivatives at [h = 0] of
    [h |-> <dy, forward(x, gamma + h e_k, beta)>] and
    [h |-> <dy, forward(x, gamma, beta + h e_k)>]. *)
Theorem layernorm_param_grads x gamma beta dy k :
  length gamma = ncols x -> length beta = ncols x ->
  has_shape (nrows x) (ncols x) dy -> (k < ncols x)%nat ->
  exists y c dx dgamma dbeta,
    forward x gamma beta = Ok (y, c) /\ backward c dy = Ok (dx, dgamma, dbeta) /\
    length dgamma = ncols x /\ length dbeta = ncols x /\
    derivable_pt_lim (fun h => dotm dy (out_of (forward x (vperturb gamma k h) beta))) 0 (vget dgamma k) /\
    derivable_pt_lim (fun h => dotm dy (out_of (forward x gamma (vperturb beta k h)))) 0 (vget dbeta k).
Proof.
  intros Hg Hb Hdy Hk. pose proof Hdy as (_ & Hr & Hc). rewrite ln_forward_code by assumption.
  do 5 eexists. split; [reflexivity |]. rewrite ln_backward_code by assumption.
  split; [reflexivity |]. split; [apply length_tabulate | split; [rewrite length_sum0; exact Hc |]].
  split.
  - eapply dpl_value; [| apply (d_objective_params x (fun h => vperturb gamma k h) (fun _ => beta) dy
                               (fun t c => ln_mu x t c * ln_sigma x t * (if c =? k then 1 else 0)));
      try (intros; rewrite ?length_vperturb; assumption)].
    + rewrite vget_tabulate by exact Hk. unfold ln_dgamma. apply sumn_ext. intros t Ht.
      transitivity (sumn (ncols x) (fun c => mget dy t c * ln_mu x t c * ln_sigma x t *
                                             (if c =? k then 1 else 0)));
        [apply sumn_ext; intros; ring
        | exact (sumn_pick _ _ (fun c => mget dy t c * ln_mu x t c * ln_sigma x t) Hk)].
    + intros t c Ht Hc'. unfold ln_y. eapply dpl_value; [| apply dpl_plus;
        [apply dpl_mult; [apply dpl_const | apply dpl_vperturb; lia] | apply dpl_const]]. cbv beta; ring.
  - eapply dpl_value; [| apply (d_objective_params x (fun _ => gamma) (fun h => vperturb beta k h) dy
                               (fun t c => if c =? k then 1 else 0));
      try (intros; rewrite ?length_vperturb; assumption)].
    + rewrite vget_sum0, Hr by lia. apply sumn_ext. intros t Ht.
      exact (sumn_pick _ _ (fun c => mget dy t c) Hk).
    + intros t c Ht Hc'. unfold ln_y. eapply dpl_value; [| apply dpl_plus;
        [apply dpl_const | apply dpl_vperturb; lia]]. cbv beta; ring.
Qed.

(** C26: with parameters of the input's width, [forward] returns the
    [(T, C)] tensor [y[t][k] = (x[t][k] - m_t) / sqrt(v_t + eps) * gamma[k] + beta[k]],
    [m_t] the mean and [v_t] the (biased) variance of row [t], and saves it. *)
Theorem layernorm_forward_spec x gamma beta :
  length gamma = ncols x -> length beta = ncols x ->
  exists y c, forward x gamma beta = Ok (y, c) /\ has_shape (nrows x) (ncols x) y /\ saved_y c = y /\
    forall t k, (t < nrows x)%nat -> (k < ncols x)%nat ->
      mget y t k =
      (mget x t k - sumn (ncols x) (fun q => mget x t q) / INR (ncols x)) /
        sqrt (sumn (ncols x) (fun q => (mget x t q - sumn (ncols x) (fun p => mget x t p) / INR (ncols x)) ^ 2)
              / INR (ncols x) + / 100000) * vget gamma k + vget beta k.
Proof.
  intros Hg Hb. rewrite ln_forward_code by assumption. do 2 eexists.
  split; [reflexivity | split; [apply tab_shape | split; [reflexivity |]]].
  intros t k Ht Hk. now rewrite mget_tab.
Qed.
(** C15: the normalisation property as the code has it.  After any
    successful [forward], each row of the normalised values
    [mu[t][k] * sigma[t]] (the output before the gain and bias) has mean 0
    and mean square [v_t / (v_t + eps)], which is below 1: the [eps] inside
    the square root shrinks the variance, all the way to 0 on a row of
    equal entries. *)
Theorem layernorm_normalised_moments x gamma beta y c t :
  forward x gamma beta = Ok (y, c) -> (0 < ncols x)%nat -> (t < nrows x)%nat ->
  sumn (ncols x) (fun k => mget (saved_mu c) t k * vget (saved_sigma c) t) / INR (ncols x) = 0 /\
  sumn (ncols x) (fun k => (mget (saved_mu c) t k * vget (saved_sigma c) t) ^ 2) / INR (ncols x) =
    vget (saved_v c) t / (vget (saved_v c) t + eps) /\
  vget (saved_v c) t / (vget (saved_v c) t + eps) < 1.
Proof.
  intros Hf HC Ht. destruct (ln_forward_Ok_inv _ _ _ _ _ Hf) as (_ & _ & _ & -> & -> & ->).
  rewrite !vget_tabulate by exact Ht.
  pose proof (ln_var_nonneg x t HC). pose proof eps_pos.
  split; [| split].
  - rewrite (sumn_ext _ _ (fun k => ln_mu x t k * ln_sigma x t)) by (intros; now rewrite mget_tab).
    rewrite Rsumn_mul_r, sum_ln_mu by exact HC. unfold Rdiv. ring.
  - rewrite (sumn_ext _ _ (fun k => (ln_mu x t k * ln_sigma x t) ^ 2)) by (intros; now rewrite mget_tab).
    now apply ln_normalised_var.
  - apply (Rmult_lt_reg_r (ln_var x t + eps)); [lra |]. unfold Rdiv.
    rewrite Rmult_assoc, Rinv_l by lra. lra.
Qed.

(** The centred values of a row of equal entries are 0. *)
Lemma ln_mu_const x t a k :
  (forall k, (k < ncols x)%nat -> mget x t k = a) -> (k < ncols x)%nat -> ln_mu x t k = 0.
Proof.
  intros Ha Hk. unfold ln_mu, row_mean.
  rewrite (sumn_ext _ _ (fun _ => a)) by exact Ha. rewrite sumn_const_R, Ha by exact Hk.
  pose proof (lt_0_INR (ncols x) ltac:(lia)). field. lra.
Qed.

(** C16: a row of equal entries has centred values and variance 0, and the
    [eps = 1e-5] inside the square root keeps its saved inverse deviation
    finite, [1 / sqrt(0 + 1e-5) = sqrt(1e5)], where [1 / sqrt v] would
    divide by zero; its normalised row is therefore 0 (not a row of
    variance 1) and its output row is the bias. *)
Theorem layernorm_constant_row x gamma beta y c t a :
  length gamma = ncols x -> length beta = ncols x -> forward x gamma beta = Ok (y, c) ->
  (t < nrows x)%nat -> (forall k, (k < ncols x)%nat -> mget x t k = a) ->
  vget (saved_v c) t = 0 /\ vget (saved_sigma c) t = sqrt 100000 /\
  forall k, (k < ncols x)%nat -> mget (saved_mu c) t k = 0 /\ mget y t k = vget beta k.
Proof.
  intros Hg Hb Hf Ht Ha. pose proof Hf as Hf'.
  destruct (ln_forward_Ok_inv _ _ _ _ _ Hf') as (_ & _ & _ & -> & -> & ->).
  rewrite ln_forward_code in Hf by assumption. injection Hf as <- _.
  rewrite !vget_tabulate by exact Ht.
  assert (Hv : ln_var x t = 0).
  { unfold ln_var. rewrite (sumn_ext _ _ (fun _ => 0)) by (intros k Hk; rewrite (ln_mu_const x t a k Ha Hk); ring).
    rewrite sumn_zero_R. unfold Rdiv. ring. }
  split; [exact Hv | split].
  - unfold ln_sigma, eps. rewrite Hv, Rplus_0_l, sqrt_inv. apply Rinv_inv.
  - intros k Hk. tensor_simpl. split; [exact (ln_mu_const x t a k Ha Hk) |].
    unfold ln_y. rewrite (ln_mu_const x t a k Ha Hk). ring.
Qed.

(** rows with equal entries give equal output rows, whatever the other
    rows of the batch. *)
Theorem layernorm_identical_rows x gamma beta y c t t' :
  length gamma = ncols x -> length beta = ncols x -> forward x gamma beta = Ok (y, c) ->
  (t < nrows x)%nat -> (t' < nrows x)%nat ->
  (forall k, (k < ncols x)%nat -> mget x t k = mget x t' k) ->
  forall k, (k < ncols x)%nat -> mget y t k = mget y t' k.
Proof.
  intros Hg Hb Hf Ht Ht' He k Hk. rewrite ln_forward_code in Hf by assumption.
  injection Hf as <- _. tensor_simpl. now apply ln_y_row_ext.
Qed.

(** C32: a gain whose length does not broadcast against the input's
    width [C] (it is neither [C] nor [1], and [C] is not [1]) raises a
    shape error; so does, with a gain of width [C], a bias whose length
    does not broadcast against [C].  An input of width 1 broadcasts
    against a gain and a bias of any length. *)
Theorem layernorm_forward_errors x gamma beta :
  (bdim (ncols x) (length gamma) = None -> forward x gamma beta = Err ShapeError) /\
  (length gamma = ncols x -> bdim (ncols x) (length beta) = None -> forward x gamma beta = Err ShapeError).
Proof.
  unfold forward. rewrite ln_mu_code. cbn [rbind]. rewrite ln_sigma_code.
  rewrite bmap2_col_tab by apply length_tabulate. cbn [rbind]. split.
  - intros Hb. rewrite bmap2_row_err by (now rewrite ncols_tab). reflexivity.
  - intros Hg Hb. rewrite bmap2_row_tab by exact Hg. cbn [rbind].
    rewrite bmap2_row_err by (now rewrite ncols_tab). reflexivity.
Qed.

(** C27: each row of the input gradient sums to zero: the output does not
    move when a row of the input is shifted by a constant. *)
Theorem layernorm_dx_row_sum x gamma beta dy y c t :
  length gamma = ncols x -> length beta = ncols x -> forward x gamma beta = Ok (y, c) ->
  has_shape (nrows x) (ncols x) dy -> (0 < ncols x)%nat -> (t < nrows x)%nat ->
  exists dx dgamma dbeta, backward c dy = Ok (dx, dgamma, dbeta) /\
    sumn (ncols x) (fun k => mget dx t k) = 0.
Proof.
  intros Hg Hb Hf Hdy HC Ht. rewrite ln_forward_code in Hf by assumption. injection Hf as _ <-.
  rewrite ln_backward_code by assumption. do 3 eexists. split; [reflexivity |].
  rewrite (sumn_ext _ _ (fun k => ln_dx x gamma (mget dy) t k)) by (intros; now rewrite mget_tab).
  unfold ln_dx.
  set (S1 := sumn (ncols x) (fun k => mget dy t k * vget gamma k * ln_sigma x t)).
  set (S2 := sumn (ncols x) (fun k => mget dy t k * vget gamma k * ln_mu x t k * ln_sigma x t ^ 3)).
  rewrite (sumn_ext _ _ (fun k => mget dy t k * vget gamma k * ln_sigma x t - 1 / INR (ncols x) * S1
                                  - 1 / INR (ncols x) * S2 * ln_mu x t k)) by (intros; ring).
  rewrite !Rsumn_minus, sumn_const_R, Rsumn_mul_l, sum_ln_mu by exact HC.
  pose proof (lt_0_INR _ HC). unfold S1. field. lra.
Qed.
(** the module initialised by [LayerNorm(c_dim)] ([gamma] ones,
    [beta] zeros) returns the plain normalisation of an input of width
    [c_dim]. *)
Theorem layernorm_module_init x :
  LayerNormModule.forward (LayerNormModule.init (ncols x)) x =
  Ok (tab (nrows x) (ncols x) (fun t k => (mget x t k - row_mean x t) / sqrt (ln_var x t + eps))).
Proof.
  unfold LayerNormModule.forward, LayerNormModule.init. cbn [LayerNormModule.gamma LayerNormModule.beta].
  rewrite ln_forward_code by apply repeat_length. f_equal. apply tab_ext. intros t k Ht Hk.
  unfold ln_y, ln_mu, ln_sigma, vget. rewrite !nth_repeat_lt by exact Hk. unfold Rdiv. ring.
Qed.
End LayerNormProofs.

(** ** Witnesses *)

Definition ln_x : mat R := Mat 2 2 [[1; 3]; [2; 2]].
Definition ln_g : list R := [2; 1].
Definition ln_b : list R := [0; 5].
Definition ln_dy : mat R := Mat 2 2 [[1; 0]; [0; 1]].

Lemma ln_x_shape : has_shape 2 2 ln_x.
Proof. solve_shape. Qed.

Lemma ln_dy_shape : has_shape 2 2 ln_dy.
Proof. solve_shape. Qed.

Lemma ln_forward_ex :
  LayerNormFn.forward ln_x ln_g ln_b = Ok (tab 2 2 (ln_y ln_x ln_g ln_b), ln_ctx ln_x ln_g ln_b).
Proof. exact (ln_forward_code ln_x ln_g ln_b eq_refl eq_refl). Qed.

Lemma layernorm_backward_vjp_witness :
  exists y c dx dgamma dbeta,
    LayerNormFn.forward ln_x ln_g ln_b = Ok (y, c) /\ LayerNormFn.backward c ln_dy = Ok (dx, dgamma, dbeta) /\
    has_shape 2 2 dx /\
    derivable_pt_lim (fun h => dotm ln_dy (out_of (LayerNormFn.forward (perturb ln_x 0 1 h) ln_g ln_b))) 0
      (mget dx 0 1).
Proof.
  exact (layernorm_backward_vjp ln_x ln_g ln_b ln_dy 0 1 (proj1 ln_x_shape) eq_refl eq_refl ln_dy_shape
           ltac:(simpl; lia) ltac:(simpl; lia)).
Defined.

Lemma layernorm_param_grads_witness :
  exists y c dx dgamma dbeta,
    LayerNormFn.forward ln_x ln_g ln_b = Ok (y, c) /\ LayerNormFn.backward c ln_dy = Ok (dx, dgamma, dbeta) /\
    length dgamma = 2%nat /\ length dbeta = 2%nat /\
    derivable_pt_lim (fun h => dotm ln_dy (out_of (LayerNormFn.forward ln_x (vperturb ln_g 1 h) ln_b))) 0
      (vget dgamma 1) /\
    derivable_pt_lim (fun h => dotm ln_dy (out_of (LayerNormFn.forward ln_x ln_g (vperturb ln_b 1 h)))) 0
      (vget dbeta 1).
Proof. exact (layernorm_param_grads ln_x ln_g ln_b ln_dy 1 eq_refl eq_refl ln_dy_shape ltac:(simpl; lia)). Defined.

Lemma layernorm_forward_spec_witness :
  exists y c, LayerNormFn.forward ln_x ln_g ln_b = Ok (y, c) /\ has_shape 2 2 y /\ LayerNormFn.saved_y c = y /\
    forall t k, (t < 2)%nat -> (k < 2)%nat ->
      mget y t k =
      (mget ln_x t k - sumn 2 (fun q => mget ln_x t q) / INR 2) /
        sqrt (sumn 2 (fun q => (mget ln_x t q - sumn 2 (fun p => mget ln_x t p) / INR 2) ^ 2) / INR 2
              + / 100000) * vget ln_g k + vget ln_b k.
Proof. exact (layernorm_forward_spec ln_x ln_g ln_b eq_refl eq_refl). Defined.

Lemma layernorm_normalised_moments_witness :
  sumn 2 (fun k => mget (LayerNormFn.saved_mu (ln_ctx ln_x ln_g ln_b)) 0 k *
                   vget (LayerNormFn.saved_sigma (ln_ctx ln_x ln_g ln_b)) 0) / INR 2 = 0 /\
  sumn 2 (fun k => (mget (LayerNormFn.saved_mu (ln_ctx ln_x ln_g ln_b)) 0 k *
                    vget (LayerNormFn.saved_sigma (ln_ctx ln_x ln_g ln_b)) 0) ^ 2) / INR 2 =
    vget (LayerNormFn.saved_v (ln_ctx ln_x ln_g ln_b)) 0 /
      (vget (LayerNormFn.saved_v (ln_ctx ln_x ln_g ln_b)) 0 + LayerNormFn.eps) /\
  vget (LayerNormFn.saved_v (ln_ctx ln_x ln_g ln_b)) 0 /
    (vget (LayerNormFn.saved_v (ln_ctx ln_x ln_g ln_b)) 0 + LayerNormFn.eps) < 1.
Proof.
  exact (layernorm_normalised_moments ln_x ln_g ln_b _ _ 0 ln_forward_ex ltac:(simpl; lia) ltac:(simpl; lia)).
Defined.

Lemma layernorm_constant_row_witness :
  vget (LayerNormFn.saved_v (ln_ctx ln_x ln_g ln_b)) 1 = 0 /\ vget (LayerNormFn.saved_sigma (ln_ctx ln_x ln_g ln_b)) 1 = sqrt 100000 /\
  forall k, (k < 2)%nat -> mget (LayerNormFn.saved_mu (ln_ctx ln_x ln_g ln_b)) 1 k = 0 /\
    mget (tab 2 2 (ln_y ln_x ln_g ln_b)) 1 k = vget ln_b k.
Proof.
  apply (layernorm_constant_row ln_x ln_g ln_b _ _ 1 2 eq_refl eq_refl ln_forward_ex); [simpl; lia |].
  intros k Hk. simpl in Hk. destruct k as [|[|k]]; [reflexivity | reflexivity | lia].
Defined.

Definition ln_x2 : mat R := Mat 2 2 [[1; 3]; [1; 3]].

Lemma layernorm_identical_rows_witness :
  mget (tab 2 2 (ln_y ln_x2 ln_g ln_b)) 0 1 = mget (tab 2 2 (ln_y ln_x2 ln_g ln_b)) 1 1.
Proof.
  apply (layernorm_identical_rows ln_x2 ln_g ln_b _ _ 0 1 eq_refl eq_refl
           (ln_forward_code ln_x2 ln_g ln_b eq_refl eq_refl)); [simpl; lia | simpl; lia | | simpl; lia].
  intros k Hk. simpl in Hk. destruct k as [|[|k]]; [reflexivity | reflexivity | lia].
Defined.

Lemma layernorm_forward_errors_witness :
  LayerNormFn.forward ln_x [1; 1; 1] ln_b = Err ShapeError /\
  LayerNormFn.forward ln_x ln_g [0; 0; 0] = Err ShapeError.
Proof.
  split.
  - exact (proj1 (layernorm_forward_errors ln_x [1; 1; 1] ln_b) eq_refl).
  - exact (proj2 (layernorm_forward_errors ln_x ln_g [0; 0; 0]) eq_refl eq_refl).
Defined.

Lemma layernorm_dx_row_sum_witness :
  exists dx dgamma dbeta, LayerNormFn.backward (ln_ctx ln_x ln_g ln_b) ln_dy = Ok (dx, dgamma, dbeta) /\
    sumn 2 (fun k => mget dx 0 k) = 0.
Proof.
  exact (layernorm_dx_row_sum ln_x ln_g ln_b ln_dy _ _ 0 eq_refl eq_refl ln_forward_ex ln_dy_shape
           ltac:(simpl; lia) ltac:(simpl; lia)).
Defined.
