(* ===== verification/References.v ===== *)
(** * The reference implementations the harness compares against

    The harness of [src/src/modules.py] checks each operator's output with
    [torch.allclose], comparing [info["func"]] and [info["fwd_ref"]] applied
    to the drawn parameters with [atol=1e-2, rtol=1e-2].  The references are torch's own functions:
    [nn.functional.cross_entropy], [nn.functional.layer_norm],
    [nn.functional.linear], [nn.functional.gelu(approximate="tanh")],
    [torch.add] and [nn.functional.embedding].  The spec treats them as a
    drop-in oracle; [Module Ref] writes each one from its documented
    definition over [R], on the arguments the harness passes, together
    with [torch.allclose].  [allcloseb] compares tensors of one shape;
    torch's broadcasting of the two arguments is not needed here, since
    every operator returns the shape of its reference.

    The lemmas show that each operator's [forward] computes exactly its
    reference on the inputs the harness draws (targets and indices that are
    non-negative and in range), so the assertion holds with any
    non-negative tolerances. *)

From Stdlib Require Import List Arith Lia ZArith Bool Reals Lra.
From S2P Require Import Prelude Tensor AddOp LinearOp EmbeddingOp Calculus GeluOp CrossEntropyOp LayerNormOp.
Import ListNotations.
Local Open Scope R_scope.

Module Ref.

(** [F.cross_entropy(x, y)]: the mean over rows of [-log_softmax(x)[t, y[t]]]. *)
Definition cross_entropy (x : mat R) (y : list Z) : R :=
  sumn (nrows x) (fun t => ln (sumn (ncols x) (fun c => exp (mget x t c))) - mget x t (Z.to_nat (nth t y 0%Z)))
  / INR (nrows x).

(** [F.layer_norm(x, (C,), g, b)] with the default [eps = 1e-05] and the
    biased variance. *)
Definition layer_norm (x : mat R) (g b : list R) : mat R :=
  let C := ncols x in
  let mean t := sumn C (fun c => mget x t c) / INR C in
  let var t := sumn C (fun c => (mget x t c - mean t) ^ 2) / INR C in
  tab (nrows x) C (fun t c => (mget x t c - mean t) / sqrt (var t + / 100000) * vget g c + vget b c).

(** [F.linear(x, w, b)] [= x @ w.T + b], the bias broadcast along the
    rows (a bias of length 1 is added to every output column). *)
Definition linear (x w : mat R) (b : list R) : mat R :=
  tab (nrows x) (nrows w)
      (fun t o => sumn (ncols x) (fun k => mget x t k * mget w o k) + vget b (bidx (length b) o)).

(** [F.gelu(x, approximate="tanh")]. *)
Definition gelu (x : mat R) : mat R :=
  tab (nrows x) (ncols x) (fun i j =>
    0.5 * mget x i j * (1 + tanh (sqrt (2 / PI) * (mget x i j + 0.044715 * mget x i j ^ 3)))).

(** [torch.add(a, b)]: broadcasting addition. *)
Definition add (a b : mat R) : result (mat R) := bmap2 Rplus a b.

(** [F.embedding(x, emb)] on non-negative indices. *)
Definition embedding (x : list Z) (emb : mat R) : mat R :=
  tab (length x) (ncols emb) (fun t j => mget emb (Z.to_nat (nth t x 0%Z)) j).

(** The entry test of [torch.allclose]: [|a - b| <= atol + rtol * |b|]. *)
Definition closeb (atol rtol a b : R) : bool :=
  if Rle_dec (Rabs (a - b)) (atol + rtol * Rabs b) then true else false.

(** [torch.allclose(A, B, atol=atol, rtol=rtol)] on tensors of one shape. *)
Definition allcloseb (atol rtol : R) (A B : mat R) : bool :=
  (nrows A =? nrows B) && (ncols A =? ncols B) &&
  forallb (fun i => forallb (fun j => closeb atol rtol (mget A i j) (mget B i j)) (seq 0 (ncols A)))
          (seq 0 (nrows A)).
End Ref.

(** ** [allclose] is reflexive *)

Section Close.
Variables atol rtol : R.
Hypothesis Hatol : 0 <= atol.
Hypothesis Hrtol : 0 <= rtol.

Lemma closeb_refl a : Ref.closeb atol rtol a a = true.
Proof.
  unfold Ref.closeb. destruct (Rle_dec _ _) as [_ | Hn]; [reflexivity |].
  exfalso. apply Hn. rewrite Rminus_diag, Rabs_R0.
  pose proof (Rabs_pos a). nra.
Qed.

(** Entries within [atol] of each other are close, whatever the relative
    tolerance. *)
Lemma closeb_within a n : Rabs (a - n) <= atol -> Ref.closeb atol rtol a n = true.
Proof.
  intros H. unfold Ref.closeb. destruct (Rle_dec _ _) as [_ | Hn]; [reflexivity |].
  exfalso. apply Hn. pose proof (Rabs_pos n). nra.
Qed.

Lemma allcloseb_refl A : Ref.allcloseb atol rtol A A = true.
Proof.
  unfold Ref.allcloseb. rewrite !Nat.eqb_refl. cbn [andb].
  apply forallb_forall. intros i _. apply forallb_forall. intros j _. apply closeb_refl.
Qed.
End Close.

(** ** Each operator computes its reference *)

Section Refinement.

Lemma ce_forward_ref x y :
  length y = nrows x -> (forall k, In k y -> (0 <= k < Z.of_nat (ncols x))%Z) ->
  exists c, CrossEntropyFn.forward x y = Ok (Ref.cross_entropy x y, c).
Proof.
  intros Hl Hy.
  assert (Hok : targets_ok x y) by (split; [exact Hl | intros k Hk; specialize (Hy k Hk); lia]).
  assert (E : ce_loss x y = Ref.cross_entropy x y).
  { unfold ce_loss, Ref.cross_entropy. unfold Rdiv. rewrite Ropp_mult_distr_l. f_equal.
    rewrite <- Rsumn_opp. apply sumn_ext. intros t Ht.
    assert (Hk : (0 <= nth t y 0 < Z.of_nat (ncols x))%Z) by (apply Hy, nth_In; lia).
    rewrite py_wrap_nonneg by lia. rewrite ln_softmax by lia. ring. }
  rewrite ce_forward_code by exact Hok. rewrite E. eexists; reflexivity.
Qed.

Lemma ln_forward_ref x g b :
  length g = ncols x -> length b = ncols x ->
  exists c, LayerNormFn.forward x g b = Ok (Ref.layer_norm x g b, c).
Proof.
  intros Hg Hb. eexists. rewrite ln_forward_code by assumption. reflexivity.
Qed.

Lemma linear_forward_ref x w b :
  ncols x = ncols w -> length b = nrows w ->
  exists c, LinearFn.forward x w b = Ok (Ref.linear x w b, c).
Proof.
  intros Hc Hb. eexists. rewrite LinearFn.linear_forward_ok by assumption. do 3 f_equal.
  apply tab_ext. intros t o Ht Ho. unfold bidx. destruct (Nat.eqb_spec (length b) 1); [| reflexivity].
  replace o with 0%nat by lia. reflexivity.
Qed.

Lemma gelu_forward_ref x : wf x -> fst (GELUFn.forward x) = Ref.gelu x.
Proof.
  intros Hw. destruct (gelu_forward_spec x) as ((Hfw & Hfr & Hfc) & _ & He).
  apply mat_ext; [exact Hfw | apply tab_wf | exact Hfr | exact Hfc |].
  intros i j Hi Hj. rewrite He by congruence. unfold Ref.gelu. rewrite mget_tab by congruence. reflexivity.
Qed.

Lemma add_forward_ref a b :
  nrows a = nrows b -> ncols a = ncols b -> AddFn.forward a b = Ref.add a b.
Proof.
  intros Hr Hc. rewrite AddFn.add_forward_ok by assumption. unfold Ref.add.
  rewrite bmap2_same by assumption. reflexivity.
Qed.

Lemma embedding_forward_ref x emb :
  (forall i, In i x -> (0 <= i < Z.of_nat (nrows emb))%Z) ->
  exists c, EmbeddingFn.forward x emb = Ok (Ref.embedding x emb, c).
Proof.
  intros Hin. eexists. unfold EmbeddingFn.forward.
  rewrite resolve_index_ok by (intros i Hi; specialize (Hin i Hi); lia). cbn [rbind].
  do 3 f_equal. unfold gather_rows, Ref.embedding. rewrite length_map. apply tab_ext. intros t j Ht Hj.
  rewrite nth_map_py_wrap, py_wrap_nonneg by (apply Hin, nth_In, Ht). reflexivity.
Qed.
End Refinement.
