(* ===== verification/Harness.v ===== *)
(** * The test harness ([src/src/modules.py], lines 186-244)

    The [__main__] block builds a table [tests] with one entry per operator,
    in the order cross_entropy, layer_norm, linear, gelu, add, embedding.
    Each entry lists the parameters to draw: a shape tuple becomes a
    [torch.rand] tensor of that shape, and an integer tensor is drawn by
    [torch.randint(hi, size=(n,))] with entries in [[0, hi)].  For each entry
    the loop calls the operator's [apply] on the drawn parameters, compares
    the result with a [torch.nn.functional] reference, and runs [gradcheck],
    which calls [backward] with upstream gradients of the output's shape and
    needs one gradient per input with that input's shape.

    This file models the table ([test], [test_params]), what a draw may
    produce ([conformsb]), the operator's [apply] ([apply_test]) and its
    reference ([fwd_ref], from [References]), one call of [forward] then
    [backward] ([call_test]), [torch.autograd.gradcheck] ([gradcheck]),
    one iteration of the loop ([test_step]) and the loop itself
    ([main_loop], [main]), which returns the lines it prints with its
    outcome.  It proves that the [assert] always holds, that [gradcheck]'s
    own calls never fail, and what the block prints. *)

From Stdlib Require Import String List Arith Lia ZArith Bool Reals Lra.
From S2P Require Import Prelude Tensor Autograd AddOp LinearOp EmbeddingOp Calculus GeluOp CrossEntropyOp LayerNormOp References.
Import ListNotations.
Local Open Scope R_scope.

Module Harness.
Local Open Scope result_scope.

(** The keys of the [tests] dict, in its order. *)
Inductive test := TCrossEntropy | TLayerNorm | TLinear | TGelu | TAdd | TEmbedding.

Definition tests : list test := [TCrossEntropy; TLayerNorm; TLinear; TGelu; TAdd; TEmbedding].

(** An entry of ["params"]: a 2-D or 1-D shape tuple, or an index tensor
    [torch.randint(hi, size=(n,))]. *)
Inductive param := PShape2 (r c : nat) | PShape1 (n : nat) | PRandint (hi n : nat).

Definition test_params (T C : nat) (t : test) : list param :=
  match t with
  | TCrossEntropy => [PShape2 T C; PRandint (C - 1) T]
  | TLayerNorm => [PShape2 T C; PShape1 C; PShape1 C]
  | TLinear => [PShape2 T C; PShape2 C C; PShape1 C]
  | TGelu => [PShape2 T C]
  | TAdd => [PShape2 T C; PShape2 T C]
  | TEmbedding => [PRandint (T - 1) T; PShape2 T C]
  end.

(** A drawn argument, an upstream gradient, an output and a gradient. *)
Inductive arg := ATensor (m : mat R) | AVector (v : list R) | AIndex (l : list Z).
Inductive upstream := UScalar (g : R) | UTensor (dy : mat R).
Inductive out := OScalar (l : R) | OTensor (y : mat R).
Inductive grad := GTensor (m : mat R) | GVector (v : list R) | GNone.

(** The values a draw of [p] can take. *)
Definition conformsb (p : param) (a : arg) : bool :=
  match p, a with
  | PShape2 r c, ATensor m => wfb m && (nrows m =? r) && (ncols m =? c)
  | PShape1 n, AVector v => length v =? n
  | PRandint hi n, AIndex l => (length l =? n) && forallb (fun i => (0 <=? i)%Z && (i <? Z.of_nat hi)%Z) l
  | _, _ => false
  end.

(** The range of [torch.rand]: every entry of a drawn tensor lies in
    [[0, 1)]; index tensors are drawn by [randint] ([conformsb]). *)
Definition rand_range (a : arg) : Prop :=
  match a with
  | ATensor m => forall i j, (i < nrows m)%nat -> (j < ncols m)%nat -> 0 <= mget m i j < 1
  | AVector v => forall i, (i < length v)%nat -> 0 <= vget v i < 1
  | AIndex _ => True
  end.

(** A gradient [gradcheck] accepts for an input drawn from [p]. *)
Definition grad_conformsb (p : param) (g : grad) : bool :=
  match p, g with
  | PShape2 r c, GTensor m => wfb m && (nrows m =? r) && (ncols m =? c)
  | PShape1 n, GVector v => length v =? n
  | PRandint _ _, GNone => true
  | _, _ => false
  end.

Fixpoint all2 {A B} (f : A -> B -> bool) (l1 : list A) (l2 : list B) : bool :=
  match l1, l2 with
  | [], [] => true
  | a :: l1', b :: l2' => f a b && all2 f l1' l2'
  | _, _ => false
  end.

(** The upstream gradients [gradcheck] passes: a scalar for the loss, a
    tensor of the output's shape [(T, C)] otherwise. *)
Definition upstream_okb (T C : nat) (t : test) (u : upstream) : bool :=
  match t, u with
  | TCrossEntropy, UScalar _ => true
  | TCrossEntropy, UTensor _ => false
  | _, UTensor dy => wfb dy && (nrows dy =? T) && (ncols dy =? C)
  | _, UScalar _ => false
  end.

(** The output of each test's [apply]: the loss as a scalar, a tensor of
    shape [(T, C)] otherwise.  [gradcheck]'s upstream gradients have this
    shape. *)
Definition out_okb (T C : nat) (t : test) (o : out) : bool :=
  match t, o with
  | TCrossEntropy, OScalar _ => true
  | TCrossEntropy, OTensor _ => false
  | _, OTensor y => wfb y && (nrows y =? T) && (ncols y =? C)
  | _, OScalar _ => false
  end.

(** The call of [info["func"]] on the drawn parameters, then [backward] on
    its context.  Arguments of the wrong kind are a [TypeError] in Python,
    an error here. *)
Definition call_test (t : test) (args : list arg) (u : upstream) : result (out * list grad) :=
  match t, args, u with
  | TCrossEntropy, [ATensor x; AIndex y], UScalar g =>
      r <- run CrossEntropyFn.function (x, y) g ;;
      Ok (OScalar (fst r), [GTensor (fst (snd r)); GNone])
  | TLayerNorm, [ATensor x; AVector gm; AVector bt], UTensor dy =>
      r <- run LayerNormFn.function (x, gm, bt) dy ;;
      let '(dx, dg, db) := snd r in
      Ok (OTensor (fst r), [GTensor dx; GVector dg; GVector db])
  | TLinear, [ATensor x; ATensor w; AVector b], UTensor dy =>
      r <- run LinearFn.function (x, w, b) dy ;;
      let '(dx, dw, db) := snd r in
      Ok (OTensor (fst r), [GTensor dx; GTensor dw; GVector db])
  | TGelu, [ATensor x], UTensor dy =>
      r <- run GELUFn.function x dy ;;
      Ok (OTensor (fst r), [GTensor (snd r)])
  | TAdd, [ATensor a; ATensor b], UTensor dy =>
      r <- run AddFn.function (a, b) dy ;;
      Ok (OTensor (fst r), [GTensor (fst (snd r)); GTensor (snd (snd r))])
  | TEmbedding, [AIndex x; ATensor emb], UTensor dy =>
      r <- run EmbeddingFn.function (x, emb) dy ;;
      Ok (OTensor (fst r), [GNone; GTensor (snd (snd r))])
  | _, _, _ => Err ShapeError
  end.

(** The keys of [tests], as [print] writes them. *)
Definition test_name (t : test) : string :=
  match t with
  | TCrossEntropy => "cross_entropy" | TLayerNorm => "layer_norm" | TLinear => "linear"
  | TGelu => "gelu" | TAdd => "add" | TEmbedding => "embedding"
  end.

(** [info["func"]] applied to the drawn parameters: [Fn.apply], the
    [forward] of the operator alone. *)
Definition apply_test (t : test) (args : list arg) : result out :=
  match t, args with
  | TCrossEntropy, [ATensor x; AIndex y] =>
      p <- fn_forward CrossEntropyFn.function (x, y) ;; Ok (OScalar (fst p))
  | TLayerNorm, [ATensor x; AVector gm; AVector bt] =>
      p <- fn_forward LayerNormFn.function (x, gm, bt) ;; Ok (OTensor (fst p))
  | TLinear, [ATensor x; ATensor w; AVector b] =>
      p <- fn_forward LinearFn.function (x, w, b) ;; Ok (OTensor (fst p))
  | TGelu, [ATensor x] => p <- fn_forward GELUFn.function x ;; Ok (OTensor (fst p))
  | TAdd, [ATensor a; ATensor b] => p <- fn_forward AddFn.function (a, b) ;; Ok (OTensor (fst p))
  | TEmbedding, [AIndex x; ATensor emb] =>
      p <- fn_forward EmbeddingFn.function (x, emb) ;; Ok (OTensor (fst p))
  | _, _ => Err ShapeError
  end.

(** [info["fwd_ref"]] applied to the drawn parameters, with the checks the
    torch functions make: a target or index outside the table raises
    [IndexError], mismatched sizes a shape error.  [C] is the width the
    [layer_norm] entry passes as [normalized_shape=(C,)]. *)
Definition fwd_ref (C : nat) (t : test) (args : list arg) : result out :=
  match t, args with
  | TCrossEntropy, [ATensor x; AIndex y] =>
      check (length y =? nrows x) ShapeError ;;
      check (forallb (fun i => (0 <=? i)%Z && (i <? Z.of_nat (ncols x))%Z) y) IndexError ;;
      Ok (OScalar (Ref.cross_entropy x y))
  | TLayerNorm, [ATensor x; AVector gm; AVector bt] =>
      check ((ncols x =? C) && (length gm =? C) && (length bt =? C)) ShapeError ;;
      Ok (OTensor (Ref.layer_norm x gm bt))
  | TLinear, [ATensor x; ATensor w; AVector b] =>
      check ((ncols x =? ncols w) && ((length b =? nrows w) || (length b =? 1))) ShapeError ;;
      Ok (OTensor (Ref.linear x w b))
  | TGelu, [ATensor x] => Ok (OTensor (Ref.gelu x))
  | TAdd, [ATensor a; ATensor b] => y <- Ref.add a b ;; Ok (OTensor y)
  | TEmbedding, [AIndex x; ATensor emb] =>
      check (forallb (fun i => (0 <=? i)%Z && (i <? Z.of_nat (nrows emb))%Z) x) IndexError ;;
      Ok (OTensor (Ref.embedding x emb))
  | _, _ => Err ShapeError
  end.

(** [torch.allclose] on two outputs of one kind. *)
Definition out_allcloseb (atol rtol : R) (o o' : out) : bool :=
  match o, o' with
  | OScalar a, OScalar b => Ref.closeb atol rtol a b
  | OTensor A, OTensor B => Ref.allcloseb atol rtol A B
  | _, _ => false
  end.

(** *** [ag.gradcheck(info["func"], params, eps=1e-6, atol=1e-2, rtol=1e-2)]

    [torch.autograd.gradcheck] flattens every input and output in row-major
    order.  For each entry [p] of each input [k] that requires a gradient
    (the tensors drawn by [torch.rand]; the [randint] indices do not), it
    evaluates the function at the input with that entry moved by [-eps] and
    by [+eps] and takes the central difference of each output entry [q]
    (the numerical Jacobian); for each output entry [q] it calls [backward]
    with the upstream gradient that is [1] at [q] and [0] elsewhere and reads
    entry [p] of the gradient of input [k] (the analytical Jacobian).  A
    pair with [|a - n| > atol + rtol * |n|] raises [GradcheckError].  It
    then calls [backward] with a zero upstream gradient and raises if a
    gradient is not all zeros or has another size than its input. *)

(** The number of entries of an output, and its entry [q] in row-major
    order. *)
Definition out_size (o : out) : nat :=
  match o with OScalar _ => 1 | OTensor y => nrows y * ncols y end.

Definition out_at (o : out) (q : nat) : R :=
  match o with OScalar l => l | OTensor y => mget y (q / ncols y) (q mod ncols y) end.

(** The entries [gradcheck] perturbs in an input: none in an index tensor. *)
Definition arg_size (a : arg) : nat :=
  match a with ATensor m => nrows m * ncols m | AVector v => length v | AIndex _ => 0 end.

(** [x[p] += h] on the flattened input. *)
Definition arg_bump (a : arg) (p : nat) (h : R) : arg :=
  match a with
  | ATensor m => ATensor (perturb m (p / ncols m) (p mod ncols m) h)
  | AVector v => AVector (vperturb v p h)
  | AIndex l => AIndex l
  end.

Fixpoint bump_nth (args : list arg) (k p : nat) (h : R) : list arg :=
  match args, k with
  | [], _ => []
  | a :: args', O => arg_bump a p h :: args'
  | a :: args', S k' => a :: bump_nth args' k' p h
  end.

(** Entry [p] of a gradient in row-major order ([None] reads as zero). *)
Definition grad_at (g : grad) (p : nat) : R :=
  match g with
  | GTensor m => mget m (p / ncols m) (p mod ncols m)
  | GVector v => vget v p
  | GNone => 0
  end.

(** The upstream gradient that is [1] at the flat position [q] of the
    output, and the zero upstream gradient. *)
Definition onehot (o : out) (q : nat) : upstream :=
  match o with
  | OScalar _ => UScalar 1
  | OTensor y => UTensor (tab (nrows y) (ncols y) (fun i j => if (i * ncols y + j =? q)%nat then 1 else 0))
  end.

Definition zero_up (o : out) : upstream :=
  match o with OScalar _ => UScalar 0 | OTensor y => UTensor (zeros_like y) end.

(** The central difference [(f(x + eps e_p)[q] - f(x - eps e_p)[q]) / (2 eps)]. *)
Definition num_entry (t : test) (args : list arg) (k p q : nat) (eps : R) : result R :=
  lo <- apply_test t (bump_nth args k p (- eps)) ;;
  hi <- apply_test t (bump_nth args k p eps) ;;
  Ok ((out_at hi q - out_at lo q) / (2 * eps)).

(** Entry [p] of the gradient of input [k] that [backward] returns for the
    one-hot upstream gradient at [q]. *)
Definition ana_entry (t : test) (args : list arg) (y : out) (k p q : nat) : result R :=
  r <- call_test t args (onehot y q) ;;
  Ok (grad_at (nth k (snd r) GNone) p).

(** [gi.eq(0).all()] and [gi.size() == di.size()] for the gradient of one
    input ([None] passes, an index input needs no gradient). *)
Definition zerob (a : R) : bool := if Req_EM_T a 0 then true else false.

Definition grad_zero_fitsb (a : arg) (g : grad) : bool :=
  match a, g with
  | _, GNone => true
  | AIndex _, _ => true
  | ATensor m, GTensor d =>
      (nrows d =? nrows m) && (ncols d =? ncols m) &&
      forallb (fun i => forallb (fun j => zerob (mget d i j)) (seq 0 (ncols d))) (seq 0 (nrows d))
  | AVector v, GVector d => (length d =? length v) && forallb zerob d
  | _, _ => false
  end.

Definition gradcheck (eps atol rtol : R) (t : test) (args : list arg) : result unit :=
  y <- apply_test t args ;;
  rforall (seq 0 (length args)) (fun k =>
    rforall (seq 0 (arg_size (nth k args (AIndex [])))) (fun p =>
      rforall (seq 0 (out_size y)) (fun q =>
        n <- num_entry t args k p q eps ;;
        a <- ana_entry t args y k p q ;;
        check (Ref.closeb atol rtol a n) GradcheckError))) ;;
  r <- call_test t args (zero_up y) ;;
  check (all2 grad_zero_fitsb args (snd r)) GradcheckError.

(** One iteration of [for test, info in tests.items()]: the [assert] on
    [torch.allclose] with [atol = rtol = 1e-2], then [gradcheck] with
    [eps = 1e-6], then the line the [print] writes.  A failed assertion
    raises [AssertionError] and a failed check [GradcheckError]. *)
Definition test_step (C : nat) (t : test) (args : list arg) : result string :=
  y <- apply_test t args ;;
  r <- fwd_ref C t args ;;
  check (out_allcloseb (1 / 100) (1 / 100) y r) AssertionError ;;
  gradcheck (1 / 1000000) (1 / 100) (1 / 100) t args ;;
  Ok (test_name t ++ " passed")%string.

(** The loop of the [__main__] block: the lines it prints, in order, and
    how it ends.  A test's line is printed before the next test runs, so
    an exception keeps the lines of the tests before it. *)
Fixpoint main_loop (C : nat) (ts : list test) (draw : test -> list arg) : list string * result unit :=
  match ts with
  | [] => ([], Ok tt)
  | t :: ts' =>
      match test_step C t (draw t) with
      | Ok line => let '(lines, r) := main_loop C ts' draw in (line :: lines, r)
      | Err e => ([], Err e)
      end
  end.

(** [T, C = 32, 64], the loop over the table and the closing [print]
    (its ANSI colour codes left out), reached only when the loop ends
    without an exception. *)
Definition main (draw : test -> list arg) : list string * result unit :=
  let '(lines, r) := main_loop 64 tests draw in
  match r with
  | Ok _ => (lines ++ ["all tests passed! yay congrats >w<"%string], Ok tt)
  | Err e => (lines, Err e)
  end.
End Harness.

(** ** Every call of the harness succeeds *)

(** Splitting the boolean conformance checks into the facts they state. *)
Ltac split_conformance :=
  repeat match goal with
  | H : (_ && _) = true |- _ => apply andb_prop in H as [? ?]
  | H : (_ =? _) = true |- _ => apply Nat.eqb_eq in H
  | H : wfb _ = true |- _ => apply wfb_wf in H
  end.

Ltac solve_conformance :=
  match goal with
  | |- has_shape _ _ _ => split; [assumption | split; assumption]
  | |- forall i, In i ?l -> _ =>
      let i := fresh "i" in let Hi := fresh "Hi" in
      intros i Hi;
      match goal with
      | H : forallb _ l = true |- _ =>
          let Hlo := fresh "Hlo" in let Hhi := fresh "Hhi" in
          rewrite forallb_forall in H; specialize (H i Hi); apply andb_prop in H as [Hlo Hhi];
          apply Z.leb_le in Hlo; apply Z.ltb_lt in Hhi; lia
      end
  | |- _ = _ => assumption
  end.

(** The draws of one test's parameters, case by case: the arguments of
    the listed kinds, with the facts their conformance states. *)
Ltac destruct_draw args Ha :=
  destruct args as [|a1 [|a2 [|a3 [|a4 args]]]]; cbn [Harness.all2] in Ha; rewrite ?andb_false_r in Ha;
  try discriminate Ha;
  repeat match goal with a : Harness.arg |- _ => destruct a end; cbn [Harness.conformsb] in Ha;
  rewrite ?andb_false_l, ?andb_false_r in Ha; try discriminate Ha;
  split_conformance.

Section HarnessProofs.
Import Harness.

Lemma shape_ok r c (m : mat R) : has_shape r c m -> wfb m && (nrows m =? r) && (ncols m =? c) = true.
Proof. apply shape_wfb. Qed.

Lemma call_ce_ok T C x y g :
  has_shape T C x -> length y = T -> (forall i, In i y -> (0 <= i < Z.of_nat (C - 1))%Z) ->
  exists o gs, call_test TCrossEntropy [ATensor x; AIndex y] (UScalar g) = Ok (o, gs) /\
    all2 grad_conformsb (test_params T C TCrossEntropy) gs = true.
Proof.
  intros (Hw & Hr & Hc) Hl Hy.
  assert (Hok : targets_ok x y) by (split; [lia | intros k Hk; specialize (Hy k Hk); lia]).
  cbn [call_test]. rewrite (run_Ok CrossEntropyFn.function (x, y) g _ _ _
                             (ce_forward_code x y Hok) (ce_backward_code x y g Hok)).
  cbn [rbind fst snd]. do 2 eexists. split; [reflexivity |].
  cbn [all2 grad_conformsb test_params]. rewrite shape_ok by (subst; apply tab_shape). reflexivity.
Qed.

Lemma call_ln_ok T C x gm bt dy :
  has_shape T C x -> length gm = C -> length bt = C -> has_shape T C dy ->
  exists o gs, call_test TLayerNorm [ATensor x; AVector gm; AVector bt] (UTensor dy) = Ok (o, gs) /\
    all2 grad_conformsb (test_params T C TLayerNorm) gs = true.
Proof.
  intros (Hw & Hr & Hc) Hg Hb Hdy. subst T C.
  cbn [call_test]. rewrite (run_Ok LayerNormFn.function (x, gm, bt) dy _ _ _
                             (ln_forward_code x gm bt Hg Hb) (ln_backward_code x gm bt dy Hg Hdy)).
  cbn [rbind fst snd]. do 2 eexists. split; [reflexivity |].
  cbn [all2 grad_conformsb test_params]. rewrite shape_ok by apply tab_shape.
  destruct Hdy as (_ & _ & Hdc). rewrite length_tabulate, length_sum0, Hdc, Nat.eqb_refl. reflexivity.
Qed.

Lemma call_linear_ok T C x w b dy :
  has_shape T C x -> has_shape C C w -> length b = C -> has_shape T C dy ->
  exists o gs, call_test TLinear [ATensor x; ATensor w; AVector b] (UTensor dy) = Ok (o, gs) /\
    all2 grad_conformsb (test_params T C TLinear) gs = true.
Proof.
  intros Hx Hw Hb Hdy. pose proof Hx as (_ & Hxr & Hxc). pose proof Hw as (_ & Hwr & Hwc).
  cbn [call_test]. rewrite (run_Ok LinearFn.function (x, w, b) dy _ _ _
                             (LinearFn.linear_forward_ok x w b ltac:(congruence) ltac:(congruence))
                             (LinearFn.linear_backward_ok x w b dy T C C Hx Hw Hdy)).
  cbn [rbind fst snd]. do 2 eexists. split; [reflexivity |].
  cbn [all2 grad_conformsb test_params]. rewrite !shape_ok by apply tab_shape.
  rewrite length_tabulate, Nat.eqb_refl. reflexivity.
Qed.

Lemma call_gelu_ok T C x dy :
  has_shape T C x -> has_shape T C dy ->
  exists o gs, call_test TGelu [ATensor x] (UTensor dy) = Ok (o, gs) /\
    all2 grad_conformsb (test_params T C TGelu) gs = true.
Proof.
  intros (Hw & Hr & Hc) (Hdw & Hdr & Hdc). cbn [call_test].
  rewrite (run_Ok GELUFn.function x dy _ _ _ eq_refl (gelu_backward_ok x dy ltac:(congruence) ltac:(congruence))).
  cbn [rbind fst snd]. do 2 eexists. split; [reflexivity |].
  cbn [all2 grad_conformsb test_params]. rewrite shape_ok by (subst; apply tab_shape). reflexivity.
Qed.

Lemma call_add_ok T C a b dy :
  has_shape T C a -> has_shape T C b -> has_shape T C dy ->
  exists o gs, call_test TAdd [ATensor a; ATensor b] (UTensor dy) = Ok (o, gs) /\
    all2 grad_conformsb (test_params T C TAdd) gs = true.
Proof.
  intros (_ & Har & Hac) (_ & Hbr & Hbc) Hdy. cbn [call_test].
  erewrite run_Ok; [| cbn; rewrite AddFn.add_forward_ok by congruence; reflexivity | reflexivity].
  cbn [rbind fst snd AddFn.backward]. do 2 eexists. split; [reflexivity |].
  cbn [all2 grad_conformsb test_params]. rewrite !shape_ok by exact Hdy. reflexivity.
Qed.

Lemma call_embedding_ok T C x emb dy :
  length x = T -> (forall i, In i x -> (0 <= i < Z.of_nat (T - 1))%Z) ->
  has_shape T C emb -> has_shape T C dy ->
  exists o gs, call_test TEmbedding [AIndex x; ATensor emb] (UTensor dy) = Ok (o, gs) /\
    all2 grad_conformsb (test_params T C TEmbedding) gs = true.
Proof.
  intros Hl Hx (_ & Her & Hec) (_ & Hdr & Hdc).
  assert (E : exists d, index_add (zeros_like emb) x dy = Ok d).
  { unfold index_add, check, zeros_like. rewrite ncols_tab, nrows_tab, Hl, Hdr, Hdc, Hec, !Nat.eqb_refl.
    cbn [andb rbind]. rewrite check_index_ok by (intros i Hi; specialize (Hx i Hi); lia).
    eexists; reflexivity. }
  destruct E as [d E]. cbn [call_test].
  erewrite run_Ok; [| cbn; unfold EmbeddingFn.forward;
                        rewrite resolve_index_ok by (intros i Hi; specialize (Hx i Hi); lia); reflexivity
                   | cbn; unfold EmbeddingFn.backward; cbn; rewrite E; reflexivity].
  apply index_add_zeros_spec in E as (Hd & _). cbn [rbind fst snd]. do 2 eexists. split; [reflexivity |].
  cbn [all2 grad_conformsb test_params]. rewrite Her, Hec in Hd. now rewrite shape_ok.
Qed.

(** One call of the table succeeds on every draw its parameters allow. *)
Lemma call_test_ok T C t args u :
  all2 conformsb (test_params T C t) args = true -> upstream_okb T C t u = true ->
  exists o gs, call_test t args u = Ok (o, gs) /\ all2 grad_conformsb (test_params T C t) gs = true.
Proof.
  intros Ha Hu.
  destruct t; cbn [test_params] in Ha; destruct u as [g | dy]; cbn [upstream_okb] in Hu;
    try discriminate Hu; destruct_draw args Ha;
    first [ apply call_ce_ok | apply call_ln_ok | apply call_linear_ok | apply call_gelu_ok
          | apply call_add_ok | apply call_embedding_ok ]; solve_conformance.
Qed.

(** ** The forward assertion holds *)

Lemma range_forallb (n : nat) (l : list Z) :
  (forall i, In i l -> (0 <= i < Z.of_nat n)%Z) ->
  forallb (fun i => (0 <=? i)%Z && (i <? Z.of_nat n)%Z) l = true.
Proof.
  intros Hin. apply forallb_forall. intros i Hi. specialize (Hin i Hi).
  apply andb_true_iff. split; [apply Z.leb_le | apply Z.ltb_lt]; lia.
Qed.

Lemma apply_ce_ref T C x y :
  has_shape T C x -> length y = T -> (forall i, In i y -> (0 <= i < Z.of_nat (C - 1))%Z) ->
  exists o, apply_test TCrossEntropy [ATensor x; AIndex y] = Ok o /\
    fwd_ref C TCrossEntropy [ATensor x; AIndex y] = Ok o /\ out_okb T C TCrossEntropy o = true.
Proof.
  intros (_ & Hr & Hc) Hl Hy.
  assert (Hy' : forall i, In i y -> (0 <= i < Z.of_nat (ncols x))%Z)
    by (intros i Hi; specialize (Hy i Hi); lia).
  destruct (ce_forward_ref x y ltac:(congruence) Hy') as [c E].
  exists (OScalar (Ref.cross_entropy x y)). split; [cbn; now rewrite E | split; [| reflexivity]].
  cbn [fwd_ref]. rewrite Hl, Hr, Nat.eqb_refl. cbn [check rbind].
  now rewrite range_forallb by exact Hy'.
Qed.

(** A tabulated output of shape [(T, C)] passes [out_okb]. *)
Lemma out_okb_tab T C t r c f :
  t <> TCrossEntropy -> r = T -> c = C -> out_okb T C t (OTensor (tab r c f)) = true.
Proof. intros Ht -> ->. destruct t; [congruence | ..]; apply shape_ok, tab_shape. Qed.

Lemma apply_ln_ref T C x gm bt :
  has_shape T C x -> length gm = C -> length bt = C ->
  exists o, apply_test TLayerNorm [ATensor x; AVector gm; AVector bt] = Ok o /\
    fwd_ref C TLayerNorm [ATensor x; AVector gm; AVector bt] = Ok o /\ out_okb T C TLayerNorm o = true.
Proof.
  intros (_ & Hr & Hc) Hg Hb.
  destruct (ln_forward_ref x gm bt ltac:(congruence) ltac:(congruence)) as [c E].
  exists (OTensor (Ref.layer_norm x gm bt)). split; [cbn; now rewrite E |].
  split; [cbn [fwd_ref]; now rewrite Hc, Hg, Hb, Nat.eqb_refl | now apply out_okb_tab].
Qed.

Lemma apply_linear_ref T C x w b :
  has_shape T C x -> has_shape C C w -> length b = C ->
  exists o, apply_test TLinear [ATensor x; ATensor w; AVector b] = Ok o /\
    fwd_ref C TLinear [ATensor x; ATensor w; AVector b] = Ok o /\ out_okb T C TLinear o = true.
Proof.
  intros (_ & Hxr & Hxc) (_ & Hwr & Hwc) Hb.
  destruct (linear_forward_ref x w b ltac:(congruence) ltac:(congruence)) as [c E].
  exists (OTensor (Ref.linear x w b)). split; [cbn; now rewrite E |].
  split; [cbn [fwd_ref]; now rewrite Hxc, Hwc, Hb, Hwr, !Nat.eqb_refl | now apply out_okb_tab].
Qed.

Lemma apply_gelu_ref T C x :
  has_shape T C x ->
  exists o, apply_test TGelu [ATensor x] = Ok o /\ fwd_ref C TGelu [ATensor x] = Ok o /\
    out_okb T C TGelu o = true.
Proof.
  intros (Hw & Hr & Hc). exists (OTensor (Ref.gelu x)).
  split; [cbn [apply_test fn_forward GELUFn.function rbind]; now rewrite gelu_forward_ref |].
  split; [reflexivity | now apply out_okb_tab].
Qed.

Lemma apply_add_ref T C a b :
  has_shape T C a -> has_shape T C b ->
  exists o, apply_test TAdd [ATensor a; ATensor b] = Ok o /\ fwd_ref C TAdd [ATensor a; ATensor b] = Ok o /\
    out_okb T C TAdd o = true.
Proof.
  intros (_ & Har & Hac) (_ & Hbr & Hbc).
  pose proof (add_forward_ref a b ltac:(congruence) ltac:(congruence)) as E.
  rewrite AddFn.add_forward_ok in E by congruence.
  eexists. split; [cbn; rewrite AddFn.add_forward_ok by congruence; reflexivity |].
  split; [cbn [fwd_ref]; rewrite <- E; reflexivity | now apply out_okb_tab].
Qed.

Lemma apply_embedding_ref T C x emb :
  length x = T -> (forall i, In i x -> (0 <= i < Z.of_nat (T - 1))%Z) -> has_shape T C emb ->
  exists o, apply_test TEmbedding [AIndex x; ATensor emb] = Ok o /\
    fwd_ref C TEmbedding [AIndex x; ATensor emb] = Ok o /\ out_okb T C TEmbedding o = true.
Proof.
  intros Hl Hx (_ & Her & Hec).
  assert (Hx' : forall i, In i x -> (0 <= i < Z.of_nat (nrows emb))%Z)
    by (intros i Hi; specialize (Hx i Hi); lia).
  destruct (embedding_forward_ref x emb Hx') as [c E].
  exists (OTensor (Ref.embedding x emb)). split; [cbn; now rewrite E |].
  split; [cbn [fwd_ref]; now rewrite range_forallb by exact Hx' | now apply out_okb_tab].
Qed.

(** On every draw its parameters allow, a test's operator and its
    reference return the same output, of the test's output shape. *)
Lemma apply_test_ref T C t args :
  all2 conformsb (test_params T C t) args = true ->
  exists o, apply_test t args = Ok o /\ fwd_ref C t args = Ok o /\ out_okb T C t o = true.
Proof.
  intros Ha.
  destruct t; cbn [test_params] in Ha; destruct_draw args Ha;
    first [ apply (apply_ce_ref T) | apply (apply_ln_ref T) | apply (apply_linear_ref T) | apply (apply_gelu_ref T)
          | apply (apply_add_ref T) | apply (apply_embedding_ref T) ]; solve_conformance.
Qed.

Lemma out_allcloseb_refl o : out_allcloseb (1 / 100) (1 / 100) o o = true.
Proof. destruct o; cbn [out_allcloseb]; [apply closeb_refl | apply allcloseb_refl]; lra. Qed.

(** C19: the [assert] of the harness's loop holds on every draw: for each
    test of the table and every draw of its parameters, the operator's
    [forward] succeeds and returns exactly what the [torch.nn.functional]
    reference returns, so [torch.allclose] with [atol = rtol = 1e-2]
    holds. *)
Theorem harness_forward_assert T C t args :
  all2 conformsb (test_params T C t) args = true ->
  exists o, apply_test t args = Ok o /\ fwd_ref C t args = Ok o /\ out_allcloseb (1 / 100) (1 / 100) o o = true.
Proof.
  intros Ha. destruct (apply_test_ref T C t args Ha) as (o & Hy & Hr & _).
  exists o. split; [exact Hy | split; [exact Hr | apply out_allcloseb_refl]].
Qed.

(** ** [gradcheck] reaches a verdict *)

(** The upstream gradients [gradcheck] builds have the output's shape. *)
Lemma onehot_ok T C t o q : out_okb T C t o = true -> upstream_okb T C t (onehot o q) = true.
Proof.
  destruct t, o as [l | y]; cbn [out_okb onehot upstream_okb]; try discriminate; try reflexivity;
    intros H; split_conformance; subst; apply shape_ok, tab_shape.
Qed.

Lemma zero_up_ok T C t o : out_okb T C t o = true -> upstream_okb T C t (zero_up o) = true.
Proof.
  destruct t, o as [l | y]; cbn [out_okb zero_up upstream_okb]; try discriminate; try reflexivity;
    intros H; split_conformance; subst; apply shape_ok, tab_shape.
Qed.

(** Moving one entry of a drawn input keeps it a draw of its parameter. *)
Lemma arg_bump_conforms p a q h : conformsb p a = true -> conformsb p (arg_bump a q h) = true.
Proof.
  destruct p, a; cbn [arg_bump conformsb]; intros H; try exact H; try discriminate H.
  - split_conformance. subst. apply shape_ok, tab_shape.
  - now rewrite length_vperturb.
Qed.

Lemma bump_conforms ps args k p h :
  all2 conformsb ps args = true -> all2 conformsb ps (bump_nth args k p h) = true.
Proof.
  revert ps k. induction args as [|a args IH]; intros ps k H; [destruct k; exact H |].
  destruct ps as [|p0 ps]; [discriminate H |]. cbn [all2] in H. apply andb_prop in H as [H1 H2].
  destruct k; cbn [bump_nth all2]; apply andb_true_intro;
    [split; [now apply arg_bump_conforms | exact H2] | split; [exact H1 | now apply IH]].
Qed.

(** Every [forward] and [backward] call [gradcheck] makes on a draw
    succeeds, so it either passes or raises [GradcheckError]. *)
Lemma gradcheck_reaches_verdict T C t args eps atol rtol :
  all2 conformsb (test_params T C t) args = true ->
  verdict GradcheckError (gradcheck eps atol rtol t args).
Proof.
  intros Ha. destruct (apply_test_ref T C t args Ha) as (o & Ho & _ & Hs).
  unfold gradcheck. apply (rbind_verdict _ _ _ o Ho). apply rbind_verdict2.
  - apply rforall_verdict; intros k _; apply rforall_verdict; intros p _; apply rforall_verdict; intros q _.
    unfold num_entry, ana_entry.
    destruct (apply_test_ref T C t _ (bump_conforms _ _ k p (- eps) Ha)) as (lo & Hlo & _).
    destruct (apply_test_ref T C t _ (bump_conforms _ _ k p eps Ha)) as (hi & Hhi & _).
    destruct (call_test_ok T C t args (onehot o q) Ha (onehot_ok T C t o q Hs)) as (o' & gs & Hc & _).
    rewrite Hlo, Hhi, Hc. cbn [rbind]. auto with verdict.
  - destruct (call_test_ok T C t args (zero_up o) Ha (zero_up_ok T C t o Hs)) as (o' & gs & Hc & _).
    apply (rbind_verdict _ _ _ _ Hc). auto with verdict.
Qed.

(** ** The loop prints one line per test until a check fails *)

Lemma test_step_gradcheck T C t args :
  all2 conformsb (test_params T C t) args = true ->
  test_step C t args =
  rbind (gradcheck (1 / 1000000) (1 / 100) (1 / 100) t args) (fun _ => Ok (test_name t ++ " passed")%string).
Proof.
  intros Ha. destruct (apply_test_ref T C t args Ha) as (o & Hy & Hr & _).
  unfold test_step. rewrite Hy, Hr. cbn [rbind]. now rewrite out_allcloseb_refl.
Qed.

Definition passed_line (t : test) : string := (test_name t ++ " passed")%string.

(** The trace of the loop over [ts]: the lines of the first [n] tests, all
    of whose [gradcheck]s passed; then either the end of the list, or the
    next test's [gradcheck] raising [GradcheckError], which ends the loop. *)
Lemma main_loop_trace T C ts draw :
  (forall t, all2 conformsb (test_params T C t) (draw t) = true) ->
  exists n, fst (main_loop C ts draw) = map passed_line (firstn n ts) /\
    (forall t, In t (firstn n ts) -> gradcheck (1 / 1000000) (1 / 100) (1 / 100) t (draw t) = Ok tt) /\
    ((n = length ts /\ snd (main_loop C ts draw) = Ok tt) \/
     (exists t, nth_error ts n = Some t /\
        gradcheck (1 / 1000000) (1 / 100) (1 / 100) t (draw t) = Err GradcheckError /\
        snd (main_loop C ts draw) = Err GradcheckError)).
Proof.
  intros Hd. induction ts as [|t ts IH]; [exists 0%nat; cbn; intuition |].
  cbn [main_loop]. rewrite (test_step_gradcheck T C t (draw t) (Hd t)).
  destruct (gradcheck_reaches_verdict T C t (draw t) (1 / 1000000) (1 / 100) (1 / 100) (Hd t)) as [Hg | Hg];
    rewrite Hg; cbn [rbind].
  - destruct IH as (n & Hl & Hp & Hend). destruct (main_loop C ts draw) as [lines r]. cbn [fst snd] in *.
    exists (S n). cbn [firstn map nth_error length]. rewrite Hl.
    split; [reflexivity | split; [intros t' [<- | Ht']; auto | destruct Hend as [[-> ->] | Hend]; auto]].
  - exists 0%nat. cbn. split; [reflexivity | split; [tauto | right; eauto]].
Qed.

(** C17: the [__main__] block's output, on every draw the table allows: it
    prints ["<test> passed"] for the tests of the table, in order, whose
    [assert] and [gradcheck] pass, up to the first test whose [gradcheck]
    raises; the [assert]s always hold and [gradcheck]'s own calls never
    fail, so the block either prints all six lines and then its closing
    line, or stops with [GradcheckError] after the lines of the tests
    before the failing one. *)
Theorem harness_main_trace draw :
  (forall t, all2 conformsb (test_params 32 64 t) (draw t) = true) ->
  exists n, (forall t, In t (firstn n tests) -> gradcheck (1 / 1000000) (1 / 100) (1 / 100) t (draw t) = Ok tt) /\
    ((n = length tests /\
      main draw = (map passed_line tests ++ ["all tests passed! yay congrats >w<"%string], Ok tt)) \/
     (exists t, nth_error tests n = Some t /\
        gradcheck (1 / 1000000) (1 / 100) (1 / 100) t (draw t) = Err GradcheckError /\
        main draw = (map passed_line (firstn n tests), Err GradcheckError))).
Proof.
  intros Hd. destruct (main_loop_trace 32 64 tests draw Hd) as (n & Hl & Hp & Hend).
  exists n. split; [exact Hp |]. unfold main.
  destruct (main_loop 64 tests draw) as [lines r]. cbn [fst snd] in Hl, Hend. subst lines.
  destruct Hend as [[Hn ->] | (t & Ht & Hg & ->)]; [left | right; eauto].
  split; [exact Hn |]. now rewrite Hn, firstn_all.
Qed.
End HarnessProofs.

(** ** Witnesses, at the harness's sizes [T, C = 32, 64] *)

Definition h_x : mat R := tab 32 64 (fun _ _ => 0).

Definition h_draw (t : Harness.test) : list Harness.arg :=
  match t with
  | Harness.TCrossEntropy => [Harness.ATensor h_x; Harness.AIndex (repeat 0%Z 32)]
  | Harness.TLayerNorm => [Harness.ATensor h_x; Harness.AVector (repeat 1 64); Harness.AVector (repeat 0 64)]
  | Harness.TLinear => [Harness.ATensor h_x; Harness.ATensor (tab 64 64 (fun _ _ => 0)); Harness.AVector (repeat 0 64)]
  | Harness.TGelu => [Harness.ATensor h_x]
  | Harness.TAdd => [Harness.ATensor h_x; Harness.ATensor h_x]
  | Harness.TEmbedding => [Harness.AIndex (repeat 0%Z 32); Harness.ATensor h_x]
  end.

Lemma harness_forward_assert_witness :
  exists o, Harness.apply_test Harness.TLayerNorm (h_draw Harness.TLayerNorm) = Ok o /\
    Harness.fwd_ref 64 Harness.TLayerNorm (h_draw Harness.TLayerNorm) = Ok o /\
    Harness.out_allcloseb (1 / 100) (1 / 100) o o = true.
Proof. apply (harness_forward_assert 32 64). vm_compute. reflexivity. Defined.

Lemma harness_main_trace_witness :
  exists n, (forall t, In t (firstn n Harness.tests) ->
               Harness.gradcheck (1 / 1000000) (1 / 100) (1 / 100) t (h_draw t) = Ok tt) /\
    ((n = length Harness.tests /\
      Harness.main h_draw = (map passed_line Harness.tests ++ ["all tests passed! yay congrats >w<"%string], Ok tt)) \/
     (exists t, nth_error Harness.tests n = Some t /\
        Harness.gradcheck (1 / 1000000) (1 / 100) (1 / 100) t (h_draw t) = Err GradcheckError /\
        Harness.main h_draw = (map passed_line (firstn n Harness.tests), Err GradcheckError))).
Proof. apply harness_main_trace. intros t; destruct t; vm_compute; reflexivity. Defined.
