(* ===== verification/HarnessGradcheck.v ===== *)
(** * What the harness's [gradcheck] finds

    [Harness.gradcheck] models [torch.autograd.gradcheck] as the harness
    calls it.  This file proves two facts about it, on every draw the
    harness's table allows:

    - [backward] multiplies by the upstream gradient: for each of the six
      operators a zero upstream gradient gives all-zero gradients of the
      inputs' sizes, so the last check of [gradcheck] passes;
    - for the operators that are linear in each input ([AddFn],
      [LinearFn], [EmbeddingFn]) the central difference of [gradcheck] is
      exact, and equals the entry of the analytical Jacobian that
      [backward] computes, so [gradcheck] passes with any [eps > 0] and any
      non-negative tolerances.

    For the non-linear operators the central difference differs from the
    derivative by a term of order [eps^2]; the operator files prove that
    [backward] computes the derivative itself. *)

From Stdlib Require Import String List Arith Lia ZArith Bool Reals Lra.
From S2P Require Import Prelude Tensor Autograd AddOp LinearOp EmbeddingOp Calculus GeluOp CrossEntropyOp LayerNormOp References GradCheck Harness.
Import ListNotations.
Local Open Scope R_scope.

(** ** Row-major positions *)

Section FlatIndex.

Lemma flat_lt r c q : (q < r * c)%nat -> (q / c < r)%nat /\ (q mod c < c)%nat.
Proof.
  intros Hq. assert (Hc : c <> 0%nat) by (intros ->; lia).
  split; [apply Nat.Div0.div_lt_upper_bound; lia | apply Nat.mod_upper_bound, Hc].
Qed.

(** Position [i * c + j] is [q] exactly when [(i, j)] is the row and
    column of [q]. *)
Lemma flat_eqb c i j q :
  (j < c)%nat -> (i * c + j =? q)%nat = ((i =? q / c) && (j =? q mod c))%nat.
Proof.
  intros Hj. assert (Hc : c <> 0%nat) by lia. pose proof (Nat.div_mod_eq q c) as Hq.
  destruct (Nat.eqb_spec (i * c + j) q) as [<- | Hne].
  - rewrite Nat.div_add_l, Nat.div_small, Nat.add_0_r by assumption.
    rewrite Nat.add_comm, Nat.Div0.mod_add, Nat.mod_small by assumption.
    now rewrite !Nat.eqb_refl.
  - destruct (Nat.eqb_spec i (q / c)), (Nat.eqb_spec j (q mod c)); [| reflexivity ..].
    exfalso. apply Hne. subst. lia.
Qed.

Lemma flat_pair_eqb c p q :
  c <> 0%nat -> ((q / c =? p / c) && (q mod c =? p mod c))%nat = (q =? p)%nat.
Proof.
  intros Hc. rewrite <- flat_eqb by (apply Nat.mod_upper_bound, Hc).
  f_equal. pose proof (Nat.div_mod_eq q c). lia.
Qed.

(** The one-hot upstream gradient, entry by entry. *)
Lemma mget_onehot r c q i j :
  (i < r)%nat -> (j < c)%nat ->
  mget (tab r c (fun i j => if (i * c + j =? q)%nat then 1 else 0)) i j =
  if ((i =? q / c) && (j =? q mod c))%nat then 1 else 0.
Proof. intros Hi Hj. rewrite mget_tab by assumption. now rewrite flat_eqb. Qed.

(** A sum against an indicator that picks one index. *)
Lemma sumn_pick_first n i (P : bool) (F : nat -> R) :
  (i < n)%nat -> sumn n (fun t => (if (t =? i)%nat && P then 1 else 0) * F t) = if P then F i else 0.
Proof.
  intros Hi. destruct P.
  - rewrite (sumn_ext _ _ (fun t => F t * (if (t =? i)%nat then 1 else 0)))
      by (intros t _; rewrite andb_true_r; ring).
    now apply sumn_pick.
  - rewrite (sumn_ext _ _ (fun _ => 0)) by (intros t _; rewrite andb_false_r; ring). apply sumn_zero_R.
Qed.

Lemma sumn_pick_second n j (P : bool) (F : nat -> R) :
  (j < n)%nat -> sumn n (fun o => (if P && (o =? j)%nat then 1 else 0) * F o) = if P then F j else 0.
Proof.
  intros Hj. rewrite (sumn_ext _ _ (fun o => (if (o =? j)%nat && P then 1 else 0) * F o))
    by (intros o _; now rewrite andb_comm).
  now apply sumn_pick_first.
Qed.

(** Sums against the one-hot upstream gradient at [q], along a row and
    along a column. *)
Lemma sumn_onehot_col T C q i (F : nat -> R) :
  (q < T * C)%nat -> (i < T)%nat ->
  sumn C (fun o => mget (tab T C (fun i j => if (i * C + j =? q)%nat then 1 else 0)) i o * F o) =
  if (i =? q / C)%nat then F (q mod C) else 0.
Proof.
  intros Hq Hi. destruct (flat_lt T C q Hq) as [_ Hc].
  rewrite (sumn_ext _ _ (fun o => (if (i =? q / C)%nat && (o =? q mod C)%nat then 1 else 0) * F o))
    by (intros o Ho; now rewrite mget_onehot).
  now apply sumn_pick_second.
Qed.

Lemma sumn_onehot_row T C q o (F : nat -> R) :
  (q < T * C)%nat -> (o < C)%nat ->
  sumn T (fun t => mget (tab T C (fun i j => if (i * C + j =? q)%nat then 1 else 0)) t o * F t) =
  if (o =? q mod C)%nat then F (q / C)%nat else 0.
Proof.
  intros Hq Ho. destruct (flat_lt T C q Hq) as [Hr _].
  rewrite (sumn_ext _ _ (fun t => (if (t =? q / C)%nat && (o =? q mod C)%nat then 1 else 0) * F t))
    by (intros t Ht; now rewrite mget_onehot).
  now apply sumn_pick_first.
Qed.

End FlatIndex.

(** ** A check that passes when the outputs are affine in each entry *)

Section CentralDifference.
Import Harness.

Lemma central_exact y0 a eps : eps <> 0 -> ((y0 + eps * a) - (y0 + - eps * a)) / (2 * eps) = a.
Proof. intros He. field. exact He. Qed.

(** [gradcheck] passes when, for every entry [p] of every input [k] and
    every output entry [q], the analytical and the numerical entry are
    computed and close. *)
Lemma gradcheck_pass_close t args o eps atol rtol :
  apply_test t args = Ok o ->
  (forall k p q, (k < length args)%nat -> (p < arg_size (nth k args (AIndex [])))%nat ->
     (q < out_size o)%nat ->
     exists a n, ana_entry t args o k p q = Ok a /\ num_entry t args k p q eps = Ok n /\
       Ref.closeb atol rtol a n = true) ->
  (exists o' gs, call_test t args (zero_up o) = Ok (o', gs) /\ all2 grad_zero_fitsb args gs = true) ->
  gradcheck eps atol rtol t args = Ok tt.
Proof.
  intros Ho Hj (o' & gs & Hz & Hf). unfold gradcheck. rewrite Ho. cbn [rbind].
  rewrite rforall_Ok; [cbn [rbind]; rewrite Hz; cbn [rbind snd]; now rewrite Hf |].
  intros k Hk. apply rforall_Ok. intros p Hp. apply rforall_Ok. intros q Hq.
  apply in_seq in Hk, Hp, Hq.
  destruct (Hj k p q ltac:(lia) ltac:(lia) ltac:(lia)) as (a & n & Ha & Hn & Hc).
  rewrite Hn, Ha. cbn [rbind]. now apply check_Ok.
Qed.

(** If moving entry [p] of input [k] by [h] moves output entry [q] by
    [h * a], where [a] is what [backward] reports for that pair, and the
    zero upstream gradient gives zero gradients, [gradcheck] passes. *)
Lemma gradcheck_pass t args o eps atol rtol :
  eps <> 0 -> 0 <= atol -> 0 <= rtol ->
  apply_test t args = Ok o ->
  (forall k p q, (k < length args)%nat -> (p < arg_size (nth k args (AIndex [])))%nat ->
     (q < out_size o)%nat ->
     exists a, ana_entry t args o k p q = Ok a /\
       forall h, exists oh, apply_test t (bump_nth args k p h) = Ok oh /\ out_at oh q = out_at o q + h * a) ->
  (exists o' gs, call_test t args (zero_up o) = Ok (o', gs) /\ all2 grad_zero_fitsb args gs = true) ->
  gradcheck eps atol rtol t args = Ok tt.
Proof.
  intros He Hat Hrt Ho Hj Hz. apply (gradcheck_pass_close t args o eps atol rtol Ho); [| exact Hz].
  intros k p q Hk Hp Hq. destruct (Hj k p q Hk Hp Hq) as (a & Ha & Hh).
  destruct (Hh (- eps)) as (lo & Hlo & Elo). destruct (Hh eps) as (hi & Hhi & Ehi).
  exists a, a. split; [exact Ha |]. split; [| now apply closeb_refl].
  unfold num_entry. rewrite Hlo, Hhi. cbn [rbind]. rewrite Elo, Ehi, central_exact by exact He. reflexivity.
Qed.

End CentralDifference.

(** The bounds of the row and column of a flat position. *)
Ltac flat_bounds :=
  repeat match goal with
  | H : (?q < ?r * ?c)%nat |- _ =>
      let H1 := fresh "Hrow" in let H2 := fresh "Hcol" in
      destruct (flat_lt r c q H) as [H1 H2]; clear H
  end.

Lemma nrows_perturb (A : mat R) i j h : nrows (perturb A i j h) = nrows A.
Proof. apply nrows_tab. Qed.

Lemma ncols_perturb (A : mat R) i j h : ncols (perturb A i j h) = ncols A.
Proof. apply ncols_tab. Qed.

(** Reading an entry of a tabulated, perturbed or one-hot tensor at a
    flat position in range. *)
Ltac flat_read :=
  rewrite ?nrows_tab, ?ncols_tab, ?nrows_perturb, ?ncols_perturb in *; flat_bounds;
  repeat first [ rewrite mget_onehot by lia | rewrite mget_tab by lia | rewrite mget_perturb by lia
               | rewrite vget_vperturb by lia ].

(** ** [AddFn] *)

Section AddCheck.
Import Harness.

Lemma apply_add a b :
  nrows a = nrows b -> ncols a = ncols b ->
  apply_test TAdd [ATensor a; ATensor b] = Ok (OTensor (tab (nrows a) (ncols a) (fun i j => mget a i j + mget b i j))).
Proof. intros Hr Hc. cbn. rewrite AddFn.add_forward_ok by assumption. reflexivity. Qed.

Lemma call_add a b dy :
  nrows a = nrows b -> ncols a = ncols b ->
  call_test TAdd [ATensor a; ATensor b] (UTensor dy) =
  Ok (OTensor (tab (nrows a) (ncols a) (fun i j => mget a i j + mget b i j)), [GTensor dy; GTensor dy]).
Proof.
  intros Hr Hc. cbn [call_test].
  rewrite (run_Ok AddFn.function (a, b) dy (tab (nrows a) (ncols a) (fun i j => mget a i j + mget b i j)) tt (dy, dy));
    [reflexivity | cbn; rewrite AddFn.add_forward_ok by assumption; reflexivity | reflexivity].
Qed.

Lemma gradcheck_add_entries T C a b :
  has_shape T C a -> has_shape T C b ->
  forall k p q, (k < 2)%nat -> (p < arg_size (nth k [ATensor a; ATensor b] (AIndex [])))%nat -> (q < T * C)%nat ->
  exists g, ana_entry TAdd [ATensor a; ATensor b] (OTensor (tab (nrows a) (ncols a) (fun i j => mget a i j + mget b i j))) k p q = Ok g /\
    forall h, exists oh, apply_test TAdd (bump_nth [ATensor a; ATensor b] k p h) = Ok oh /\
      out_at oh q = out_at (OTensor (tab (nrows a) (ncols a) (fun i j => mget a i j + mget b i j))) q + h * g.
Proof.
  intros (_ & Har & Hac) (_ & Hbr & Hbc) k p q Hk Hp Hq. rewrite Har, Hac.
  unfold ana_entry, onehot. rewrite nrows_tab, ncols_tab, call_add by congruence. cbn [rbind snd].
  assert (HC : C <> 0%nat) by (intros ->; lia).
  destruct k as [|[|k]]; cbn [nth arg_size] in Hp |- *; [| | lia];
    eexists; (split; [reflexivity |]); intros h; cbn [bump_nth arg_bump];
    (rewrite apply_add by (rewrite ?nrows_perturb, ?ncols_perturb; congruence));
    eexists; (split; [reflexivity |]); cbn [out_at grad_at nth];
    rewrite ?nrows_perturb, ?ncols_perturb, ?Har, ?Hac, ?Hbr, ?Hbc in *; flat_read;
    rewrite ?(Nat.eqb_sym (q / _)), ?(Nat.eqb_sym (q mod _)), !flat_pair_eqb by assumption;
    rewrite (Nat.eqb_sym p q); destruct (q =? p)%nat; cbn [sadd R_scalar]; ring.
Qed.

End AddCheck.

(** ** A zero upstream gradient gives zero gradients *)

Section ZeroUpstream.
Import Harness.

Lemma zerob_0 : zerob 0 = true.
Proof. unfold zerob. destruct (Req_EM_T 0 0); [reflexivity | contradiction]. Qed.

Lemma fits_mat (m d : mat R) :
  nrows d = nrows m -> ncols d = ncols m ->
  (forall i j, (i < nrows d)%nat -> (j < ncols d)%nat -> mget d i j = 0) ->
  grad_zero_fitsb (ATensor m) (GTensor d) = true.
Proof.
  intros Hr Hc Hz. cbn [grad_zero_fitsb]. rewrite Hr, Hc, !Nat.eqb_refl. cbn [andb].
  apply forallb_forall. intros i Hi. apply forallb_forall. intros j Hj. apply in_seq in Hi, Hj.
  rewrite Hz by lia. apply zerob_0.
Qed.

Lemma fits_vec (v d : list R) :
  length d = length v -> (forall i, (i < length d)%nat -> vget d i = 0) ->
  grad_zero_fitsb (AVector v) (GVector d) = true.
Proof.
  intros Hl Hz. cbn [grad_zero_fitsb]. rewrite Hl, Nat.eqb_refl. cbn [andb].
  apply forallb_forall. intros a Ha. apply In_nth with (d := 0) in Ha as (i & Hi & <-).
  change (nth i d 0) with (vget d i). rewrite Hz by exact Hi. apply zerob_0.
Qed.

(** The zero upstream tensor of shape [(T, C)]. *)
Definition zeros (T C : nat) : mat R := tab T C (fun _ _ => 0).

Lemma zero_up_zeros T C t y :
  out_okb T C t (OTensor y) = true -> zero_up (OTensor y) = UTensor (zeros T C).
Proof.
  destruct t; cbn [out_okb]; try discriminate; intros H; split_conformance; subst; reflexivity.
Qed.

Lemma zeros_shape T C : has_shape T C (zeros T C).
Proof. apply tab_shape. Qed.

Lemma mget_zeros T C i j : (i < T)%nat -> (j < C)%nat -> mget (zeros T C) i j = 0.
Proof. intros Hi Hj. unfold zeros. now rewrite mget_tab. Qed.

(** Every entry of a sum whose terms carry a zero factor. *)
Lemma sumn_zero_terms n (F : nat -> R) : (forall k, (k < n)%nat -> F k = 0) -> sumn n F = 0.
Proof. intros H. rewrite (sumn_ext _ _ (fun _ => 0)) by exact H. apply sumn_zero_R. Qed.

Ltac zero_entries :=
  intros; unfold zeros in *; rewrite ?nrows_tab, ?ncols_tab in *;
  rewrite ?mget_tab by lia; cbn [szero smul sadd R_scalar];
  repeat first [ rewrite sumn_zero_terms by (intros; rewrite ?mget_tab by lia; cbn [szero smul sadd R_scalar]; ring)
               | rewrite mget_tab by lia ];
  try ring.

Lemma zero_ce T C x y :
  has_shape T C x -> length y = T -> (forall i, In i y -> (0 <= i < Z.of_nat (C - 1))%Z) ->
  exists o gs, call_test TCrossEntropy [ATensor x; AIndex y] (UScalar 0) = Ok (o, gs) /\
    all2 grad_zero_fitsb [ATensor x; AIndex y] gs = true.
Proof.
  intros (_ & Hr & Hc) Hl Hy.
  assert (Hok : targets_ok x y) by (split; [lia | intros k Hk; specialize (Hy k Hk); lia]).
  cbn [call_test]. rewrite (run_Ok CrossEntropyFn.function (x, y) 0 _ _ _
                             (ce_forward_code x y Hok) (ce_backward_code x y 0 Hok)).
  cbn [rbind fst snd]. do 2 eexists. split; [reflexivity |]. cbn [all2].
  unfold ce_grad. rewrite fits_mat; [reflexivity | apply nrows_tab | apply ncols_tab |].
  intros i j Hi Hj. rewrite nrows_tab, ncols_tab in *. rewrite mget_tab by assumption.
  unfold Rdiv. ring.
Qed.

Lemma zero_ln T C x gm bt :
  has_shape T C x -> length gm = C -> length bt = C ->
  exists o gs, call_test TLayerNorm [ATensor x; AVector gm; AVector bt] (UTensor (zeros T C)) = Ok (o, gs) /\
    all2 grad_zero_fitsb [ATensor x; AVector gm; AVector bt] gs = true.
Proof.
  intros (_ & Hr & Hc) Hg Hb. subst T C. cbn [call_test]. unfold zeros.
  rewrite (run_Ok LayerNormFn.function (x, gm, bt) _ _ _ _
             (ln_forward_code x gm bt Hg Hb) (ln_backward_code_tab x gm bt (fun _ _ => 0) Hg)).
  cbn [rbind fst snd]. do 2 eexists. split; [reflexivity |]. cbn [all2].
  rewrite fits_mat, !fits_vec; [reflexivity | ..].
  - rewrite length_sum0, ncols_tab. congruence.
  - intros i Hi. rewrite length_sum0, ncols_tab in Hi. unfold sum0, vget.
    rewrite nth_tabulate by (rewrite ncols_tab; exact Hi). zero_entries.
  - rewrite length_tabulate. congruence.
  - intros i Hi. rewrite length_tabulate in Hi. unfold vget. rewrite nth_tabulate by exact Hi.
    unfold ln_dgamma. zero_entries.
  - apply nrows_tab.
  - apply ncols_tab.
  - intros i j Hi Hj. rewrite nrows_tab, ncols_tab in *. rewrite mget_tab by assumption.
    unfold ln_dx. zero_entries.
Qed.

Lemma zero_linear T C x w b :
  has_shape T C x -> has_shape C C w -> length b = C ->
  exists o gs, call_test TLinear [ATensor x; ATensor w; AVector b] (UTensor (zeros T C)) = Ok (o, gs) /\
    all2 grad_zero_fitsb [ATensor x; ATensor w; AVector b] gs = true.
Proof.
  intros Hx Hw Hb. pose proof Hx as (_ & Hxr & Hxc). pose proof Hw as (_ & Hwr & Hwc).
  cbn [call_test]. rewrite (run_Ok LinearFn.function (x, w, b) (zeros T C) _ _ _
                             (LinearFn.linear_forward_ok x w b ltac:(congruence) ltac:(congruence))
                             (LinearFn.linear_backward_ok x w b (zeros T C) T C C Hx Hw (zeros_shape T C))).
  cbn [rbind fst snd]. do 2 eexists. split; [reflexivity |]. cbn [all2].
  rewrite !fits_mat, fits_vec; [reflexivity | ..]; rewrite ?nrows_tab, ?ncols_tab, ?length_tabulate; try congruence.
  - intros i Hi. unfold vget. rewrite nth_tabulate by exact Hi. zero_entries.
  - zero_entries.
  - zero_entries.
Qed.

Lemma zero_gelu T C x :
  has_shape T C x ->
  exists o gs, call_test TGelu [ATensor x] (UTensor (zeros T C)) = Ok (o, gs) /\
    all2 grad_zero_fitsb [ATensor x] gs = true.
Proof.
  intros (_ & Hr & Hc). cbn [call_test].
  rewrite (run_Ok GELUFn.function x (zeros T C) _ _ _ eq_refl
             (gelu_backward_ok x (zeros T C) ltac:(unfold zeros; rewrite nrows_tab; congruence)
                                             ltac:(unfold zeros; rewrite ncols_tab; congruence))).
  cbn [rbind fst snd]. do 2 eexists. split; [reflexivity |]. cbn [all2].
  rewrite fits_mat; [reflexivity | apply nrows_tab | apply ncols_tab |].
  intros i j Hi Hj. unfold zeros. zero_entries.
Qed.

Lemma zero_add T C a b :
  has_shape T C a -> has_shape T C b ->
  exists o gs, call_test TAdd [ATensor a; ATensor b] (UTensor (zeros T C)) = Ok (o, gs) /\
    all2 grad_zero_fitsb [ATensor a; ATensor b] gs = true.
Proof.
  intros (_ & Har & Hac) (_ & Hbr & Hbc). rewrite call_add by congruence.
  do 2 eexists. split; [reflexivity |]. cbn [all2].
  rewrite !fits_mat; [reflexivity | ..]; unfold zeros; rewrite ?nrows_tab, ?ncols_tab; try congruence;
    intros i j Hi Hj; zero_entries.
Qed.

Lemma zero_embedding T C x emb :
  length x = T -> (forall i, In i x -> (0 <= i < Z.of_nat (T - 1))%Z) -> has_shape T C emb ->
  exists o gs, call_test TEmbedding [AIndex x; ATensor emb] (UTensor (zeros T C)) = Ok (o, gs) /\
    all2 grad_zero_fitsb [AIndex x; ATensor emb] gs = true.
Proof.
  intros Hl Hx (_ & Her & Hec).
  assert (E : exists d, index_add (zeros_like emb) x (zeros T C) = Ok d).
  { unfold index_add, check, zeros_like, zeros. rewrite !ncols_tab, !nrows_tab, Hl, Hec, !Nat.eqb_refl.
    cbn [andb rbind]. rewrite check_index_ok by (intros i Hi; specialize (Hx i Hi); lia).
    eexists; reflexivity. }
  destruct E as [d E]. cbn [call_test].
  erewrite run_Ok; [| cbn; unfold EmbeddingFn.forward;
                        rewrite resolve_index_ok by (intros i Hi; specialize (Hx i Hi); lia); reflexivity
                   | cbn; unfold EmbeddingFn.backward; cbn; rewrite E; reflexivity].
  apply index_add_zeros_spec in E as ((_ & Hdr & Hdc) & _ & Hd). cbn [rbind fst snd].
  do 2 eexists. split; [reflexivity |]. cbn [all2].
  rewrite fits_mat; [reflexivity | exact Hdr | exact Hdc |].
  intros i j Hi Hj. rewrite Hd by congruence. apply sumn_zero_terms. intros t Ht.
  destruct (_ =? _)%Z; [| reflexivity]. rewrite mget_zeros by lia. reflexivity.
Qed.
End ZeroUpstream.

(** ** [LinearFn] *)

Section LinearCheck.
Import Harness.

(** A sum of products one of whose factors moves by [h] at index [j]. *)
Lemma sumn_bump n j (P : bool) h (X F : nat -> R) :
  (j < n)%nat ->
  sumn n (fun k => (if P && (k =? j)%nat then X k + h else X k) * F k) =
  sumn n (fun k => X k * F k) + h * (if P then F j else 0).
Proof.
  intros Hj.
  rewrite (sumn_ext _ _ (fun k => X k * F k + h * ((if P && (k =? j)%nat then 1 else 0) * F k)))
    by (intros k _; destruct (P && (k =? j)%nat); ring).
  rewrite Rsumn_add, Rsumn_mul_l. now rewrite sumn_pick_second.
Qed.

(** [x @ w.T + b] is affine in each entry of [x], [w] and [b]. *)
Lemma affine_perturb_x x w b i0 k0 h t o :
  (t < nrows x)%nat -> (o < nrows w)%nat -> (k0 < ncols x)%nat ->
  mget (LinearFn.affine (perturb x i0 k0 h) w b) t o =
  mget (LinearFn.affine x w b) t o + h * (if (t =? i0)%nat then mget w o k0 else 0).
Proof.
  intros Ht Ho Hk. unfold LinearFn.affine. rewrite !mget_tab by (rewrite ?nrows_perturb; assumption).
  rewrite ncols_perturb. cbn [sadd smul R_scalar].
  rewrite (sumn_ext _ _ (fun k => (if (t =? i0)%nat && (k =? k0)%nat then mget x t k + h else mget x t k) * mget w o k))
    by (intros k Hk'; now rewrite mget_perturb by assumption).
  rewrite sumn_bump by exact Hk. ring.
Qed.

Lemma affine_perturb_w x w b o0 k0 h t o :
  (t < nrows x)%nat -> (o < nrows w)%nat -> ncols x = ncols w -> (k0 < ncols x)%nat ->
  mget (LinearFn.affine x (perturb w o0 k0 h) b) t o =
  mget (LinearFn.affine x w b) t o + h * (if (o =? o0)%nat then mget x t k0 else 0).
Proof.
  intros Ht Ho Hc Hk. unfold LinearFn.affine. rewrite !mget_tab by (rewrite ?nrows_perturb; assumption).
  cbn [sadd smul R_scalar].
  rewrite (sumn_ext _ _ (fun k => (if (o =? o0)%nat && (k =? k0)%nat then mget w o k + h else mget w o k) * mget x t k))
    by (intros k Hk'; rewrite mget_perturb by lia; destruct (_ && _); cbn [sadd R_scalar]; ring).
  rewrite sumn_bump by exact Hk.
  rewrite (sumn_ext _ (fun k => mget x t k * mget w o k) (fun k => mget w o k * mget x t k)) by (intros; ring).
  ring.
Qed.

Lemma affine_vperturb_b x w b o0 h t o :
  (t < nrows x)%nat -> (o < nrows w)%nat -> length b = nrows w ->
  mget (LinearFn.affine x w (vperturb b o0 h)) t o =
  mget (LinearFn.affine x w b) t o + h * (if (o =? o0)%nat then 1 else 0).
Proof.
  intros Ht Ho Hb. unfold LinearFn.affine. rewrite !mget_tab by assumption. cbn [sadd R_scalar].
  rewrite vget_vperturb by lia. destruct (o =? o0)%nat; ring.
Qed.

Lemma apply_linear x w b :
  ncols x = ncols w -> length b = nrows w ->
  apply_test TLinear [ATensor x; ATensor w; AVector b] = Ok (OTensor (LinearFn.affine x w b)).
Proof. intros Hc Hb. cbn. rewrite LinearFn.linear_forward_ok by assumption. reflexivity. Qed.

Lemma call_linear T C x w b dy :
  has_shape T C x -> has_shape C C w -> length b = C -> has_shape T C dy ->
  call_test TLinear [ATensor x; ATensor w; AVector b] (UTensor dy) =
  Ok (OTensor (LinearFn.affine x w b),
      [GTensor (tab T C (fun t k => sumn C (fun o => mget dy t o * mget w o k)));
       GTensor (tab C C (fun o k => sumn T (fun t => mget dy t o * mget x t k)));
       GVector (tabulate C (fun o => sumn T (fun t => mget dy t o)))]).
Proof.
  intros Hx Hw Hb Hdy. pose proof Hx as (_ & Hxr & Hxc). pose proof Hw as (_ & Hwr & Hwc).
  cbn [call_test]. rewrite (run_Ok LinearFn.function (x, w, b) dy _ _ _
                             (LinearFn.linear_forward_ok x w b ltac:(congruence) ltac:(congruence))
                             (LinearFn.linear_backward_ok x w b dy T C C Hx Hw Hdy)).
  reflexivity.
Qed.

Lemma nrows_affine (x w : mat R) b : nrows (LinearFn.affine x w b) = nrows x.
Proof. apply nrows_tab. Qed.

Lemma ncols_affine (x w : mat R) b : ncols (LinearFn.affine x w b) = nrows w.
Proof. apply ncols_tab. Qed.

Lemma gradcheck_linear_entries T C x w b :
  has_shape T C x -> has_shape C C w -> length b = C ->
  forall k p q, (k < 3)%nat -> (p < arg_size (nth k [ATensor x; ATensor w; AVector b] (AIndex [])))%nat ->
  (q < T * C)%nat ->
  exists g, ana_entry TLinear [ATensor x; ATensor w; AVector b] (OTensor (LinearFn.affine x w b)) k p q = Ok g /\
    forall h, exists oh, apply_test TLinear (bump_nth [ATensor x; ATensor w; AVector b] k p h) = Ok oh /\
      out_at oh q = out_at (OTensor (LinearFn.affine x w b)) q + h * g.
Proof.
  intros Hx Hw Hb k p q Hk Hp Hq. pose proof Hx as (_ & Hxr & Hxc). pose proof Hw as (_ & Hwr & Hwc).
  destruct (flat_lt T C q Hq) as [Hq1 Hq2].
  unfold ana_entry, onehot. rewrite nrows_affine, ncols_affine, Hxr, Hwr.
  rewrite (call_linear T C x w b _ Hx Hw Hb (tab_shape _ _ _)). cbn [rbind snd].
  destruct k as [|[|[|k]]]; cbn [nth arg_size] in Hp |- *; [| | | lia];
    eexists; (split; [reflexivity |]); intros h; cbn [bump_nth arg_bump];
    (rewrite apply_linear by (rewrite ?ncols_perturb, ?nrows_perturb, ?length_vperturb; congruence));
    eexists; (split; [reflexivity |]); cbn [out_at grad_at]; rewrite !ncols_affine, ?nrows_perturb, Hwr.
  - rewrite Hxr, Hxc in Hp. destruct (flat_lt T C p Hp) as [Hp1 Hp2]. rewrite Hxc.
    rewrite affine_perturb_x by congruence. rewrite ncols_tab, mget_tab by assumption.
    rewrite sumn_onehot_col by assumption. now rewrite Nat.eqb_sym.
  - rewrite Hwr, Hwc in Hp. destruct (flat_lt C C p Hp) as [Hp1 Hp2]. rewrite Hwc.
    rewrite affine_perturb_w by congruence. rewrite ncols_tab, mget_tab by assumption.
    rewrite sumn_onehot_row by assumption. now rewrite Nat.eqb_sym.
  - rewrite Hb in Hp. rewrite affine_vperturb_b by congruence. unfold vget. rewrite nth_tabulate by exact Hp.
    rewrite (sumn_ext _ _ (fun t => mget (tab T C (fun i j => if (i * C + j =? q)%nat then 1 else 0)) t p * 1))
      by (intros; ring).
    rewrite sumn_onehot_row by assumption. now rewrite Nat.eqb_sym.
Qed.
End LinearCheck.

(** ** [EmbeddingFn] *)

Section EmbeddingCheck.
Import Harness.

Lemma apply_embedding x emb :
  (forall i, In i x -> (0 <= i < Z.of_nat (nrows emb))%Z) ->
  apply_test TEmbedding [AIndex x; ATensor emb] =
  Ok (OTensor (gather_rows emb (map (py_wrap (nrows emb)) x))).
Proof.
  intros Hin. cbn. unfold EmbeddingFn.forward.
  rewrite resolve_index_ok by (intros i Hi; specialize (Hin i Hi); lia). reflexivity.
Qed.

Lemma call_embedding x emb dy demb :
  (forall i, In i x -> (0 <= i < Z.of_nat (nrows emb))%Z) ->
  index_add (zeros_like emb) x dy = Ok demb ->
  call_test TEmbedding [AIndex x; ATensor emb] (UTensor dy) =
  Ok (OTensor (gather_rows emb (map (py_wrap (nrows emb)) x)), [GNone; GTensor demb]).
Proof.
  intros Hin E. cbn [call_test].
  rewrite (run_Ok EmbeddingFn.function (x, emb) dy (gather_rows emb (map (py_wrap (nrows emb)) x))
             (EmbeddingFn.Ctx x emb) (None, demb)); [reflexivity | |].
  - cbn. unfold EmbeddingFn.forward. rewrite resolve_index_ok by (intros i Hi; specialize (Hin i Hi); lia).
    reflexivity.
  - cbn. unfold EmbeddingFn.backward. cbn. now rewrite E.
Qed.

(** The row a drawn index selects, and the indicator of the table entry
    [(r, j1)] at output entry [q]. *)
Lemma sumn_index_onehot T C x q r j1 :
  length x = T -> (q < T * C)%nat -> (j1 < C)%nat ->
  sumn (length x) (fun t => if (nth t x 0 =? Z.of_nat r)%Z
                            then mget (tab T C (fun i j => if (i * C + j =? q)%nat then 1 else 0)) t j1 else 0) =
  if (nth (q / C) x 0 =? Z.of_nat r)%Z && (j1 =? q mod C)%nat then 1 else 0.
Proof.
  intros Hl Hq Hj. destruct (flat_lt T C q Hq) as [Hq1 Hq2]. subst T.
  rewrite (sumn_ext _ _ (fun t => (if (nth t x 0 =? Z.of_nat r)%Z && (j1 =? q mod C)%nat then 1 else 0)
                                  * (if (t =? q / C)%nat then 1 else 0))).
  - now rewrite sumn_pick.
  - intros t Ht. rewrite mget_onehot by assumption.
    destruct (nth t x 0 =? Z.of_nat r)%Z, (t =? q / C)%nat, (j1 =? q mod C)%nat; cbn; ring.
Qed.

Lemma nrows_gather emb (idx : list nat) : nrows (gather_rows emb idx) = length idx.
Proof. apply nrows_tab. Qed.

Lemma ncols_gather emb (idx : list nat) : ncols (gather_rows emb idx) = ncols emb.
Proof. apply ncols_tab. Qed.

Lemma gradcheck_embedding_entries T C x emb :
  length x = T -> (forall i, In i x -> (0 <= i < Z.of_nat (T - 1))%Z) -> has_shape T C emb ->
  forall k p q, (k < 2)%nat -> (p < arg_size (nth k [AIndex x; ATensor emb] (AIndex [])))%nat ->
  (q < T * C)%nat ->
  exists g, ana_entry TEmbedding [AIndex x; ATensor emb] (OTensor (gather_rows emb (map (py_wrap (nrows emb)) x))) k p q = Ok g /\
    forall h, exists oh, apply_test TEmbedding (bump_nth [AIndex x; ATensor emb] k p h) = Ok oh /\
      out_at oh q = out_at (OTensor (gather_rows emb (map (py_wrap (nrows emb)) x))) q + h * g.
Proof.
  intros Hl Hx (_ & Her & Hec) k p q Hk Hp Hq.
  assert (Hin : forall i, In i x -> (0 <= i < Z.of_nat (nrows emb))%Z)
    by (intros i Hi; specialize (Hx i Hi); lia).
  destruct (flat_lt T C q Hq) as [Hq1 Hq2].
  destruct k as [|[|k]]; cbn [nth arg_size] in Hp; [lia | | lia].
  rewrite Her, Hec in Hp. destruct (flat_lt T C p Hp) as [Hp1 Hp2].
  unfold ana_entry, onehot. rewrite nrows_gather, ncols_gather, length_map, Hl, Hec.
  assert (E : exists d, index_add (zeros_like emb) x (tab T C (fun i j => if (i * C + j =? q)%nat then 1 else 0)) = Ok d).
  { unfold index_add, check, zeros_like. rewrite !ncols_tab, !nrows_tab, Hl, Hec, !Nat.eqb_refl.
    cbn [andb rbind]. rewrite check_index_ok by exact Hin. eexists; reflexivity. }
  destruct E as [d E]. rewrite (call_embedding x emb _ d Hin E). cbn [rbind snd nth grad_at].
  apply index_add_zeros_spec in E as ((_ & Hdr & Hdc) & _ & Hd).
  eexists; split; [reflexivity |]. intros h. cbn [bump_nth arg_bump].
  rewrite apply_embedding by (rewrite nrows_perturb; exact Hin). rewrite nrows_perturb.
  eexists; split; [reflexivity |]. cbn [out_at].
  assert (Ht : (0 <= nth (q / C) x 0 < Z.of_nat (nrows emb))%Z) by (apply Hin, nth_In; lia).
  unfold gather_rows. rewrite !ncols_tab, ncols_perturb, Hdc, Hec, !mget_tab by (rewrite ?length_map; lia).
  rewrite Hd by lia. rewrite (sumn_index_onehot T C) by assumption.
  rewrite nth_map_py_wrap, py_wrap_nonneg by lia.
  rewrite mget_perturb by (rewrite ?Hec; lia). cbn [sadd R_scalar].
  replace (Z.to_nat (nth (q / C) x 0%Z) =? p / C)%nat with (nth (q / C) x 0%Z =? Z.of_nat (p / C))%Z
    by (destruct (Z.eqb_spec (nth (q / C) x 0%Z) (Z.of_nat (p / C))),
                 (Nat.eqb_spec (Z.to_nat (nth (q / C) x 0%Z)) (p / C)); lia).
  rewrite (Nat.eqb_sym (p mod C)). destruct (_ && _); ring.
Qed.
End EmbeddingCheck.

(** ** The checks on the harness's draws *)

Section GradcheckClaims.
Import Harness.

Lemma zero_check_ok T C t args o :
  all2 conformsb (test_params T C t) args = true -> out_okb T C t o = true ->
  exists o' gs, call_test t args (zero_up o) = Ok (o', gs) /\ all2 grad_zero_fitsb args gs = true.
Proof.
  intros Ha Hs. destruct o as [l | y].
  - destruct t; cbn [out_okb] in Hs; try discriminate Hs. cbn [test_params] in Ha. destruct_draw args Ha.
    cbn [zero_up]. apply (zero_ce T C); solve_conformance.
  - rewrite (zero_up_zeros T C t y Hs).
    destruct t; [cbn [out_okb] in Hs; discriminate Hs | ..]; cbn [test_params] in Ha; destruct_draw args Ha;
      first [ apply (zero_ln T C) | apply (zero_linear T C) | apply (zero_gelu T C) | apply (zero_add T C)
            | apply (zero_embedding T C) ]; solve_conformance.
Qed.

(** C23: [gradcheck]'s last check passes for every operator of the table
    on every draw: called with a zero upstream gradient, each [backward]
    returns gradients that are all zeros and have the sizes of their
    inputs ([None] for the index inputs), so no operator's [backward]
    ignores [grad_output]. *)
Theorem gradcheck_backward_zero T C t args :
  all2 conformsb (test_params T C t) args = true ->
  exists o o' gs, apply_test t args = Ok o /\ call_test t args (zero_up o) = Ok (o', gs) /\
    all2 grad_zero_fitsb args gs = true.
Proof.
  intros Ha. destruct (apply_test_ref T C t args Ha) as (o & Ho & _ & Hs).
  destruct (zero_check_ok T C t args o Ha Hs) as (o' & gs & Hc & Hf). now exists o, o', gs.
Qed.

(** The outputs of [linear], [add] and [embedding] are affine in each
    input entry, with the slope the one-hot [backward] returns. *)
Lemma linear_ops_affine T C t args o :
  In t [TLinear; TAdd; TEmbedding] -> all2 conformsb (test_params T C t) args = true ->
  apply_test t args = Ok o ->
  forall k p q, (k < length args)%nat -> (p < arg_size (nth k args (AIndex [])))%nat ->
    (q < out_size o)%nat ->
    exists a, ana_entry t args o k p q = Ok a /\
      forall h, exists oh, apply_test t (bump_nth args k p h) = Ok oh /\ out_at oh q = out_at o q + h * a.
Proof.
  intros Ht Ha Ho. destruct Ht as [<- | [<- | [<- | []]]]; cbn [test_params] in Ha; destruct_draw args Ha;
    intros k p q Hk Hp Hq; cbn [length] in Hk.
  - rewrite apply_linear in Ho by congruence. injection Ho as <-.
    cbn [out_size] in Hq. rewrite nrows_affine, ncols_affine in Hq.
    apply (gradcheck_linear_entries T C); solve_conformance || congruence.
  - rewrite apply_add in Ho by congruence. injection Ho as <-.
    cbn [out_size] in Hq. rewrite nrows_tab, ncols_tab in Hq.
    apply (gradcheck_add_entries T C); solve_conformance || (subst; assumption).
  - rewrite apply_embedding in Ho by solve_conformance. injection Ho as <-.
    cbn [out_size] in Hq. rewrite nrows_gather, ncols_gather, length_map in Hq.
    apply (gradcheck_embedding_entries T C); solve_conformance || congruence.
Qed.

(** C20: [gradcheck] passes for the operators that are linear in each
    input ([linear], [add], [embedding]) on every draw, with any [eps > 0]
    (the harness's [1e-6] among them) and any non-negative tolerances: for
    each entry of each input and each output entry, the central
    difference equals the entry of the Jacobian that [backward] computes
    for the one-hot upstream gradient. *)
Theorem gradcheck_linear_ops T C t args eps atol rtol :
  In t [TLinear; TAdd; TEmbedding] -> 0 < eps -> 0 <= atol -> 0 <= rtol ->
  all2 conformsb (test_params T C t) args = true ->
  gradcheck eps atol rtol t args = Ok tt.
Proof.
  intros Ht He Hat Hrt Ha. destruct (apply_test_ref T C t args Ha) as (o & Ho & _ & Hs).
  apply (gradcheck_pass t args o eps atol rtol ltac:(lra) Hat Hrt Ho);
    [exact (linear_ops_affine T C t args o Ht Ha Ho) | exact (zero_check_ok T C t args o Ha Hs)].
Qed.
End GradcheckClaims.

(** ** Witnesses, at [T, C = 2, 2] *)

Definition g_x : mat R := Mat 2 2 [[1; 2]; [3; 4]].
Definition g_w : mat R := Mat 2 2 [[1; 0]; [-1; 2]].

Lemma gradcheck_backward_zero_witness :
  exists o o' gs,
    Harness.apply_test Harness.TLayerNorm [Harness.ATensor g_x; Harness.AVector [1; 1]; Harness.AVector [0; 0]] = Ok o /\
    Harness.call_test Harness.TLayerNorm [Harness.ATensor g_x; Harness.AVector [1; 1]; Harness.AVector [0; 0]]
      (Harness.zero_up o) = Ok (o', gs) /\
    Harness.all2 Harness.grad_zero_fitsb [Harness.ATensor g_x; Harness.AVector [1; 1]; Harness.AVector [0; 0]] gs = true.
Proof. apply (gradcheck_backward_zero 2 2). vm_compute. reflexivity. Defined.

Lemma gradcheck_linear_ops_witness :
  Harness.gradcheck (1 / 1000000) (1 / 100) (1 / 100) Harness.TLinear
    [Harness.ATensor g_x; Harness.ATensor g_w; Harness.AVector [5; 6]] = Ok tt.
Proof.
  apply (gradcheck_linear_ops 2 2); [left; reflexivity | lra | lra | lra | vm_compute; reflexivity].
Defined.
