(* ===== verification/GeluGradcheck.v ===== *)
(** * [gradcheck] on [GELUFn] at the harness's draws

    [GELUFn] acts entry by entry, so the central difference [gradcheck]
    takes along entry [p] of the input is [0] on every other output entry
    and, on entry [p] itself, [(gelu (x + eps) - gelu (x - eps)) / (2 eps)].
    By the mean value theorem that is [gelu' c] for some [c] within [eps]
    of [x], and [|gelu' c - gelu' x| <= M * eps] where [M] bounds [gelu'']
    near the draw.  [torch.rand] draws [x] in [[0, 1)], where [|gelu''|] is
    below [100]; with [eps = 1e-6] the distance to the analytical entry
    [gelu' x] that [backward] computes is at most [1e-4], inside the
    harness's [atol = 1e-2].  So the [gelu] test's [gradcheck] passes on
    every draw. *)

From Stdlib Require Import String List Arith Lia ZArith Bool Reals Lra.
From S2P Require Import Prelude Tensor Autograd Calculus GeluOp References Harness HarnessGradcheck.
Import ListNotations.
Local Open Scope R_scope.

(** ** Hyperbolic bounds *)

Section Hyperbolic.

Lemma cosh_ge_1 x : 1 <= cosh x.
Proof. pose proof (cosh_sinh_sqr x). pose proof (cosh_pos x). nra. Qed.

Lemma Rabs_sinh_le_cosh x : Rabs (sinh x) <= cosh x.
Proof.
  pose proof (cosh_sinh_sqr x). pose proof (cosh_pos x).
  apply Rabs_le. split; nra.
Qed.

Lemma Rabs_le_split a b : Rabs a <= b -> -b <= a <= b.
Proof. intros H. pose proof (Rle_abs a). pose proof (Rle_abs (- a)). rewrite Rabs_Ropp in *. lra. Qed.

Lemma dpl_cosh f x a :
  derivable_pt_lim f x a -> derivable_pt_lim (fun h => cosh (f h)) x (sinh (f x) * a).
Proof.
  intros Hf. apply (dpl_comp f cosh); [exact Hf | apply derivable_pt_lim_cosh].
Qed.

End Hyperbolic.

(** ** The second derivative of the activation *)

Section GeluSecond.

Lemma sqrt_2_PI_bounds : 0 <= sqrt (2 / PI) <= 1.
Proof.
  pose proof PI2_3_2. pose proof PI_RGT_0. split; [apply sqrt_pos |].
  rewrite <- sqrt_1. apply sqrt_le_1_alt. apply (Rmult_le_reg_r PI); [lra |].
  unfold Rdiv. rewrite Rmult_assoc, Rinv_l by lra. lra.
Qed.

(** [gelu'' v] with [a = sqrt(2/pi)], [b = a (v + k v^3)], [D = a (1 + 3 k v^2)]. *)
Definition gelu'' (v : R) : R :=
  let a := sqrt (2 / PI) in
  let b := GELUFn.gelu_b a v in
  let D := GELUFn.gelu_db a v in
  0.5 * (2 * D / (cosh b * cosh b) - 2 * v * D * D * sinh b / (cosh b * cosh b * cosh b)
         + v * (a * (6 * 0.044715 * v)) / (cosh b * cosh b)).

Lemma gelu'_derivative v : derivable_pt_lim gelu' v (gelu'' v).
Proof.
  unfold gelu', gelu'', GELUFn.gelu_dx, GELUFn.gelu_b, GELUFn.gelu_db.
  set (a := sqrt (2 / PI)).
  eapply dpl_value; [| repeat first
    [ apply dpl_const | apply dpl_id | apply dpl_tanh | apply dpl_cosh | apply dpl_pow
    | apply dpl_div | apply dpl_plus | apply dpl_mult ] ].
  - simpl. unfold tanh. field. apply cosh_neq0.
  - simpl. apply Rmult_integral_contrapositive_currified; [apply cosh_neq0 | rewrite Rmult_1_r; apply cosh_neq0].
Qed.

(** The factors of [gelu''] on [[-2, 2]]. *)
Lemma gelu''_bound v : -2 <= v <= 2 -> Rabs (gelu'' v) <= 100.
Proof.
  intros Hv. unfold gelu'', GELUFn.gelu_db.
  set (a := sqrt (2 / PI)). set (b := GELUFn.gelu_b a v).
  pose proof sqrt_2_PI_bounds as Ha. fold a in Ha.
  pose proof (cosh_ge_1 b) as Hc. pose proof (Rabs_sinh_le_cosh b) as Hs.
  set (c := cosh b) in *. set (s := sinh b) in *.
  set (u := / c). assert (Hu : 0 < u <= 1).
  { unfold u. split; [apply Rinv_0_lt_compat; lra |]. rewrite <- Rinv_1. apply Rinv_le_contravar; lra. }
  set (w := s / c). assert (Hw : -1 <= w <= 1).
  { unfold w. apply Rabs_le_split. unfold Rdiv. rewrite Rabs_mult, Rabs_inv, (Rabs_pos_eq c) by lra.
    apply (Rmult_le_reg_r c); [lra |]. rewrite Rmult_assoc, Rinv_l by lra. lra. }
  set (D := a * (1 + 3 * 0.044715 * v ^ 2)).
  assert (HD : 0 <= D <= 2) by (unfold D; split; nra).
  replace (0.5 * (2 * D / (c * c) - 2 * v * D * D * s / (c * c * c) + v * (a * (6 * 0.044715 * v)) / (c * c)))
    with (0.5 * (u * u) * (2 * D - 2 * v * D * D * w + 6 * 0.044715 * a * v * v))
    by (unfold u, w; field; lra).
  assert (HX : Rabs (2 * D - 2 * v * D * D * w + 6 * 0.044715 * a * v * v) <= 100).
  { assert (H1 : Rabs (v * D * D * w) <= 8).
    { rewrite !Rabs_mult.
      assert (Rabs v <= 2) by (apply Rabs_le; lra).
      assert (Rabs D <= 2) by (apply Rabs_le; lra).
      assert (Rabs w <= 1) by (apply Rabs_le; lra).
      pose proof (Rabs_pos v). pose proof (Rabs_pos D). pose proof (Rabs_pos w).
      assert (Rabs v * Rabs D <= 4) by nra.
      assert (Rabs v * Rabs D * Rabs D <= 8) by nra.
      nra. }
    apply Rabs_le_split in H1. apply Rabs_le. split; nra. }
  rewrite Rabs_mult. rewrite (Rabs_pos_eq (0.5 * (u * u))) by nra.
  pose proof (Rabs_pos (2 * D - 2 * v * D * D * w + 6 * 0.044715 * a * v * v)). nra.
Qed.

End GeluSecond.

(** ** The central difference of the activation *)

Section CentralGelu.

(** For a draw in [[0, 1]] and [0 < e <= 1], the central difference of
    [gelu] is within [100 e] of [gelu'] at the draw. *)
Lemma gelu_central_close v e :
  0 <= v <= 1 -> 0 < e <= 1 ->
  Rabs (gelu' v - (gelu (v + e) - gelu (v + - e)) / (2 * e)) <= 100 * e.
Proof.
  intros Hv He. destruct (central_mvt gelu gelu' v e ltac:(lra) (fun c _ => gelu_derivative c)) as (c & Hc & ->).
  apply (Rle_trans _ (100 * Rabs (v - c))).
  - apply (deriv_bound_diff gelu' gelu'' 100 (-2) 2); [intros; apply gelu'_derivative | | lra | lra].
    intros; apply gelu''_bound; lra.
  - apply Rmult_le_compat_l; [lra |]. apply Rabs_le. lra.
Qed.

End CentralGelu.

(** ** The [gelu] test of the harness *)

Section GeluTest.
Import Harness.

Lemma apply_gelu x :
  apply_test TGelu [ATensor x] = Ok (OTensor (tab (nrows x) (ncols x) (fun i j => gelu (mget x i j)))).
Proof. cbn [apply_test fn_forward GELUFn.function rbind]. now rewrite gelu_forward_mmap. Qed.

Lemma call_gelu x dy :
  nrows dy = nrows x -> ncols dy = ncols x ->
  call_test TGelu [ATensor x] (UTensor dy) =
  Ok (OTensor (fst (GELUFn.forward x)),
      [GTensor (tab (nrows x) (ncols x) (fun i j => mget dy i j * gelu' (mget x i j)))]).
Proof.
  intros Hr Hc. cbn [call_test].
  now rewrite (run_Ok GELUFn.function x dy _ _ _ eq_refl (gelu_backward_ok x dy Hr Hc)).
Qed.

(** [gradcheck] on [GELUFn] passes for a draw of [torch.rand], for any
    [0 < eps <= 1] with [100 eps <= atol]. *)
Lemma gradcheck_gelu_draw T C x eps atol rtol :
  has_shape T C x -> (forall i j, (i < T)%nat -> (j < C)%nat -> 0 <= mget x i j < 1) ->
  0 < eps <= 1 -> 100 * eps <= atol -> 0 <= rtol ->
  gradcheck eps atol rtol TGelu [ATensor x] = Ok tt.
Proof.
  intros Hx Hrange He Ha Hr. pose proof Hx as (_ & Hxr & Hxc).
  apply (gradcheck_pass_close _ _ _ eps atol rtol (apply_gelu x)).
  - intros k p q Hk Hp Hq. cbn [length] in Hk. destruct k as [|k]; [| lia].
    cbn [nth arg_size out_size] in Hp, Hq. rewrite nrows_tab, ncols_tab in Hq.
    rewrite Hxr, Hxc in Hp, Hq. destruct (flat_lt T C p Hp) as [Hp1 Hp2]. destruct (flat_lt T C q Hq) as [Hq1 Hq2].
    unfold ana_entry, onehot, num_entry. rewrite nrows_tab, ncols_tab.
    rewrite call_gelu by (rewrite ?nrows_tab, ?ncols_tab; congruence).
    cbn [bump_nth arg_bump]. rewrite !apply_gelu. cbn [rbind snd nth grad_at out_at].
    rewrite ?nrows_tab, ?ncols_tab, ?nrows_perturb, ?ncols_perturb, ?Hxr, ?Hxc.
    rewrite !mget_tab by assumption. rewrite !mget_perturb by lia. rewrite flat_eqb by lia.
    rewrite (Nat.eqb_sym (p / C)), (Nat.eqb_sym (p mod C)), !flat_pair_eqb by lia.
    do 2 eexists. split; [reflexivity | split; [reflexivity |]].
    destruct (Nat.eqb_spec q p) as [-> | Hne]; cbn [sadd R_scalar].
    + apply closeb_within; [exact Hr |]. rewrite Rmult_1_l.
      apply (Rle_trans _ (100 * eps)); [| exact Ha].
      apply gelu_central_close; [specialize (Hrange _ _ Hp1 Hp2); lra | exact He].
    + replace ((gelu (mget x (q / C) (q mod C)) - gelu (mget x (q / C) (q mod C))) / (2 * eps)) with 0
        by (field; lra).
      rewrite Rmult_0_l. apply closeb_within; [exact Hr |]. rewrite Rminus_0_r, Rabs_R0. lra.
  - rewrite (zero_up_zeros T C TGelu) by (rewrite Hxr, Hxc; apply shape_ok, tab_shape).
    now apply zero_gelu.
Qed.

End GeluTest.

Section GeluClaim.
Import Harness.

(** C22: the harness's [gelu] test passes on every draw of [torch.rand]:
    [gradcheck] with [eps = 1e-6] and [atol = rtol = 1e-2] accepts
    [GELUFn], whose central differences lie within [1e-4] of the
    derivatives [backward] computes, and the iteration of the loop for
    [gelu] (its [assert], its [gradcheck]) prints ["gelu passed"]. *)
Theorem harness_gelu_test_passes T C x :
  all2 conformsb (test_params T C TGelu) [ATensor x] = true -> rand_range (ATensor x) ->
  gradcheck (1 / 1000000) (1 / 100) (1 / 100) TGelu [ATensor x] = Ok tt /\
  test_step C TGelu [ATensor x] = Ok "gelu passed"%string.
Proof.
  intros Ha Hr. pose proof Ha as Ha'. cbn [test_params all2 conformsb] in Ha'.
  rewrite andb_true_r in Ha'. split_conformance. cbn [rand_range] in Hr.
  assert (Hg : gradcheck (1 / 1000000) (1 / 100) (1 / 100) TGelu [ATensor x] = Ok tt).
  { apply (gradcheck_gelu_draw T C); [solve_conformance | intros i j Hi Hj; apply Hr; congruence | lra | lra | lra]. }
  split; [exact Hg |]. rewrite (test_step_gradcheck T C TGelu [ATensor x] Ha), Hg. reflexivity.
Qed.
End GeluClaim.

(** ** Witness *)

Definition gg_x : mat R := Mat 2 2 [[0; 1 / 2]; [1 / 4; 3 / 4]].

Lemma harness_gelu_test_passes_witness :
  Harness.gradcheck (1 / 1000000) (1 / 100) (1 / 100) Harness.TGelu [Harness.ATensor gg_x] = Ok tt /\
  Harness.test_step 2 Harness.TGelu [Harness.ATensor gg_x] = Ok "gelu passed"%string.
Proof.
  apply (harness_gelu_test_passes 2 2); [vm_compute; reflexivity |].
  cbn [Harness.rand_range]. intros i j Hi Hj. cbn in Hi, Hj.
  destruct i as [|[|i]]; [| | lia]; (destruct j as [|[|j]]; [| | lia]); cbn; lra.
Defined.
