(* ===== verification/CrossEntropyGradcheck.v ===== *)
(** * [gradcheck] on [CrossEntropyFn] at the harness's draws

    Along the logit [(i, j)] the loss [F h = ce_loss (x + h e_ij) y] has
    derivative [G h = (s_ij(h) - [j = y_i]) / T] at every [h], where
    [s_ij(h)] is the softmax entry of the perturbed logits: perturbations
    compose ([perturb (perturb x c) h = perturb x (c + h)]), so the
    derivative at [c] is the one of [CrossEntropyOp.ce_loss_deriv] at the
    shifted logits.  [G] moves with slope [s (1 - s) / T <= 1 / 4], so by
    the mean value theorem the central difference [(F eps - F (-eps)) /
    (2 eps)], which is [G c] for some [|c| < eps], lies within [eps / 4] of
    [G 0], the entry [backward] returns for the unit upstream gradient.
    With [eps = 1e-6] and [atol = 1e-2], the [cross_entropy] test's
    [gradcheck] passes for every logit tensor: unlike the [gelu] test, no
    range of the draw is needed. *)

From Stdlib Require Import String List Arith Lia ZArith Bool Reals Lra.
From S2P Require Import Prelude Tensor Autograd Calculus CrossEntropyOp References Harness HarnessGradcheck.
Import ListNotations.
Local Open Scope R_scope.

(** ** The loss along one logit *)

Section LossSlope.

Lemma perturb_perturb (A : mat R) i j c h :
  perturb (perturb A i j c) i j h = perturb A i j (c + h).
Proof.
  unfold perturb at 1. rewrite nrows_perturb, ncols_perturb. symmetry. unfold perturb at 1. symmetry.
  apply tab_ext. intros a b Ha Hb. rewrite mget_perturb by assumption.
  cbn [sadd R_scalar]. destruct ((a =? i) && (b =? j)); ring.
Qed.

(** A derivative at [c] is the derivative at [0] of the shifted function. *)
Lemma dpl_shift f c l :
  derivable_pt_lim (fun h => f (c + h)) 0 l -> derivable_pt_lim f c l.
Proof.
  intros Hf eps Heps. destruct (Hf eps Heps) as [d Hd]. exists d. intros h Hh Hlt.
  specialize (Hd h Hh Hlt). now rewrite Rplus_0_l, Rplus_0_r in Hd.
Qed.

Lemma ce_grad_perturb_0 x y g i j t k :
  (t < nrows x)%nat -> (k < ncols x)%nat ->
  mget (ce_grad (perturb x i j 0) y g) t k = mget (ce_grad x y g) t k.
Proof.
  intros Ht Hk. unfold ce_grad. rewrite nrows_perturb, ncols_perturb, !mget_tab by assumption.
  unfold softmax. rewrite nrows_perturb, ncols_perturb, !mget_tab by assumption.
  rewrite mget_perturb_0 by assumption.
  rewrite (sumn_ext _ (fun c => exp (mget (perturb x i j 0) t c)) (fun c => exp (mget x t c)))
    by (intros; now rewrite mget_perturb_0).
  reflexivity.
Qed.

Section Logit.
Variables (x : mat R) (y : list Z) (i j : nat).
Hypotheses (Hy : targets_ok x y) (Hi : (i < nrows x)%nat) (Hj : (j < ncols x)%nat).

(** The loss along the logit and its derivative. *)
Let F (h : R) : R := ce_loss (perturb x i j h) y.
Let G (h : R) : R := mget (ce_grad (perturb x i j h) y 1) i j.
Let s (h : R) : R := mget (softmax (perturb x i j h)) i j.

Lemma ce_loss_slope c : derivable_pt_lim F c (G c).
Proof.
  apply dpl_shift. unfold F, G.
  apply (dpl_ext (fun h => ce_loss (perturb (perturb x i j c) i j h) y));
    [intros h; now rewrite perturb_perturb |].
  apply ce_loss_deriv; rewrite ?nrows_perturb, ?ncols_perturb; [now apply targets_ok_perturb | lia ..].
Qed.

Lemma ce_grad_softmax h :
  G h = (s h - (if j =? py_wrap (ncols x) (nth i y 0%Z) then 1 else 0)) / INR (nrows x).
Proof.
  unfold G, s, ce_grad. rewrite nrows_perturb, ncols_perturb, mget_tab by assumption.
  now rewrite Rmult_1_l.
Qed.

Lemma softmax_slope c : derivable_pt_lim s c (s c * (1 - s c)).
Proof.
  set (S h := sumn (ncols x) (fun k => exp (mget (perturb x i j h) i k))).
  assert (HS : 0 < S c).
  { apply sumn_pos; [lia | intros; apply exp_pos]. }
  apply (dpl_ext (fun h => exp (mget (perturb x i j h) i j) / S h));
    [intros h; unfold s; rewrite mget_softmax_perturb by assumption; reflexivity |].
  eapply dpl_value; [| apply dpl_div; [apply dpl_exp, dpl_perturb; rewrite ?nrows_perturb, ?ncols_perturb; assumption
     | apply dpl_sumn; intros k Hk; apply dpl_exp, dpl_perturb; assumption | lra]].
  rewrite sumn_indicator1 by exact Hj. rewrite Nat.eqb_refl, Nat.eqb_refl. cbn [andb].
  unfold s. rewrite mget_softmax_perturb by assumption. fold (S c). field. lra.
Qed.

Lemma ce_grad_slope c : derivable_pt_lim G c (s c * (1 - s c) / INR (nrows x)).
Proof.
  apply (dpl_ext (fun h => (s h - (if j =? py_wrap (ncols x) (nth i y 0%Z) then 1 else 0)) / INR (nrows x)));
    [intros h; now rewrite ce_grad_softmax |].
  apply dpl_div_const. eapply dpl_value; [| apply dpl_minus; [apply softmax_slope | apply dpl_const]]. ring.
Qed.

Lemma ce_grad_slope_bound c : Rabs (s c * (1 - s c) / INR (nrows x)) <= 1 / 4.
Proof.
  assert (Hs : 0 < s c <= 1).
  { unfold s. destruct (softmax_dist (perturb x i j c) i) as [Hd _];
      rewrite ?nrows_perturb, ?ncols_perturb; try lia. apply Hd. rewrite ncols_perturb. exact Hj. }
  assert (HT : 1 <= INR (nrows x)) by (apply (le_INR 1); lia).
  assert (Hq : 0 <= s c * (1 - s c) <= 1 / 4).
  { pose proof (Rle_0_sqr (s c - 1 / 2)). unfold Rsqr in *. split; nra. }
  assert (Hinv : 0 < / INR (nrows x) <= 1).
  { split; [apply Rinv_0_lt_compat; lra | rewrite <- Rinv_1; apply Rinv_le_contravar; lra]. }
  unfold Rdiv. rewrite Rabs_pos_eq by nra. nra.
Qed.

(** The central difference along the logit is within [e / 4] of the entry
    of the closed-form gradient. *)
Lemma ce_central_close e :
  0 < e -> Rabs (mget (ce_grad x y 1) i j - (F e - F (- e)) / (2 * e)) <= e / 4.
Proof.
  intros He. destruct (central_mvt F G 0 e He (fun c _ => ce_loss_slope c)) as (c & Hc & Hcd).
  rewrite !Rplus_0_l in Hcd. rewrite Hcd.
  rewrite <- (ce_grad_perturb_0 x y 1 i j i j Hi Hj). fold (G 0).
  apply (Rle_trans _ (1 / 4 * Rabs (0 - c))).
  - apply (deriv_bound_diff G (fun c => s c * (1 - s c) / INR (nrows x)) (1 / 4) (- e) e); [intros; apply ce_grad_slope | intros; apply ce_grad_slope_bound | lra | lra].
  - assert (Rabs (0 - c) <= e) by (apply Rabs_le; lra). lra.
Qed.

End Logit.

End LossSlope.

(** ** The [cross_entropy] test of the harness *)

Section CrossEntropyTest.
Import Harness.

(** The targets [torch.randint(C - 1, (T,))] draws are valid targets. *)
Lemma randint_targets_ok T C x y :
  has_shape T C x -> length y = T -> (forall k, In k y -> (0 <= k < Z.of_nat (C - 1))%Z) ->
  targets_ok x y.
Proof.
  intros (_ & Hr & Hc) Hl Hy. split; [lia |]. intros k Hk. specialize (Hy k Hk). lia.
Qed.

Lemma apply_ce x y :
  targets_ok x y -> apply_test TCrossEntropy [ATensor x; AIndex y] = Ok (OScalar (ce_loss x y)).
Proof.
  intros Hy. cbn [apply_test fn_forward CrossEntropyFn.function]. now rewrite ce_forward_code.
Qed.

Lemma call_ce x y g :
  targets_ok x y ->
  call_test TCrossEntropy [ATensor x; AIndex y] (UScalar g) =
  Ok (OScalar (ce_loss x y), [GTensor (ce_grad x y g); GNone]).
Proof.
  intros Hy. cbn [call_test].
  now rewrite (run_Ok CrossEntropyFn.function (x, y) g _ _ _ (ce_forward_code x y Hy) (ce_backward_code x y g Hy)).
Qed.

(** [gradcheck] on [CrossEntropyFn] passes for the harness's draws, for any
    [eps > 0] with [eps / 4 <= atol]. *)
Lemma gradcheck_ce_draw T C x y eps atol rtol :
  has_shape T C x -> length y = T -> (forall k, In k y -> (0 <= k < Z.of_nat (C - 1))%Z) ->
  0 < eps -> eps / 4 <= atol -> 0 <= rtol ->
  gradcheck eps atol rtol TCrossEntropy [ATensor x; AIndex y] = Ok tt.
Proof.
  intros Hx Hl Hyr He Ha Hr. pose proof (randint_targets_ok T C x y Hx Hl Hyr) as Hy.
  apply (gradcheck_pass_close _ _ _ eps atol rtol (apply_ce x y Hy)).
  - intros k p q Hk Hp Hq. cbn [length] in Hk. destruct k as [|[|k]]; [| cbn in Hp; lia | lia].
    cbn [nth arg_size out_size] in Hp, Hq. destruct (flat_lt (nrows x) (ncols x) p Hp) as [Hp1 Hp2].
    unfold ana_entry, onehot, num_entry. rewrite call_ce by exact Hy.
    cbn [bump_nth arg_bump]. rewrite !apply_ce by (now apply targets_ok_perturb).
    cbn [rbind snd nth grad_at out_at]. change (ncols (ce_grad x y 1)) with (ncols x).
    do 2 eexists. split; [reflexivity | split; [reflexivity |]].
    apply closeb_within; [exact Hr |]. apply (Rle_trans _ (eps / 4)); [| exact Ha].
    now apply ce_central_close.
  - now apply (zero_ce T C).
Qed.

End CrossEntropyTest.

Section CrossEntropyClaim.
Import Harness.

(** C21: the harness's [cross_entropy] test passes on every draw:
    [gradcheck] with [eps = 1e-6] and [atol = rtol = 1e-2] accepts
    [CrossEntropyFn] for any logits (its central differences lie within
    [eps / 4] of the gradient [backward] computes), and the iteration of
    the loop for [cross_entropy] prints ["cross_entropy passed"]. *)
Theorem harness_ce_test_passes T C x y :
  all2 conformsb (test_params T C TCrossEntropy) [ATensor x; AIndex y] = true ->
  gradcheck (1 / 1000000) (1 / 100) (1 / 100) TCrossEntropy [ATensor x; AIndex y] = Ok tt /\
  test_step C TCrossEntropy [ATensor x; AIndex y] = Ok "cross_entropy passed"%string.
Proof.
  intros Ha. pose proof Ha as Ha'. cbn [test_params all2 conformsb] in Ha'.
  rewrite andb_true_r in Ha'. split_conformance.
  assert (Hg : gradcheck (1 / 1000000) (1 / 100) (1 / 100) TCrossEntropy [ATensor x; AIndex y] = Ok tt).
  { apply (gradcheck_ce_draw T C); [solve_conformance | assumption | solve_conformance | lra | lra | lra]. }
  split; [exact Hg |]. rewrite (test_step_gradcheck T C TCrossEntropy _ Ha), Hg. reflexivity.
Qed.
End CrossEntropyClaim.

(** ** Witness *)

Definition gc_x : mat R := Mat 2 3 [[1; 0; 2]; [-1; 3; 1 / 2]].

Lemma harness_ce_test_passes_witness :
  Harness.gradcheck (1 / 1000000) (1 / 100) (1 / 100) Harness.TCrossEntropy
    [Harness.ATensor gc_x; Harness.AIndex [1%Z; 0%Z]] = Ok tt /\
  Harness.test_step 3 Harness.TCrossEntropy [Harness.ATensor gc_x; Harness.AIndex [1%Z; 0%Z]] =
    Ok "cross_entropy passed"%string.
Proof. apply (harness_ce_test_passes 2 3). vm_compute. reflexivity. Defined.
