(* ===== verification/HarnessOutcome.v ===== *)
(** * What the [__main__] block prints on the draws of [torch.rand]

    The block builds every float parameter with [torch.rand] (entries in
    [[0, 1)]) and every index tensor with [torch.randint].  On such draws
    the [gradcheck] of five of the six tests is proved to pass:
    [cross_entropy] and [gelu] by the mean value theorem
    ([CrossEntropyGradcheck], [GeluGradcheck]), and [linear], [add] and
    [embedding] exactly ([HarnessGradcheck]).  [layer_norm], the second
    entry of the table, is the only test whose [gradcheck] this development
    does not decide.  The outcome of the whole block therefore depends on
    that one check alone: if it passes, the block prints the six lines and
    its closing line; if it raises, the block prints
    ["cross_entropy passed"] and stops with [GradcheckError]. *)

From Stdlib Require Import String List Arith Lia ZArith Bool Reals Lra.
From S2P Require Import Prelude Tensor Autograd References Harness HarnessGradcheck GeluGradcheck CrossEntropyGradcheck.
Import ListNotations.
Local Open Scope R_scope.

Section HarnessOutcome.
Import Harness.

(** Every test but [layer_norm] passes its [gradcheck] on a draw of
    [torch.rand] and [torch.randint]. *)
Lemma harness_gradcheck_pass T C t args :
  all2 conformsb (test_params T C t) args = true -> Forall rand_range args -> t <> TLayerNorm ->
  gradcheck (1 / 1000000) (1 / 100) (1 / 100) t args = Ok tt.
Proof.
  intros Ha Hr Ht. pose proof Ha as Ha'.
  destruct t; cbn [test_params] in Ha'; try (exfalso; now apply Ht).
  - destruct_draw args Ha'.
    apply (gradcheck_ce_draw T C); (solve_conformance || assumption || lra).
  - destruct (apply_test_ref T C TLinear args Ha) as (o & Ho & _ & Hs).
    apply (gradcheck_pass TLinear args o); [lra | lra | lra | exact Ho | | exact (zero_check_ok T C _ _ o Ha Hs)].
    apply (linear_ops_affine T C); [simpl; tauto | exact Ha | exact Ho].
  - destruct_draw args Ha'. apply Forall_inv in Hr. cbn [rand_range] in Hr.
    apply (gradcheck_gelu_draw T C); [solve_conformance | intros i j Hi Hj; apply Hr; congruence | lra ..].
  - destruct (apply_test_ref T C TAdd args Ha) as (o & Ho & _ & Hs).
    apply (gradcheck_pass TAdd args o); [lra | lra | lra | exact Ho | | exact (zero_check_ok T C _ _ o Ha Hs)].
    apply (linear_ops_affine T C); [simpl; tauto | exact Ha | exact Ho].
  - destruct (apply_test_ref T C TEmbedding args Ha) as (o & Ho & _ & Hs).
    apply (gradcheck_pass TEmbedding args o); [lra | lra | lra | exact Ho | | exact (zero_check_ok T C _ _ o Ha Hs)].
    apply (linear_ops_affine T C); [simpl; tauto | exact Ha | exact Ho].
Qed.

(** One iteration of the loop, on a [gradcheck] that passes or raises. *)
Lemma test_step_pass T C t args :
  all2 conformsb (test_params T C t) args = true ->
  gradcheck (1 / 1000000) (1 / 100) (1 / 100) t args = Ok tt -> test_step C t args = Ok (passed_line t).
Proof. intros Ha Hg. now rewrite (test_step_gradcheck T C t args Ha), Hg. Qed.

Lemma test_step_fail T C t args e :
  all2 conformsb (test_params T C t) args = true ->
  gradcheck (1 / 1000000) (1 / 100) (1 / 100) t args = Err e -> test_step C t args = Err e.
Proof. intros Ha Hg. now rewrite (test_step_gradcheck T C t args Ha), Hg. Qed.

(** C18: on every draw of [torch.rand] and [torch.randint] at the harness's
    sizes, the [__main__] block's output is decided by the [gradcheck] of
    [layer_norm] alone: that check passes and the block prints the six
    ["<test> passed"] lines and its closing line, or it raises
    [GradcheckError] and the block prints ["cross_entropy passed"] and
    stops with that exception.  No other exception is raised. *)
Theorem harness_main_outcome draw :
  (forall t, all2 conformsb (test_params 32 64 t) (draw t) = true) ->
  (forall t, Forall rand_range (draw t)) ->
  (gradcheck (1 / 1000000) (1 / 100) (1 / 100) TLayerNorm (draw TLayerNorm) = Ok tt /\
   main draw = (map passed_line tests ++ ["all tests passed! yay congrats >w<"%string], Ok tt)) \/
  (gradcheck (1 / 1000000) (1 / 100) (1 / 100) TLayerNorm (draw TLayerNorm) = Err GradcheckError /\
   main draw = (["cross_entropy passed"%string], Err GradcheckError)).
Proof.
  intros Hd Hr.
  assert (Hs : forall t, t <> TLayerNorm -> test_step 64 t (draw t) = Ok (passed_line t)).
  { intros t Ht. apply (test_step_pass 32); [apply Hd | now apply (harness_gradcheck_pass 32 64)]. }
  unfold main. cbn [main_loop tests].
  rewrite (Hs TCrossEntropy), (Hs TLinear), (Hs TGelu), (Hs TAdd), (Hs TEmbedding) by discriminate.
  destruct (gradcheck_reaches_verdict 32 64 TLayerNorm (draw TLayerNorm) (1 / 1000000) (1 / 100) (1 / 100)
              (Hd TLayerNorm)) as [Hg | Hg]; [left | right]; split; [exact Hg | | exact Hg |].
  - now rewrite (test_step_pass 32 64 TLayerNorm _ (Hd TLayerNorm) Hg).
  - now rewrite (test_step_fail 32 64 TLayerNorm _ _ (Hd TLayerNorm) Hg).
Qed.

End HarnessOutcome.

(** ** Witness: the all-zero draw, at [T, C = 32, 64] *)

Definition o_x : mat R := tab 32 64 (fun _ _ => 0).

Definition o_draw (t : Harness.test) : list Harness.arg :=
  match t with
  | Harness.TCrossEntropy => [Harness.ATensor o_x; Harness.AIndex (repeat 0%Z 32)]
  | Harness.TLayerNorm => [Harness.ATensor o_x; Harness.AVector (repeat 0 64); Harness.AVector (repeat 0 64)]
  | Harness.TLinear => [Harness.ATensor o_x; Harness.ATensor (tab 64 64 (fun _ _ => 0)); Harness.AVector (repeat 0 64)]
  | Harness.TGelu => [Harness.ATensor o_x]
  | Harness.TAdd => [Harness.ATensor o_x; Harness.ATensor o_x]
  | Harness.TEmbedding => [Harness.AIndex (repeat 0%Z 32); Harness.ATensor o_x]
  end.

Lemma rand_range_zero_tensor r c : Harness.rand_range (Harness.ATensor (tab r c (fun _ _ => 0))).
Proof.
  cbn [Harness.rand_range]. intros i j Hi Hj. rewrite nrows_tab, ncols_tab in *.
  rewrite mget_tab by assumption. lra.
Qed.

Lemma rand_range_zero_vector n : Harness.rand_range (Harness.AVector (repeat 0 n)).
Proof.
  cbn [Harness.rand_range]. intros i Hi. unfold vget.
  rewrite (nth_indep _ _ 0) by exact Hi. rewrite nth_repeat. lra.
Qed.

Lemma harness_main_outcome_witness :
  (Harness.gradcheck (1 / 1000000) (1 / 100) (1 / 100) Harness.TLayerNorm (o_draw Harness.TLayerNorm) = Ok tt /\
   Harness.main o_draw =
     (map Harness.passed_line Harness.tests ++ ["all tests passed! yay congrats >w<"%string], Ok tt)) \/
  (Harness.gradcheck (1 / 1000000) (1 / 100) (1 / 100) Harness.TLayerNorm (o_draw Harness.TLayerNorm) =
     Err GradcheckError /\
   Harness.main o_draw = (["cross_entropy passed"%string], Err GradcheckError)).
Proof.
  apply harness_main_outcome; [intros []; vm_compute; reflexivity |].
  intros []; cbn [o_draw]; repeat apply Forall_cons; try apply Forall_nil;
    first [apply rand_range_zero_tensor | apply rand_range_zero_vector | exact I].
Defined.
